(** * The myQ API client (myq-api.ts): request executor, session manager, device directory

    Shallow embedding of the [myQApi] class.  The repository carries two
    revisions of myq-api.ts:

    - the revision that schedules token refreshes with [refreshTimer]
      ([setTokenRefreshTimer]), embedded in module [TimerRev];
    - the revision that throttles with [lastAuthenticateCall],
      [lastRefreshDevicesCall] and [refreshInterval], embedded in module
      [ThrottleRev].

    Both share the request executor [retrieve], which differs between the
    revisions only in the list of server-side status codes; it is embedded
    once, in section [RequestExecutor], over that list.

    Conventions of the embedding:
    - an [async] method is a state transformer over the client's fields; the
      network is an oracle [Network] giving, for the n-th request issued on
      the client, what [fetch] does with it (a response or a thrown error)
      and how long that takes;
    - every request handed to [fetch] is appended to the [wire] log, so that
      "issues a request" is observable;
    - an exception escaping a method (a rejected promise) is the [Throw]
      result;
    - request headers, bodies and log messages are outputs that no decision
      of the code reads back; they are not part of the state. *)

From Stdlib Require Import ZArith List String Ascii Bool Arith Lia.
From Equations Require Import Equations.
Import ListNotations.

Local Open Scope string_scope.

(** ** JavaScript string primitives used by the client *)

Module Js.

(** [s.split(c)] for a one-character separator: never returns an empty array. *)
Fixpoint split (sep : ascii) (s : string) : list string :=
  match s with
  | EmptyString => [EmptyString]
  | String c rest =>
      if Ascii.eqb c sep then EmptyString :: split sep rest
      else match split sep rest with
           | first :: others => String c first :: others
           | [] => [String c EmptyString]
           end
  end.

(** [parts.join(sep)]. *)
Definition join (sep : string) (parts : list string) : string :=
  String.concat sep parts.

(** Line terminators of the regular-expression atom [.], as far as they can
    occur in a string of bytes: line feed and carriage return. *)
Definition isLineTerminator (c : ascii) : bool :=
  Ascii.eqb c "010"%char || Ascii.eqb c "013"%char.

Definition upperChar (c : ascii) : ascii :=
  let n := nat_of_ascii c in
  if (97 <=? n)%nat && (n <=? 122)%nat then ascii_of_nat (n - 32) else c.

(** [s.toUpperCase()] on ASCII text. *)
Fixpoint toUpperCase (s : string) : string :=
  match s with
  | EmptyString => EmptyString
  | String c rest => String (upperChar c) (toUpperCase rest)
  end.

(** Truthiness of a [string | null] value: null and the empty string are falsy. *)
Definition truthy (v : option string) : bool :=
  match v with
  | Some s => negb (s =? "")
  | None => false
  end.

(** Truthiness of a [number | undefined] value. *)
Definition truthyNum (v : option Z) : bool :=
  match v with
  | Some n => negb (n =? 0)%Z
  | None => false
  end.

End Js.

(** ** Data *)

(** A parsed [URL] object.  [retrieve] receives its URL as a string and
    parses it first; here callers hand over the parsed object.  Only
    [hostname] is rewritten by the client, and the rewritten name is taken
    to be one the [hostname] setter accepts. *)
Record URL := mkURL {
  protocol : string;
  hostname : string;
  pathname : string;
  searchParams : list (string * string)
}.

Definition setHostname (h : string) (u : URL) : URL :=
  mkURL (protocol u) h (pathname u) (searchParams u).

(** [url.searchParams.get(name)]. *)
Fixpoint searchParamsGet (name : string) (params : list (string * string)) : option string :=
  match params with
  | [] => None
  | (k, v) :: rest => if k =? name then Some v else searchParamsGet name rest
  end.

(** myq-types: the token endpoint's JSON. *)
Record myQToken := mkToken {
  access_token : string;
  expires_in : Z;
  refresh_token : string;
  scope : option string;
  token_type : string
}.

(** myq-types: one entry of a device list, with the fields the client reads. *)
Record myQDevice := mkDevice {
  account_id : string;
  device_family : string;
  name : string;
  parent_device_id : string;
  serial_number : string
}.

(** What a response body decodes to.  [HtmlPage v] is a page on which
    [input[name=__RequestVerificationToken]] has value [v]; the three JSON
    shapes are those of myq-types.  Payloads are taken at their declared
    types: [response.json()] read at a type the body does not have is a
    [json()] that throws. *)
Inductive Body :=
| HtmlPage (requestVerificationToken : option string)
| TokenJson (token : myQToken)
| AccountJson (accounts : option (list string))
| DeviceListJson (items : list myQDevice)
| OtherBody.

Record Response := mkResponse {
  status : Z;
  url : URL;
  setCookie : option (list string);
  location : option string;
  body : Body
}.

(** [response.ok]: a status in the 200-299 range. *)
Definition ok (r : Response) : bool :=
  ((200 <=? status r) && (status r <=? 299))%Z.

(** What [fetch] can throw. *)
Inductive Thrown :=
| FetchError (code message : string)
| OtherError (description : string).

Inductive FetchOutcome :=
| Resolved (response : Response)
| Rejected (error : Thrown).

(** What the network does with one request, and the time it takes (ms). *)
Record Reply := mkReply {
  outcome : FetchOutcome;
  elapsed : Z
}.

(** The n-th request issued by a client, going to a given URL, gets a reply. *)
Definition Network := nat -> URL -> Reply.

(** One request handed to [fetch]: the rewritten URL, the region index and
    the retry count at that moment, and what came back. *)
Record Attempt := mkAttempt {
  attemptUrl : URL;
  attemptRegion : nat;
  attemptRetry : nat;
  attemptOutcome : FetchOutcome
}.

(** The fields of [myQApi] that [retrieve] reads and writes, with the clock
    behind [Date.now()] and the log of requests issued. *)
Record Executor := mkExecutor {
  region : nat;
  apiReturnStatus : Z;
  clock : Z;
  wire : list Attempt
}.

(** ** Region selector and hostname rewrite *)

Definition myQRegions : list string := [ ""; "east"; "west" ].

(** [new RegExp("^.*-(" + myQRegions.join("|") + ")$").test(label)]: [.*]
    eats characters other than line terminators, and what is left has to be
    a dash followed by one of the region names. *)
Fixpoint regionRegex_test (label : string) : bool :=
  existsb (fun r => label =? "-" ++ r) myQRegions ||
  match label with
  | EmptyString => false
  | String c rest => negb (Js.isLineTerminator c) && regionRegex_test rest
  end.

(** [myQRegions[region]], which is [undefined] outside the array. *)
Definition regionName (region : nat) : string :=
  nth region myQRegions "undefined".

(** [this.region ? "-" + myQRegions[this.region] : ""] *)
Definition regionSuffix (region : nat) : string :=
  if (region =? 0)%nat then "" else "-" ++ regionName region.

(** [this.region = ++this.region % myQRegions.length] *)
Definition advance (region : nat) : nat :=
  (region + 1) mod (List.length myQRegions).

(** Is the first label of the URL's hostname already region-qualified? *)
Definition regionQualified (u : URL) : bool :=
  regionRegex_test (hd "" (Js.split "." (hostname u))).

(** The head of [retrieve]: split the hostname, and unless its first label
    already names a region, advance the region on a retry and append the
    active region's suffix; then store the joined hostname. *)
Definition regionalize (isRetry : nat) (region : nat) (u : URL) : nat * URL :=
  let labels := Js.split "." (hostname u) in
  if regionRegex_test (hd "" labels) then
    (region, setHostname (Js.join "." labels) u)
  else
    let region' := if (isRetry =? 0)%nat then region else advance region in
    (region', setHostname (Js.join "." ((hd "" labels ++ regionSuffix region') :: tl labels)) u).

(** The same rewrite seen as a function of the URL under a fixed active
    region, which is what a first attempt ([isRetry = 0]) performs. *)
Definition rewriteHostname (region : nat) (u : URL) : URL :=
  snd (regionalize 0 region u).

(** ** Request executor *)

Section RequestExecutor.

(** [isServerSideIssue]'s list: 429, 500, 502, 503, 504, and in the
    [refreshTimer] revision also 521 and 522. *)
Variable serverSideCodes : list Z.

Variable net : Network.

Definition isRedirect (code : Z) : bool :=
  existsb (Z.eqb code) [ 301; 302; 303; 307; 308 ]%Z.

Definition isCredentialsIssue (code : Z) : bool :=
  existsb (Z.eqb code) [ 400; 401 ]%Z.

Definition isServerSideIssue (code : Z) : bool :=
  existsb (Z.eqb code) serverSideCodes.

(** What one attempt decides, once [fetch] has settled. *)
Inductive Verdict :=
| Return (result : option Response)
| CallRetry.

(** The body of the [try] block after the status has been saved. *)
Definition classify (decodeResponse : bool) (response : Response) : Verdict :=
  if negb decodeResponse || ok response || isRedirect (status response) then
    Return (Some response)
  else if isCredentialsIssue (status response) then CallRetry
  else if (status response =? 403)%Z then Return None
  else if isServerSideIssue (status response) then CallRetry
  else Return None.

(** The [catch] block: every thrown error, whatever its code, goes to [retry]. *)
Definition catchError (error : Thrown) : Verdict :=
  match error with
  | FetchError code _ =>
      if (code =? "ECONNREFUSED") || (code =? "ERR_HTTP2_STREAM_CANCEL") then CallRetry
      else if code =? "ECONNRESET" then CallRetry
      else if code =? "ENOTFOUND" then CallRetry
      else if code =? "ETIMEDOUT" then CallRetry
      else if code =? "UNABLE_TO_VERIFY_LEAF_SIGNATURE" then CallRetry
      else CallRetry
  | OtherError _ => CallRetry
  end.

Definition verdictOf (decodeResponse : bool) (o : FetchOutcome) : Verdict :=
  match o with
  | Resolved response => classify decodeResponse response
  | Rejected error => catchError error
  end.

(** [this.myqRetrieve(retrieveUrl.toString(), options)]: the request goes on
    the wire, the clock moves on, and [fetch] resolves or rejects. *)
Definition myqRetrieve (retrieveUrl : URL) (isRetry : nat) (e : Executor)
  : FetchOutcome * Executor :=
  let reply := net (List.length (wire e)) retrieveUrl in
  (outcome reply,
   mkExecutor (region e) (apiReturnStatus e) (clock e + elapsed reply)%Z
     (wire e ++ [ mkAttempt retrieveUrl (region e) isRetry (outcome reply) ])%list).

Definition withRegion (r : nat) (e : Executor) : Executor :=
  mkExecutor r (apiReturnStatus e) (clock e) (wire e).

Definition withStatus (s : Z) (e : Executor) : Executor :=
  mkExecutor (region e) s (clock e) (wire e).

(** One pass through [retrieve] up to the point where it returns or calls
    [retry]: rewrite the hostname, reset [apiReturnStatus], issue the
    request, save the status of a response. *)
Definition attempt (u : URL) (decodeResponse : bool) (isRetry : nat) (e : Executor)
  : Verdict * Executor :=
  let '(region', retrieveUrl) := regionalize isRetry (region e) u in
  let e1 := withStatus 0%Z (withRegion region' e) in
  let '(settled, e2) := myqRetrieve retrieveUrl isRetry e1 in
  match settled with
  | Resolved response =>
      (classify decodeResponse response, withStatus (status response) e2)
  | Rejected error =>
      (catchError error, e2)
  end.

(** [retrieve(url, options, decodeResponse, isRetry)].  The [retry] closure
    re-enters [retrieve] with [++isRetry] while [isRetry < 3], and gives up
    with null otherwise. *)
Equations? retrieve (u : URL) (decodeResponse : bool) (isRetry : nat) (e : Executor)
  : option Response * Executor by wf (3 - isRetry) lt :=
  retrieve u decodeResponse isRetry e with attempt u decodeResponse isRetry e := {
    | (Return result, e') => (result, e');
    | (CallRetry, e') with lt_dec isRetry 3 := {
        | left _ => retrieve u decodeResponse (S isRetry) e';
        | right _ => (None, e') } }.
Proof. do 3 (destruct isRetry as [|isRetry]; try lia). Defined.

End RequestExecutor.


(** ** Methods as state transformers *)

(** What an [async] method settles to: a value, or a rejection. *)
Inductive Result (A : Type) : Type :=
| Done (value : A)
| Throw.

Arguments Done {A} value.
Arguments Throw {A}.

Definition M (S A : Type) : Type := S -> Result A * S.

Definition ret {S A : Type} (a : A) : M S A :=
  fun s => (Done a, s).

Definition bind {S A B : Type} (m : M S A) (k : A -> M S B) : M S B :=
  fun s =>
    match m s with
    | (Done a, s') => k a s'
    | (Throw, s') => (Throw, s')
    end.

Definition throw {S A : Type} : M S A :=
  fun s => (Throw, s).

Definition get {S : Type} : M S S :=
  fun s => (Done s, s).

Definition modify {S : Type} (f : S -> S) : M S unit :=
  fun s => (Done tt, f s).

Declare Scope method_scope.
Delimit Scope method_scope with method.

Notation "x <- m ;; k" := (bind m (fun x => k))
  (at level 61, m at next level, right associativity) : method_scope.
Notation "m ;; k" := (bind m (fun _ => k))
  (at level 61, right associativity) : method_scope.

(** What the platform supplies besides the clock: the network, the URL
    constructor (which throws on input it cannot parse, here [None]) and the
    PKCE generator. *)
Record Platform := mkPlatform {
  network : Network;
  (** [new URL(s)] *)
  parseURL : string -> option URL;
  (** [new URL(s, base)], with [s] possibly null *)
  resolveURL : option string -> URL -> option URL;
  (** [pkceChallenge().code_challenge], drawn when n requests have gone out *)
  pkceChallenge : nat -> string
}.

(** [!headers.raw()["set-cookie"] || headers.raw()["set-cookie"].length < n] *)
Definition cookiesFewerThan (n : nat) (cookies : option (list string)) : bool :=
  match cookies with
  | None => true
  | Some l => (List.length l <? n)%nat
  end.

(** [parse(await page.text()).querySelector("input[name=__RequestVerificationToken]")?.getAttribute("value")] *)
Definition requestVerificationTokenOf (page : Response) : option string :=
  match body page with
  | HtmlPage v => v
  | _ => None
  end.

(** [this.devices.find(x => x.serial_number?.toUpperCase() === serial) ?? null] *)
Definition findDevice (serial : string) (l : list myQDevice) : option myQDevice :=
  find (fun x => Js.toUpperCase (serial_number x) =? serial) l.

Definition accountsEndpoint : URL :=
  mkURL "https:" "accounts.myq-cloud.com" "/api/v6.0/accounts" [].

Definition tokenEndpoint : URL :=
  mkURL "https:" "partner-identity.myq-cloud.com" "/connect/token" [].

Definition devicesEndpoint (accountId : string) : URL :=
  mkURL "https:" "devices.myq-cloud.com" ("/api/v5.2/Accounts/" ++ accountId ++ "/Devices") [].

(** ** The revision with [refreshTimer] *)

Module TimerRev.

Local Open Scope method_scope.

(** [isServerSideIssue] of this revision. *)
Definition serverSideCodes : list Z := [ 429; 500; 502; 503; 504; 521; 522 ]%Z.

(** settings.ts *)
Definition MYQ_API_CLIENT_ID : string := "ANDROID_CGI_MYQ".
Definition MYQ_API_REDIRECT_URI : string := "com.myqops://android".
Definition MYQ_API_SCOPE : string := "MyQ_Residential offline_access".

(** The fields of [myQApi].  [refreshTimer] holds the delay, in
    milliseconds, of the pending [setTimeout], whose callback calls
    [refreshAccessToken]. *)
Record Client := mkClient {
  devices : option (list myQDevice);
  accessToken : option string;
  refreshTimer : option Z;
  refreshToken : string;
  tokenScope : string;
  email : option string;
  password : option string;
  accounts : list string;
  exec : Executor
}.

(** State after the constructor, at a given time. *)
Definition new (now : Z) : Client :=
  mkClient None None None "" "" None None [] (mkExecutor 0 0%Z now []).

Definition withDevices (v : option (list myQDevice)) (c : Client) : Client :=
  mkClient v (accessToken c) (refreshTimer c) (refreshToken c) (tokenScope c)
    (email c) (password c) (accounts c) (exec c).

Definition withAccessToken (v : option string) (c : Client) : Client :=
  mkClient (devices c) v (refreshTimer c) (refreshToken c) (tokenScope c)
    (email c) (password c) (accounts c) (exec c).

Definition withRefreshTimer (v : option Z) (c : Client) : Client :=
  mkClient (devices c) (accessToken c) v (refreshToken c) (tokenScope c)
    (email c) (password c) (accounts c) (exec c).

Definition withRefreshToken (v : string) (c : Client) : Client :=
  mkClient (devices c) (accessToken c) (refreshTimer c) v (tokenScope c)
    (email c) (password c) (accounts c) (exec c).

Definition withTokenScope (v : string) (c : Client) : Client :=
  mkClient (devices c) (accessToken c) (refreshTimer c) (refreshToken c) v
    (email c) (password c) (accounts c) (exec c).

Definition withCredentials (e p : option string) (c : Client) : Client :=
  mkClient (devices c) (accessToken c) (refreshTimer c) (refreshToken c) (tokenScope c)
    e p (accounts c) (exec c).

Definition withAccounts (v : list string) (c : Client) : Client :=
  mkClient (devices c) (accessToken c) (refreshTimer c) (refreshToken c) (tokenScope c)
    (email c) (password c) v (exec c).

Definition withExec (v : Executor) (c : Client) : Client :=
  mkClient (devices c) (accessToken c) (refreshTimer c) (refreshToken c) (tokenScope c)
    (email c) (password c) (accounts c) v.

(** [this.accessToken = null; this.accounts = [];] *)
Definition invalidate (c : Client) : Client :=
  withAccounts [] (withAccessToken None c).

(** The requests this client has issued. *)
Definition log (c : Client) : list Attempt := wire (exec c).

Section Methods.

Variable pf : Platform.

(** [this.retrieve(url, options)]: every caller leaves [decodeResponse] and
    [isRetry] at their defaults. *)
Definition this_retrieve (u : URL) : M Client (option Response) :=
  fun c =>
    let '(response, e') := retrieve serverSideCodes (network pf) u true 0 (exec c) in
    (Done response, withExec e' c).

Definition authEndpoint (codeChallenge : string) : URL :=
  mkURL "https:" "partner-identity.myq-cloud.com" "/connect/authorize"
    [ ("acr_values", "unified_flow%3Av1%20%20brand%3Amyq");
      ("client_id", MYQ_API_CLIENT_ID);
      ("code_challenge", codeChallenge);
      ("code_challenge_method", "S256");
      ("prompt", "login");
      ("ui_locales", "en-US");
      ("redirect_uri", MYQ_API_REDIRECT_URI);
      ("response_type", "code");
      ("scope", MYQ_API_SCOPE) ].

Definition oauthGetAuthPage (codeChallenge : string) : M Client (option Response) :=
  response <- this_retrieve (authEndpoint codeChallenge) ;;
  match response with
  | None => ret None
  | Some response =>
      if cookiesFewerThan 3 (setCookie response) then ret None
      else
        match resolveURL pf (location response) (url response) with
        | None => throw
        | Some redirectUrl => this_retrieve redirectUrl
        end
  end.

Definition oauthLogin (authPage : Response) : M Client (option Response) :=
  c <- get ;;
  if negb (Js.truthy (email c)) || negb (Js.truthy (password c)) then ret None
  else if negb (Js.truthy (requestVerificationTokenOf authPage)) then ret None
  else
    response <- this_retrieve (url authPage) ;;
    match response with
    | None => ret None
    | Some response =>
        if cookiesFewerThan 2 (setCookie response) then ret None
        else ret (Some response)
    end.

Definition oauthRedirect (loginResponse : Response) : M Client (option Response) :=
  match resolveURL pf (location loginResponse) (url loginResponse) with
  | None => throw
  | Some redirectUrl =>
      response <- this_retrieve redirectUrl ;;
      match response with
      | None => ret None
      | Some response => ret (Some response)
      end
  end.

(** The delay handed to [setTimeout]: [(amount - (3 * 60)) * 1000]. *)
Definition refreshDelay (amount : Z) : Z :=
  ((amount - 3 * 60) * 1000)%Z.

(** [if(this.refreshTimer) { clearTimeout(this.refreshTimer); this.refreshTimer = null; }] *)
Definition clearRefreshTimer (c : Client) : Client :=
  match refreshTimer c with
  | Some _ => withRefreshTimer None c
  | None => c
  end.

Definition setTokenRefreshTimer (amount : Z) : M Client unit :=
  modify clearRefreshTimer ;;
  modify (withRefreshTimer (Some (refreshDelay amount))).

Definition getOAuthToken : M Client (option string) :=
  modify clearRefreshTimer ;;
  c <- get ;;
  response <- oauthGetAuthPage (pkceChallenge pf (List.length (wire (exec c)))) ;;
  match response with
  | None => ret None
  | Some response =>
  response <- oauthLogin response ;;
  match response with
  | None => ret None
  | Some response =>
  response <- oauthRedirect response ;;
  match response with
  | None => ret None
  | Some response =>
  match parseURL pf (match location response with Some l => l | None => "" end) with
  | None => throw
  | Some redirectUrl =>
  response <- this_retrieve tokenEndpoint ;;
  match response with
  | None => ret None
  | Some response =>
  match body response with
  | TokenJson token =>
      modify (withRefreshToken (refresh_token token)) ;;
      modify (withTokenScope
                (match searchParamsGet "scope" (searchParams redirectUrl) with
                 | Some s => s
                 | None => ""
                 end)) ;;
      setTokenRefreshTimer (expires_in token) ;;
      ret (Some (token_type token ++ " " ++ access_token token)%string)
  | _ => throw
  end end end end end end.

Definition refreshOAuthToken : M Client bool :=
  response <- this_retrieve tokenEndpoint ;;
  match response with
  | None => ret false
  | Some response =>
      match body response with
      | TokenJson token =>
          modify (withAccessToken (Some (token_type token ++ " " ++ access_token token)%string)) ;;
          modify (withRefreshToken (refresh_token token)) ;;
          modify (fun c => withTokenScope
                             (match scope token with Some s => s | None => tokenScope c end) c) ;;
          setTokenRefreshTimer (expires_in token) ;;
          ret true
      | _ => throw
      end
  end.

Definition getAccounts : M Client bool :=
  response <- this_retrieve accountsEndpoint ;;
  match response with
  | None => ret false
  | Some response =>
      match body response with
      | AccountJson None => ret false
      | AccountJson (Some ids) => modify (withAccounts ids) ;; ret true
      | _ => throw
      end
  end.

Definition acquireAccessToken : M Client bool :=
  modify (fun c => if Js.truthy (accessToken c) then invalidate c else c) ;;
  token <- getOAuthToken ;;
  if negb (Js.truthy token) then ret false
  else
    modify (withAccessToken token) ;;
    found <- getAccounts ;;
    if negb found then modify invalidate ;; ret false
    else ret true.

Definition refreshAccessToken : M Client bool :=
  c <- get ;;
  if (List.length (accounts c) =? 0)%nat || negb (Js.truthy (accessToken c)) then
    acquireAccessToken
  else
    refreshed <- refreshOAuthToken ;;
    if refreshed then ret true
    else
      acquired <- acquireAccessToken ;;
      if negb acquired then ret false else ret true.

(** The [for(const accountId of this.accounts)] loop of [refreshDevices];
    [None] stands for its [return false]. *)
Fixpoint collectDevices (ids : list string) (newDeviceList : list myQDevice)
  : M Client (option (list myQDevice)) :=
  match ids with
  | [] => ret (Some newDeviceList)
  | accountId :: rest =>
      response <- this_retrieve (devicesEndpoint accountId) ;;
      match response with
      | None => modify invalidate ;; ret None
      | Some response =>
          match body response with
          | DeviceListJson items => collectDevices rest (newDeviceList ++ items)%list
          | _ => throw
          end
      end
  end.

(** [!this.login || !this.password]: [this.login] is the method, always truthy. *)
Definition notLoggedIn (c : Client) : bool :=
  negb true || negb (Js.truthy (password c)).

Definition refreshDevices : M Client bool :=
  c <- get ;;
  if notLoggedIn c then ret false
  else
    valid <- refreshAccessToken ;;
    if negb valid then ret false
    else
      found <- getAccounts ;;
      if negb found then modify invalidate ;; ret false
      else
        c <- get ;;
        collected <- collectDevices (accounts c) [] ;;
        match collected with
        | None => ret false
        | Some newDeviceList => modify (withDevices (Some newDeviceList)) ;; ret true
        end.

Definition login (email' password' : string) : M Client bool :=
  modify (fun c => withAccessToken None (withCredentials (Some email') (Some password') c)) ;;
  refreshDevices.

(** [deviceMap[family]], a lookup in an object literal: besides its own three
    keys it finds the properties every object inherits, whose [host] and
    [path] are undefined. *)
Definition objectPrototypeKeys : list string :=
  [ "constructor"; "hasOwnProperty"; "isPrototypeOf"; "propertyIsEnumerable";
    "toLocaleString"; "toString"; "valueOf"; "__proto__";
    "__defineGetter__"; "__defineSetter__"; "__lookupGetter__"; "__lookupSetter__" ].

Definition deviceMap (family : string) : string * string :=
  if family =? "default" then ("gdo", "door_openers")
  else if family =? "garagedoor" then ("gdo", "door_openers")
  else if family =? "lamp" then ("lamp", "lamps")
  else if existsb (String.eqb family) objectPrototypeKeys then ("undefined", "undefined")
  else ("gdo", "door_openers").

Definition commandEndpoint (device : myQDevice) (command : string) : URL :=
  let '(deviceHost, devicePath) := deviceMap (device_family device) in
  mkURL "https:" ("account-devices-" ++ deviceHost ++ ".myq-cloud.com")
    ("/api/v5.2/Accounts/" ++ account_id device ++ "/" ++ devicePath ++ "/" ++
     serial_number device ++ "/" ++ command) [].

Definition execute (device : myQDevice) (command : string) : M Client bool :=
  c <- get ;;
  if notLoggedIn c then ret false
  else
    valid <- refreshAccessToken ;;
    if negb valid then ret false
    else
      response <- this_retrieve (commandEndpoint device command) ;;
      match response with
      | None =>
          c <- get ;;
          if (apiReturnStatus (exec c) =? 403)%Z then ret false
          else modify invalidate ;; ret false
      | Some _ => ret true
      end.

Definition getDevice (serial : string) (c : Client) : option myQDevice :=
  if notLoggedIn c then None
  else
    match devices c with
    | None => None
    | Some l =>
        if (String.length serial <=? 0)%nat then None
        else findDevice (Js.toUpperCase serial) l
    end.

End Methods.

End TimerRev.

(** ** The revision with [refreshInterval] and the call throttles *)

Module ThrottleRev.

Local Open Scope method_scope.

(** [isServerSideIssue] of this revision. *)
Definition serverSideCodes : list Z := [ 429; 500; 502; 503; 504 ]%Z.

(** The fields of [myQApi].  [accessTokenTimestamp], [lastAuthenticateCall]
    and [lastRefreshDevicesCall] are declared without an initial value:
    [None] is [undefined]. *)
Record Client := mkClient {
  devices : option (list myQDevice);
  accessToken : option string;
  refreshInterval : Z;
  refreshToken : string;
  tokenScope : string;
  accessTokenTimestamp : option Z;
  email : option string;
  password : option string;
  accounts : list string;
  lastAuthenticateCall : option Z;
  lastRefreshDevicesCall : option Z;
  exec : Executor
}.

(** State after the constructor, at a given time. *)
Definition new (now : Z) : Client :=
  mkClient None None 0%Z "" "" None None None [] None None (mkExecutor 0 0%Z now []).

Definition withDevices (v : option (list myQDevice)) (c : Client) : Client :=
  mkClient v (accessToken c) (refreshInterval c) (refreshToken c) (tokenScope c)
    (accessTokenTimestamp c) (email c) (password c) (accounts c)
    (lastAuthenticateCall c) (lastRefreshDevicesCall c) (exec c).

Definition withAccessToken (v : option string) (c : Client) : Client :=
  mkClient (devices c) v (refreshInterval c) (refreshToken c) (tokenScope c)
    (accessTokenTimestamp c) (email c) (password c) (accounts c)
    (lastAuthenticateCall c) (lastRefreshDevicesCall c) (exec c).

Definition withRefreshInterval (v : Z) (c : Client) : Client :=
  mkClient (devices c) (accessToken c) v (refreshToken c) (tokenScope c)
    (accessTokenTimestamp c) (email c) (password c) (accounts c)
    (lastAuthenticateCall c) (lastRefreshDevicesCall c) (exec c).

Definition withRefreshToken (v : string) (c : Client) : Client :=
  mkClient (devices c) (accessToken c) (refreshInterval c) v (tokenScope c)
    (accessTokenTimestamp c) (email c) (password c) (accounts c)
    (lastAuthenticateCall c) (lastRefreshDevicesCall c) (exec c).

Definition withTokenScope (v : string) (c : Client) : Client :=
  mkClient (devices c) (accessToken c) (refreshInterval c) (refreshToken c) v
    (accessTokenTimestamp c) (email c) (password c) (accounts c)
    (lastAuthenticateCall c) (lastRefreshDevicesCall c) (exec c).

Definition withAccessTokenTimestamp (v : option Z) (c : Client) : Client :=
  mkClient (devices c) (accessToken c) (refreshInterval c) (refreshToken c) (tokenScope c)
    v (email c) (password c) (accounts c)
    (lastAuthenticateCall c) (lastRefreshDevicesCall c) (exec c).

Definition withCredentials (e p : option string) (c : Client) : Client :=
  mkClient (devices c) (accessToken c) (refreshInterval c) (refreshToken c) (tokenScope c)
    (accessTokenTimestamp c) e p (accounts c)
    (lastAuthenticateCall c) (lastRefreshDevicesCall c) (exec c).

Definition withAccounts (v : list string) (c : Client) : Client :=
  mkClient (devices c) (accessToken c) (refreshInterval c) (refreshToken c) (tokenScope c)
    (accessTokenTimestamp c) (email c) (password c) v
    (lastAuthenticateCall c) (lastRefreshDevicesCall c) (exec c).

Definition withLastAuthenticateCall (v : option Z) (c : Client) : Client :=
  mkClient (devices c) (accessToken c) (refreshInterval c) (refreshToken c) (tokenScope c)
    (accessTokenTimestamp c) (email c) (password c) (accounts c)
    v (lastRefreshDevicesCall c) (exec c).

Definition withLastRefreshDevicesCall (v : option Z) (c : Client) : Client :=
  mkClient (devices c) (accessToken c) (refreshInterval c) (refreshToken c) (tokenScope c)
    (accessTokenTimestamp c) (email c) (password c) (accounts c)
    (lastAuthenticateCall c) v (exec c).

Definition withExec (v : Executor) (c : Client) : Client :=
  mkClient (devices c) (accessToken c) (refreshInterval c) (refreshToken c) (tokenScope c)
    (accessTokenTimestamp c) (email c) (password c) (accounts c)
    (lastAuthenticateCall c) (lastRefreshDevicesCall c) v.

(** [this.accessToken = null; this.accounts = [];] *)
Definition invalidate (c : Client) : Client :=
  withAccounts [] (withAccessToken None c).

(** The requests this client has issued. *)
Definition log (c : Client) : list Attempt := wire (exec c).

(** [Date.now()] *)
Definition now (c : Client) : Z := clock (exec c).

(** [(now - since) < bound], false when [since] is undefined (the
    difference is NaN). *)
Definition elapsedUnder (bound : Z) (t : Z) (since : option Z) : bool :=
  match since with
  | Some s => (t - s <? bound)%Z
  | None => false
  end.

(** [(now - since) > bound], false when [since] is undefined. *)
Definition elapsedOver (bound : Z) (t : Z) (since : option Z) : bool :=
  match since with
  | Some s => (t - s >? bound)%Z
  | None => false
  end.

Section Methods.

Variable pf : Platform.

(** [this.retrieve(url, options, overrideHeaders)]: every caller leaves
    [decodeResponse] and [isRetry] at their defaults. *)
Definition this_retrieve (u : URL) : M Client (option Response) :=
  fun c =>
    let '(response, e') := retrieve serverSideCodes (network pf) u true 0 (exec c) in
    (Done response, withExec e' c).

Definition authEndpoint (codeChallenge : string) : URL :=
  mkURL "https:" "partner-identity.myq-cloud.com" "/connect/authorize"
    [ ("client_id", "IOS_CGI_MYQ");
      ("code_challenge", codeChallenge);
      ("code_challenge_method", "S256");
      ("redirect_uri", "com.myqops://ios");
      ("response_type", "code");
      ("scope", "MyQ_Residential offline_access") ].

(** [trimSetCookie(headers.raw()["set-cookie"])]: with the header missing,
    [undefined.split] throws. *)
Definition trimSetCookie (cookies : option (list string)) : M Client string :=
  match cookies with
  | None => throw
  | Some l => ret (Js.join "; " (map (fun x => hd "" (Js.split ";" x)) l))
  end.

Definition oauthGetAuthPage (codeChallenge : string) : M Client (option Response) :=
  response <- this_retrieve (authEndpoint codeChallenge) ;;
  match response with
  | None => ret None
  | Some response => ret (Some response)
  end.

Definition oauthLogin (authPage : Response) : M Client (option Response) :=
  c <- get ;;
  if negb (Js.truthy (email c)) || negb (Js.truthy (password c)) then ret None
  else
    cookie <- trimSetCookie (setCookie authPage) ;;
    if negb (Js.truthy (requestVerificationTokenOf authPage)) then ret None
    else
      response <- this_retrieve (url authPage) ;;
      match response with
      | None => ret None
      | Some response =>
          if cookiesFewerThan 2 (setCookie response) then ret None
          else ret (Some response)
      end.

Definition oauthRedirect (loginResponse : Response) : M Client (option Response) :=
  match resolveURL pf (location loginResponse) (url loginResponse) with
  | None => throw
  | Some redirectUrl =>
      cookie <- trimSetCookie (setCookie loginResponse) ;;
      response <- this_retrieve redirectUrl ;;
      match response with
      | None => ret None
      | Some response => ret (Some response)
      end
  end.

Definition getOAuthToken : M Client (option string) :=
  c <- get ;;
  response <- oauthGetAuthPage (pkceChallenge pf (List.length (wire (exec c)))) ;;
  match response with
  | None => ret None
  | Some response =>
  response <- oauthLogin response ;;
  match response with
  | None => ret None
  | Some response =>
  response <- oauthRedirect response ;;
  match response with
  | None => ret None
  | Some response =>
  match parseURL pf (match location response with Some l => l | None => "" end) with
  | None => throw
  | Some redirectUrl =>
  response <- this_retrieve tokenEndpoint ;;
  match response with
  | None => ret None
  | Some response =>
  match body response with
  | TokenJson token =>
      modify (withRefreshInterval (expires_in token)) ;;
      modify (withRefreshToken (refresh_token token)) ;;
      modify (withTokenScope
                (match searchParamsGet "scope" (searchParams redirectUrl) with
                 | Some s => s
                 | None => ""
                 end)) ;;
      modify (fun c => withRefreshInterval (refreshInterval c - 420)%Z c) ;;
      modify (fun c => if (refreshInterval c <? 300)%Z then withRefreshInterval 300%Z c else c) ;;
      ret (Some (token_type token ++ " " ++ access_token token)%string)
  | _ => throw
  end end end end end end.

Definition refreshOAuthToken : M Client bool :=
  response <- this_retrieve tokenEndpoint ;;
  match response with
  | None => ret false
  | Some response =>
      match body response with
      | TokenJson token =>
          modify (withAccessToken (Some (token_type token ++ " " ++ access_token token)%string)) ;;
          modify (fun c => withAccessTokenTimestamp (Some (now c)) c) ;;
          modify (withRefreshInterval (expires_in token)) ;;
          modify (withRefreshToken (refresh_token token)) ;;
          modify (fun c => withTokenScope
                             (match scope token with Some s => s | None => tokenScope c end) c) ;;
          modify (fun c => withRefreshInterval (refreshInterval c - 420)%Z c) ;;
          modify (fun c => if (refreshInterval c <? 300)%Z then withRefreshInterval 300%Z c else c) ;;
          ret true
      | _ => throw
      end
  end.

Definition getAccounts : M Client bool :=
  response <- this_retrieve accountsEndpoint ;;
  match response with
  | None => ret false
  | Some response =>
      match body response with
      | AccountJson None => ret false
      | AccountJson (Some ids) => modify (withAccounts ids) ;; ret true
      | _ => throw
      end
  end.

Definition acquireAccessToken : M Client bool :=
  c <- get ;;
  let now := now c in
  modify (withLastAuthenticateCall (Some now)) ;;
  modify (fun c => if Js.truthy (accessToken c) then invalidate c else c) ;;
  token <- getOAuthToken ;;
  if negb (Js.truthy token) then ret false
  else
    modify (withAccessToken token) ;;
    modify (withAccessTokenTimestamp (Some now)) ;;
    found <- getAccounts ;;
    if negb found then modify invalidate ;; ret false
    else ret true.

(** [(this.accounts.length && this.accessToken) ? true : false] *)
Definition sessionUsable (c : Client) : bool :=
  negb (List.length (accounts c) =? 0)%nat && Js.truthy (accessToken c).

Definition refreshAccessToken : M Client bool :=
  c <- get ;;
  let now := now c in
  if elapsedUnder (2 * 60 * 1000) now (lastAuthenticateCall c) then ret (sessionUsable c)
  else if (List.length (accounts c) =? 0)%nat || negb (Js.truthy (accessToken c)) then
    acquireAccessToken
  else if
    match accessTokenTimestamp c with
    | Some t => (now - t <? refreshInterval c * 1000)%Z
    | None => false
    end
  then ret true
  else
    refreshed <- refreshOAuthToken ;;
    if refreshed then ret true
    else
      acquired <- acquireAccessToken ;;
      if negb acquired then ret false else ret true.

(** The [for(const accountId of this.accounts)] loop of [refreshDevices];
    [None] stands for its [return false]. *)
Fixpoint collectDevices (ids : list string) (newDeviceList : list myQDevice)
  : M Client (option (list myQDevice)) :=
  match ids with
  | [] => ret (Some newDeviceList)
  | accountId :: rest =>
      response <- this_retrieve (devicesEndpoint accountId) ;;
      match response with
      | None => modify invalidate ;; ret None
      | Some response =>
          match body response with
          | DeviceListJson items => collectDevices rest (newDeviceList ++ items)%list
          | _ => throw
          end
      end
  end.

(** [!this.login || !this.password]: [this.login] is the method, always truthy. *)
Definition notLoggedIn (c : Client) : bool :=
  negb true || negb (Js.truthy (password c)).

(** [this.lastRefreshDevicesCall && ((now - this.lastRefreshDevicesCall) < (2 * 1000))] *)
Definition refreshThrottled (c : Client) : bool :=
  Js.truthyNum (lastRefreshDevicesCall c) &&
  elapsedUnder (2 * 1000) (now c) (lastRefreshDevicesCall c).

(** [this.devices ? true : false] *)
Definition hasDevices (c : Client) : bool :=
  match devices c with
  | Some _ => true
  | None => false
  end.

Definition refreshDevices : M Client bool :=
  c <- get ;;
  if notLoggedIn c then ret false
  else
    let now := now c in
    if refreshThrottled c then ret (hasDevices c)
    else
      modify (withLastRefreshDevicesCall (Some now)) ;;
      valid <- refreshAccessToken ;;
      if negb valid then ret false
      else
        found <- getAccounts ;;
        if negb found then modify invalidate ;; ret false
        else
          c <- get ;;
          collected <- collectDevices (accounts c) [] ;;
          match collected with
          | None => ret false
          | Some newDeviceList => modify (withDevices (Some newDeviceList)) ;; ret true
          end.

Definition login (email' password' : string) : M Client bool :=
  modify (fun c =>
            withLastAuthenticateCall (Some 0%Z)
              (withLastRefreshDevicesCall (Some 0%Z)
                 (withAccessToken None (withCredentials (Some email') (Some password') c)))) ;;
  refreshDevices.

Definition commandEndpoint (device : myQDevice) (command : string) : URL :=
  if device_family device =? "lamp" then
    mkURL "https:" "account-devices-lamp.myq-cloud.com"
      ("/api/v5.2/Accounts/" ++ account_id device ++ "/lamps/" ++
       serial_number device ++ "/" ++ command) []
  else
    mkURL "https:" "account-devices-gdo.myq-cloud.com"
      ("/api/v5.2/Accounts/" ++ account_id device ++ "/door_openers/" ++
       serial_number device ++ "/" ++ command) [].

Definition execute (device : myQDevice) (command : string) : M Client bool :=
  c <- get ;;
  if notLoggedIn c then ret false
  else
    valid <- refreshAccessToken ;;
    if negb valid then ret false
    else
      response <- this_retrieve (commandEndpoint device command) ;;
      match response with
      | None =>
          c <- get ;;
          if (apiReturnStatus (exec c) =? 403)%Z then ret false
          else modify invalidate ;; ret false
      | Some _ => ret true
      end.

(** [!this.devices || !this.lastRefreshDevicesCall ||
     ((Date.now() - this.lastRefreshDevicesCall) > (60 * 1000))] *)
Definition snapshotStale (c : Client) : bool :=
  negb (hasDevices c)
  || negb (Js.truthyNum (lastRefreshDevicesCall c))
  || elapsedOver (60 * 1000) (now c) (lastRefreshDevicesCall c).

Definition getDevice (serial : string) (c : Client) : option myQDevice :=
  if notLoggedIn c then None
  else if snapshotStale c then None
  else if (String.length serial <=? 0)%nat then None
  else
    match devices c with
    | Some l => findDevice (Js.toUpperCase serial) l
    | None => None
    end.

End Methods.

End ThrottleRev.

(** ** Vocabulary of the statements *)

(** The requests a call has put on the wire: what [wire] gained between the
    state before and the state after. *)
Definition issued (before after : Executor) : list Attempt :=
  skipn (List.length (wire before)) (wire after).

(** The status [retrieve] leaves in [apiReturnStatus] after an attempt: the
    response's, or the 0 it was reset to when [fetch] threw. *)
Definition statusOf (o : FetchOutcome) : Z :=
  match o with
  | Resolved response => status response
  | Rejected _ => 0%Z
  end.

(** Attempt [a] is what the [isRetry]-th pass of [retrieve] on [u] sends
    when it finds the region index at [r]. *)
Definition Sent (u : URL) (isRetry r : nat) (a : Attempt) : Prop :=
  attemptRetry a = isRetry /\ (attemptRegion a, attemptUrl a) = regionalize isRetry r u.

(** The shape of one [retrieve] call tree: the attempts in order, each but
    the last a retry candidate met with budget left, the last one either
    returning or exhausting the budget; with the result, and the region and
    status left behind. *)
Inductive Run (codes : list Z) (u : URL) (decodeResponse : bool)
  : nat -> nat -> list Attempt -> option Response -> nat -> Z -> Prop :=
| RunReturn isRetry r a result :
    Sent u isRetry r a ->
    verdictOf codes decodeResponse (attemptOutcome a) = Return result ->
    Run codes u decodeResponse isRetry r [a] result
      (attemptRegion a) (statusOf (attemptOutcome a))
| RunGiveUp isRetry r a :
    Sent u isRetry r a ->
    verdictOf codes decodeResponse (attemptOutcome a) = CallRetry ->
    3 <= isRetry ->
    Run codes u decodeResponse isRetry r [a] None
      (attemptRegion a) (statusOf (attemptOutcome a))
| RunRetry isRetry r a rest result r' s' :
    Sent u isRetry r a ->
    verdictOf codes decodeResponse (attemptOutcome a) = CallRetry ->
    isRetry < 3 ->
    Run codes u decodeResponse (S isRetry) (attemptRegion a) rest result r' s' ->
    Run codes u decodeResponse isRetry r (a :: rest) result r' s'.

(** An outcome the claims call a candidate for retry: a thrown transport
    error, a 400 or 401, or one of the revision's server-side codes. *)
Definition retryCandidate (codes : list Z) (o : FetchOutcome) : Prop :=
  match o with
  | Rejected _ => True
  | Resolved response => In (status response) ([ 400; 401 ]%Z ++ codes)%list
  end.

(** The regions a rotation starting at [first] goes through in [n] steps. *)
Fixpoint rotation (first n : nat) : list nat :=
  match n with
  | 0 => []
  | S n' => first :: rotation (advance first) n'
  end.

(** The token carried by the reply to the last request on the wire, if
    that reply is a token. *)
Definition tokenReceived (e : Executor) : option myQToken :=
  match rev (wire e) with
  | a :: _ =>
      match attemptOutcome a with
      | Resolved response =>
          match body response with
          | TokenJson token => Some token
          | _ => None
          end
      | Rejected _ => None
      end
  | [] => None
  end.

(** A method leaves an observation of the state as it found it, whatever
    it settles to. *)
Definition keeps {S A X : Type} (f : S -> X) (m : M S A) : Prop :=
  forall s, f (snd (m s)) = f s.

(** A method only adds to the log [w] of requests; a method adds at least
    one request to it. *)
Definition extends {S A : Type} (w : S -> list Attempt) (m : M S A) : Prop :=
  forall s, exists more, w (snd (m s)) = (w s ++ more)%list.

Definition sends {S A : Type} (w : S -> list Attempt) (m : M S A) : Prop :=
  forall s, exists a more, w (snd (m s)) = (w s ++ a :: more)%list.

(** No line terminator in a string: true of every hostname a [URL] object
    can hold. *)
Fixpoint noLineTerminator (s : string) : bool :=
  match s with
  | EmptyString => true
  | String c rest => negb (Js.isLineTerminator c) && noLineTerminator rest
  end.

(** A string free of the separator. *)
Fixpoint lacks (sep : ascii) (s : string) : bool :=
  match s with
  | EmptyString => true
  | String c rest => negb (Ascii.eqb c sep) && lacks sep rest
  end.

(** ** Scenarios the statements are exercised on *)

Module Scenario.

(** A network that answers the n-th request with the n-th entry of a
    script, each after 10 ms, and refuses connections once the script is
    over. *)
Definition scripted (script : list FetchOutcome) : Network :=
  fun n _ => mkReply (nth n script (Rejected (FetchError "ECONNREFUSED" ""))) 10%Z.

Definition reply (code : Z) (b : Body) : FetchOutcome :=
  Resolved (mkResponse code (mkURL "https:" "myq-cloud.com" "/" []) None None b).

(** Four failures of four kinds. *)
Definition unreachable : Network :=
  scripted [ Rejected (FetchError "ECONNRESET" "");
             reply 401 OtherBody;
             reply 503 OtherBody;
             Rejected (FetchError "ETIMEDOUT" "") ].

Definition idle : Executor := mkExecutor 0 0%Z 1700000000000%Z [].

(** A 503, then a 403 from the next region. *)
Definition offlineDevice : Network :=
  scripted [ reply 503 OtherBody; reply 403 OtherBody ].

Definition doorCommand : URL :=
  mkURL "https:" "account-devices-gdo.myq-cloud.com"
    "/api/v5.2/Accounts/a1/door_openers/CG08/open" [].

Definition identity : URL :=
  mkURL "https:" "partner-identity.myq-cloud.com" "/Account/LoginWithEmail" [].

Definition door : myQDevice := mkDevice "a1" "garagedoor" "Garage" "GW0100000001" "CG0800000001".
Definition lamp : myQDevice := mkDevice "a2" "lamp" "Porch" "GW0100000001" "LP0100000002".

Definition cookies (n : nat) : option (list string) :=
  Some (map (fun k => "c=" ++ String (ascii_of_nat (48 + k)) "; path=/; secure") (seq 0 n)).

Definition granted (expiresIn : Z) : FetchOutcome :=
  reply 200 (TokenJson (mkToken "AT" expiresIn "RT" (Some "MyQ_Residential offline_access") "Bearer")).

(** The answers to a full login followed by a device refresh over two
    accounts, for the revision with [refreshTimer] ... *)
Definition timerLoginScript : list FetchOutcome :=
  [ Resolved (mkResponse 302 identity (cookies 3) (Some "/Account/LoginWithEmail") OtherBody);
    Resolved (mkResponse 200 identity (cookies 3) None (HtmlPage (Some "CfDJ8")));
    Resolved (mkResponse 302 identity (cookies 2) (Some "/connect/authorize/callback") OtherBody);
    Resolved (mkResponse 302 identity None (Some "com.myqops://android?code=c0de") OtherBody);
    granted 3600;
    reply 200 (AccountJson (Some [ "a1"; "a2" ]));
    reply 200 (AccountJson (Some [ "a1"; "a2" ]));
    reply 200 (DeviceListJson [ door ]);
    reply 200 (DeviceListJson [ lamp ]) ].

(** ... and for the revision with the throttles. *)
Definition throttleLoginScript : list FetchOutcome :=
  [ Resolved (mkResponse 200 identity (cookies 3) None (HtmlPage (Some "CfDJ8")));
    Resolved (mkResponse 302 identity (cookies 2) (Some "/connect/authorize/callback") OtherBody);
    Resolved (mkResponse 302 identity None (Some "com.myqops://ios?code=c0de") OtherBody);
    granted 3600;
    reply 200 (AccountJson (Some [ "a1"; "a2" ]));
    reply 200 (AccountJson (Some [ "a1"; "a2" ]));
    reply 200 (DeviceListJson [ door ]);
    reply 200 (DeviceListJson [ lamp ]) ].

(** A platform over a network: relative locations resolve on the base's
    host, and the app redirect parses to a URL carrying the code. *)
Definition platform (net : Network) : Platform :=
  mkPlatform net
    (fun s => if s =? "" then None
              else Some (mkURL "com.myqops:" "" ""
                           [ ("code", "c0de"); ("scope", "MyQ_Residential offline_access") ]))
    (fun l base => Some (mkURL (protocol base) (hostname base)
                           (match l with Some path => path | None => "/null" end) []))
    (fun _ => "E9Melhoa2OwvFrEMTJguCHaoeK1t8URWbuGJSstw-cM").

Definition start : Z := 1700000000000%Z.

(** The cloud answers a login and a refresh, then goes down. *)
Definition timerCloud : Platform := platform (scripted timerLoginScript).
Definition throttleCloud : Platform := platform (scripted throttleLoginScript).

(** The cloud answers a login and a refresh, and later the accounts request
    and the first account's device list of a second refresh, then goes down. *)
Definition throttleCloudFading : Platform :=
  platform (scripted (throttleLoginScript ++
                      [ reply 200 (AccountJson (Some [ "a1"; "a2" ]));
                        reply 200 (DeviceListJson [ door ]) ])).

(** The cloud answers a login and a refresh, and later answers a command
    with a 403. *)
Definition throttleCloudDoorOffline : Platform :=
  platform (scripted (throttleLoginScript ++ [ reply 403 OtherBody ])).

(** The cloud answers a login and a refresh, and later grants a token that
    expires in 100 seconds. *)
Definition timerCloudShortLived : Platform :=
  platform (scripted (timerLoginScript ++ [ granted 100 ])).

(** The client's state some time later. *)
Definition timerLater (dt : Z) (c : TimerRev.Client) : TimerRev.Client :=
  TimerRev.withExec
    (mkExecutor (region (TimerRev.exec c)) (apiReturnStatus (TimerRev.exec c))
       (clock (TimerRev.exec c) + dt) (wire (TimerRev.exec c))) c.

Definition throttleLater (dt : Z) (c : ThrottleRev.Client) : ThrottleRev.Client :=
  ThrottleRev.withExec
    (mkExecutor (region (ThrottleRev.exec c)) (apiReturnStatus (ThrottleRev.exec c))
       (clock (ThrottleRev.exec c) + dt) (wire (ThrottleRev.exec c))) c.

(** Clients after [login("me@example.com", "hunter2")] at [start]. *)
Definition timerLoggedIn (pf : Platform) : TimerRev.Client :=
  snd (TimerRev.login pf "me@example.com" "hunter2" (TimerRev.new start)).

Definition throttleLoggedIn (pf : Platform) : ThrottleRev.Client :=
  snd (ThrottleRev.login pf "me@example.com" "hunter2" (ThrottleRev.new start)).

End Scenario.

(** ** Device names, hardware table and login cookies

    [getHwInfo] and [getDeviceName] are the same in both revisions. *)

(** myq-types: what [getHwInfo] returns. *)
Record myQHwInfo := mkHwInfo {
  brand : string;
  product : string
}.

(** The [HwInfo] table of [getHwInfo], keyed by the two characters that
    follow the first two of a serial number. *)
Definition HwInfo : list (string * myQHwInfo) :=
  [
    ("00", mkHwInfo "Chamberlain" "Ethernet Gateway");
    ("01", mkHwInfo "Liftmaster" "Ethernet Gateway");
    ("02", mkHwInfo "Craftsman" "Ethernet Gateway");
    ("03", mkHwInfo "Chamberlain" "WiFi Hub");
    ("04", mkHwInfo "Liftmaster" "WiFi Hub");
    ("05", mkHwInfo "Craftsman" "WiFi Hub");
    ("08", mkHwInfo "Liftmaster" "WiFi GDO DC w/Battery Backup");
    ("09", mkHwInfo "Chamberlain" "WiFi GDO DC w/Battery Backup");
    ("0A", mkHwInfo "Chamberlain" "WiFi GDO AC");
    ("0B", mkHwInfo "Liftmaster" "WiFi GDO AC");
    ("0C", mkHwInfo "Craftsman" "WiFi GDO AC");
    ("0D", mkHwInfo "myQ Replacement Logic Board" "WiFi GDO AC");
    ("0E", mkHwInfo "Chamberlain" "WiFi GDO AC 3/4 HP");
    ("0F", mkHwInfo "Liftmaster" "WiFi GDO AC 3/4 HP");
    ("10", mkHwInfo "Craftsman" "WiFi GDO AC 3/4 HP");
    ("11", mkHwInfo "myQ Replacement Logic Board" "WiFi GDO AC 3/4 HP");
    ("12", mkHwInfo "Chamberlain" "WiFi GDO DC 1.25 HP");
    ("13", mkHwInfo "Liftmaster" "WiFi GDO DC 1.25 HP");
    ("14", mkHwInfo "Craftsman" "WiFi GDO DC 1.25 HP");
    ("15", mkHwInfo "myQ Replacement Logic Board" "WiFi GDO DC 1.25 HP");
    ("20", mkHwInfo "Chamberlain" "myQ Home Bridge");
    ("21", mkHwInfo "Liftmaster" "myQ Home Bridge");
    ("23", mkHwInfo "Chamberlain" "Smart Garage Hub");
    ("24", mkHwInfo "Liftmaster" "Smart Garage Hub");
    ("27", mkHwInfo "Liftmaster" "WiFi Wall Mount Opener");
    ("28", mkHwInfo "Liftmaster Commercial" "WiFi Wall Mount Operator");
    ("33", mkHwInfo "Chamberlain" "Smart Garage Control");
    ("34", mkHwInfo "Liftmaster" "Smart Garage Control");
    ("80", mkHwInfo "Liftmaster EU" "Ethernet Gateway");
    ("81", mkHwInfo "Chamberlain EU" "Ethernet Gateway")
  ].

(** [HwInfo[key] ?? null] *)
Fixpoint hwLookup (key : string) (table : list (string * myQHwInfo)) : option myQHwInfo :=
  match table with
  | [] => None
  | (k, v) :: rest => if k =? key then Some v else hwLookup key rest
  end.

(** [getHwInfo(serial)]: null under four characters, else the table entry
    of [serial[2] + serial[3]]. *)
Definition getHwInfo (serial : string) : option myQHwInfo :=
  if (String.length serial <? 4)%nat then None
  else
    match String.get 2 serial, String.get 3 serial with
    | Some c2, Some c3 => hwLookup (String c2 (String c3 "")) HwInfo
    | _, _ => None
    end.

(** [getDeviceName(device)] *)
Definition getDeviceName (device : myQDevice) : string :=
  let deviceString := name device in
  let hwInfo :=
    if negb (device_family device =? "gateway") then getHwInfo (serial_number device)
    else None in
  let deviceString :=
    match hwInfo with
    | Some info => deviceString ++ " [" ++ brand info ++ " " ++ product info ++ "]"
    | None => deviceString
    end in
  if negb (serial_number device =? "") then
    let deviceString := deviceString ++ " (serial number: " ++ serial_number device in
    let deviceString :=
      if negb (parent_device_id device =? "") then
        deviceString ++ ", gateway: " ++ parent_device_id device
      else deviceString in
    deviceString ++ ")"
  else deviceString.

(** A value of [headers.raw()]: one string, or an array of them. *)
Inductive RawHeader :=
| Single (value : string)
| Several (values : list string).

(** [h ?? []], then [[ h ]] unless it is an array already. *)
Definition asArray (h : option RawHeader) : list string :=
  match h with
  | None => []
  | Some (Single value) => [ value ]
  | Some (Several values) => values
  end.

(** [x.split(";")[0]] *)
Definition cookiePair (x : string) : string :=
  hd "" (Js.split ";" x).

(** [generateLoginCookies(headers)] of the revision with [refreshTimer], on
    the [cookie] and [set-cookie] entries of [headers.raw()]. *)
Definition generateLoginCookies (cookie setCookies : option RawHeader) : string :=
  Js.join "; " (map cookiePair (asArray cookie ++ asArray setCookies)%list).

(** What the authentication chain of either revision leaves alone. *)
Definition timerBystanders (c : TimerRev.Client)
  : option (list myQDevice) * option string * option string :=
  (TimerRev.devices c, TimerRev.email c, TimerRev.password c).

Definition throttleBystanders (c : ThrottleRev.Client)
  : option (list myQDevice) * option string * option string * option Z :=
  (ThrottleRev.devices c, ThrottleRev.email c, ThrottleRev.password c,
   ThrottleRev.lastRefreshDevicesCall c).

(** What the steps under [acquireAccessToken] leave alone: the bystanders
    and the time of the last authentication. *)
Definition throttleInner (c : ThrottleRev.Client) :=
  (throttleBystanders c, ThrottleRev.lastAuthenticateCall c).

(** The stored credentials, [this.email] and [this.password]. *)
Definition timerCredentials (c : TimerRev.Client) : option string * option string :=
  (TimerRev.email c, TimerRev.password c).

Definition throttleCredentials (c : ThrottleRev.Client) : option string * option string :=
  (ThrottleRev.email c, ThrottleRev.password c).

(** A string ends with another. *)
Definition endsWith (suffix s : string) : Prop :=
  exists front, s = front ++ suffix.

(** The status codes [retrieve] has a branch for, when it decodes. *)
Definition recognized (codes : list Z) (response : Response) : bool :=
  ok response || isRedirect (status response) || isCredentialsIssue (status response)
  || (status response =? 403)%Z || isServerSideIssue codes (status response).

(** ** Further scenarios *)

Module Cases.

(** The cloud answers the first request with a 404. *)
Definition missing : Network := Scenario.scripted [ Scenario.reply 404 OtherBody ].

(** The default region refuses the connection, the east region answers. *)
Definition eastOnly : Network :=
  Scenario.scripted [ Rejected (FetchError "ECONNREFUSED" "");
                      Scenario.reply 200 (AccountJson (Some [ "a1" ])) ].

(** A login page reached through the east region. *)
Definition eastLoginPage : URL :=
  mkURL "https:" "partner-identity-east.myq-cloud.com" "/Account/LoginWithEmail" [].

(** The cloud answers a login, reporting an empty account list each time
    it is asked. *)
Definition throttleNoAccounts : Platform :=
  Scenario.platform
    (Scenario.scripted (firstn 4 Scenario.throttleLoginScript ++
                        [ Scenario.reply 200 (AccountJson (Some []));
                          Scenario.reply 200 (AccountJson (Some [])) ])).

(** The cloud is down. *)
Definition down : Platform := Scenario.platform (Scenario.scripted []).

End Cases.

(** * Properties *)

(** ** Strings *)

Lemma split_nonempty sep s : Js.split sep s <> [].
Proof.
  destruct s as [|c s]; simpl; [discriminate|].
  destruct (Ascii.eqb c sep); [discriminate|].
  destruct (Js.split sep s); discriminate.
Qed.

Lemma join_cons sep first second others :
  Js.join sep (first :: second :: others) = first ++ sep ++ Js.join sep (second :: others).
Proof. reflexivity. Qed.

Lemma join_split sep s : Js.join (String sep "") (Js.split sep s) = s.
Proof.
  induction s as [|c s IH]; [reflexivity|].
  cbn [Js.split].
  destruct (Js.split sep s) as [|first others] eqn:S; [now apply split_nonempty in S|].
  destruct (Ascii.eqb c sep) eqn:E.
  - apply Ascii.eqb_eq in E. subst c.
    cbn. cbn in IH. now rewrite IH.
  - destruct others as [|second others]; cbn; cbn in IH; now rewrite IH.
Qed.

Lemma split_lacks sep s : Forall (fun p => lacks sep p = true) (Js.split sep s).
Proof.
  induction s as [|c s IH]; simpl.
  - constructor; [reflexivity|constructor].
  - destruct (Ascii.eqb c sep) eqn:E.
    + constructor; [reflexivity|exact IH].
    + destruct (Js.split sep s) as [|first others]; simpl.
      * constructor; [simpl; now rewrite E|constructor].
      * inversion IH; subst. constructor; [simpl; now rewrite E|assumption].
Qed.

Lemma split_lacking sep s : lacks sep s = true -> Js.split sep s = [s].
Proof.
  induction s as [|c s IH]; simpl; [reflexivity|].
  destruct (Ascii.eqb c sep); simpl; [discriminate|].
  intros H. now rewrite (IH H).
Qed.

Lemma split_cons sep first others :
  lacks sep first = true -> others <> [] ->
  Js.split sep (first ++ String sep (Js.join (String sep "") others))
  = first :: Js.split sep (Js.join (String sep "") others).
Proof.
  intros Hf _. induction first as [|c first IH]; simpl.
  - now rewrite Ascii.eqb_refl.
  - simpl in Hf. apply andb_true_iff in Hf as [Hc Hf].
    apply negb_true_iff in Hc. rewrite Hc, (IH Hf). reflexivity.
Qed.

Lemma split_join sep parts :
  parts <> [] -> Forall (fun p => lacks sep p = true) parts ->
  Js.split sep (Js.join (String sep "") parts) = parts.
Proof.
  induction parts as [|first others IH]; [congruence|].
  intros _ H. inversion H as [|? ? Hf Ho]; subst.
  destruct others as [|second others].
  - simpl. now apply split_lacking.
  - change (Js.join (String sep "") (first :: second :: others))
      with (first ++ String sep (Js.join (String sep "") (second :: others))).
    rewrite split_cons by (assumption || discriminate).
    rewrite IH by (assumption || discriminate). reflexivity.
Qed.

Lemma lacks_app sep a b : lacks sep a = true -> lacks sep b = true -> lacks sep (a ++ b) = true.
Proof.
  induction a as [|c a IH]; simpl; [auto|].
  intros Ha Hb. apply andb_true_iff in Ha as [Hc Ha].
  now rewrite Hc, IH.
Qed.

Lemma append_empty (s : string) : s ++ "" = s.
Proof. induction s as [|c s IH]; simpl; [reflexivity|now rewrite IH]. Qed.

Lemma noLineTerminator_split sep s :
  noLineTerminator s = true ->
  Forall (fun p => noLineTerminator p = true) (Js.split sep s).
Proof.
  induction s as [|c s IH]; simpl.
  - intros _. constructor; [reflexivity|constructor].
  - intros H. apply andb_true_iff in H as [Hc Hs]. specialize (IH Hs).
    destruct (Ascii.eqb c sep).
    + constructor; [reflexivity|exact IH].
    + destruct (Js.split sep s) as [|first others]; simpl.
      * constructor; [simpl; now rewrite Hc|constructor].
      * inversion IH; subst. constructor; [simpl; now rewrite Hc; simpl|assumption].
Qed.

(** ** Region suffix and hostname rewrite *)

Lemma regionRegex_suffix label r :
  noLineTerminator label = true -> In r myQRegions ->
  regionRegex_test (label ++ "-" ++ r) = true.
Proof.
  intros Hl Hr. induction label as [|c label IH].
  - simpl in Hr. destruct Hr as [<-|[<-|[<-|[]]]]; reflexivity.
  - simpl in Hl. apply andb_true_iff in Hl as [Hc Hl].
    change ((String c label) ++ "-" ++ r) with (String c (label ++ "-" ++ r)).
    cbn [regionRegex_test]. rewrite Hc, (IH Hl). simpl. apply orb_true_r.
Qed.

Lemma setHostname_same u : setHostname (hostname u) u = u.
Proof. now destruct u. Qed.

Lemma regionalize_qualified isRetry r u :
  regionQualified u = true -> regionalize isRetry r u = (r, u).
Proof.
  unfold regionQualified, regionalize. intros ->.
  now rewrite join_split, setHostname_same.
Qed.

Lemma regionSuffix_lacks_dot r :
  r < List.length myQRegions -> lacks "." (regionSuffix r) = true.
Proof.
  simpl. intros H. do 3 (destruct r as [|r]; [reflexivity|]). lia.
Qed.

Lemma regionalize_first_labels r u :
  r < List.length myQRegions ->
  regionQualified u = false ->
  Js.split "." (hostname (snd (regionalize 0 r u)))
  = (hd "" (Js.split "." (hostname u)) ++ regionSuffix r) :: tl (Js.split "." (hostname u)).
Proof.
  intros Hr Hq. unfold regionalize. unfold regionQualified in Hq. rewrite Hq.
  cbn [Nat.eqb snd setHostname hostname].
  apply split_join; [discriminate|].
  pose proof (split_lacks "." (hostname u)) as Hall.
  destruct (Js.split "." (hostname u)) as [|label others] eqn:S;
    [now apply split_nonempty in S|].
  inversion Hall; subst. cbn [hd tl].
  constructor; [|assumption].
  apply lacks_app; [assumption|now apply regionSuffix_lacks_dot].
Qed.

(** C9.  The hostname rewrite at the head of [retrieve] is idempotent: a
    hostname whose first label already matches the region pattern is left
    as it is (and so is the region index, on a first attempt as on a retry),
    and rewriting under the active region a hostname that has been rewritten
    under it yields the same hostname. *)
Theorem hostname_rewrite_idempotent :
  forall (r : nat) (u : URL),
    r < List.length myQRegions ->
    noLineTerminator (hostname u) = true ->
    (forall isRetry, regionQualified u = true -> regionalize isRetry r u = (r, u)) /\
    rewriteHostname r (rewriteHostname r u) = rewriteHostname r u.
Proof.
  intros r u Hr Hlt. split; [intros; now apply regionalize_qualified|].
  unfold rewriteHostname.
  destruct (regionQualified u) eqn:Hq.
  - rewrite !(regionalize_qualified 0 r u Hq). cbn [snd].
    now rewrite (regionalize_qualified 0 r u Hq).
  - pose proof (regionalize_first_labels r u Hr Hq) as Hlabels.
    set (u' := snd (regionalize 0 r u)) in *.
    assert (Hu' : u' = setHostname
                         (Js.join "." ((hd "" (Js.split "." (hostname u)) ++ regionSuffix r)
                                       :: tl (Js.split "." (hostname u)))) u).
    { subst u'. unfold regionalize. unfold regionQualified in Hq. now rewrite Hq. }
    destruct (Nat.eq_dec r 0) as [->|Hnz].
    + (* default region: nothing is appended, the hostname stays unqualified *)
      unfold regionalize at 1. rewrite Hlabels. cbn [hd tl Nat.eqb regionSuffix].
      rewrite !append_empty.
      unfold regionQualified in Hq. rewrite Hq. cbn [snd].
      rewrite Hu'. cbn [regionSuffix Nat.eqb]. rewrite append_empty. reflexivity.
    + (* a named region: the rewritten label now matches the pattern *)
      assert (Hq' : regionQualified u' = true);
        [|exact (f_equal snd (regionalize_qualified 0 r u' Hq'))].
      unfold regionQualified. rewrite Hlabels. cbn [hd].
      unfold regionSuffix. destruct (Nat.eqb_spec r 0) as [|_]; [contradiction|].
      pose proof (noLineTerminator_split "." (hostname u) Hlt) as Hall.
      destruct (Js.split "." (hostname u)) as [|label others] eqn:S;
        [now apply split_nonempty in S|].
      inversion Hall; subst. cbn [hd].
      apply regionRegex_suffix; [assumption|].
      unfold regionName. simpl in Hr.
      do 3 (destruct r as [|r]; [simpl; auto|]). lia.
Qed.

(** C9 at a concrete URL: under the east region, devices.myq-cloud.com
    becomes devices-east.myq-cloud.com and stays so. *)
Lemma hostname_rewrite_idempotent_witness :
  1 < List.length myQRegions /\
  noLineTerminator "devices.myq-cloud.com" = true /\
  hostname (rewriteHostname 1 (mkURL "https:" "devices.myq-cloud.com" "/api" []))
  = "devices-east.myq-cloud.com" /\
  rewriteHostname 1 (rewriteHostname 1 (mkURL "https:" "devices.myq-cloud.com" "/api" []))
  = rewriteHostname 1 (mkURL "https:" "devices.myq-cloud.com" "/api" []).
Proof.
  assert (H1 : 1 < List.length myQRegions) by (simpl; lia).
  assert (H2 : noLineTerminator "devices.myq-cloud.com" = true) by reflexivity.
  split; [exact H1|]. split; [exact H2|]. split; [reflexivity|].
  exact (proj2 (hostname_rewrite_idempotent 1
                  (mkURL "https:" "devices.myq-cloud.com" "/api" []) H1 H2)).
Defined.

(** ** Shape of a [retrieve] call *)

Lemma attempt_sent codes net u d isRetry e v e' :
  attempt codes net u d isRetry e = (v, e') ->
  exists a,
    Sent u isRetry (region e) a /\
    wire e' = (wire e ++ [a])%list /\
    v = verdictOf codes d (attemptOutcome a) /\
    region e' = attemptRegion a /\
    apiReturnStatus e' = statusOf (attemptOutcome a) /\
    attemptOutcome a = outcome (net (List.length (wire e)) (attemptUrl a)).
Proof.
  unfold attempt, myqRetrieve.
  destruct (regionalize isRetry (region e) u) as [region' retrieveUrl] eqn:R.
  cbn [withStatus withRegion region apiReturnStatus clock wire].
  destruct (outcome (net (List.length (wire e)) retrieveUrl)) as [response|error] eqn:O;
    intros H; inversion H; subst; clear H;
    eexists (mkAttempt retrieveUrl region' isRetry _);
    unfold Sent; cbn; rewrite ?O; repeat split; auto.
Qed.

Lemma retrieve_run codes net u d isRetry e :
  forall result e',
    retrieve codes net u d isRetry e = (result, e') ->
    exists attempts,
      Run codes u d isRetry (region e) attempts result (region e') (apiReturnStatus e') /\
      wire e' = (wire e ++ attempts)%list.
Proof.
  funelim (retrieve codes net u d isRetry e); intros res e'' Hret.
  all: match goal with Ha : attempt _ _ _ _ _ _ = _ |- _ =>
         destruct (attempt_sent _ _ _ _ _ _ _ _ Ha) as (a & Hs & Hw & Hv & Hr & Hst & _) end.
  - inversion Hret; subst. exists [a]. split; [|assumption].
    rewrite Hr, Hst. now constructor.
  - match goal with IH : forall _ _, _ -> exists _, _ |- _ =>
      destruct (IH _ _ Hret) as (rest & Hrun & Hw') end.
    exists (a :: rest). split.
    + rewrite Hr in Hrun. eapply RunRetry; eauto.
    + rewrite Hw', Hw, <- app_assoc. reflexivity.
  - inversion Hret; subst. exists [a]. split; [|assumption].
    rewrite Hr, Hst. apply RunGiveUp; auto. lia.
Qed.

Lemma issued_app before after attempts :
  wire after = (wire before ++ attempts)%list -> issued before after = attempts.
Proof.
  unfold issued. intros ->. rewrite skipn_app, skipn_all, Nat.sub_diag. reflexivity.
Qed.

Lemma run_exhausts codes u d isRetry r attempts result r' s' :
  Run codes u d isRetry r attempts result r' s' ->
  (forall a, In a attempts -> verdictOf codes d (attemptOutcome a) = CallRetry) ->
  isRetry <= 3 ->
  List.length attempts = 4 - isRetry /\ result = None.
Proof.
  induction 1 as [i r a res Hs Hv | i r a Hs Hv Hi | i r a rest res r' s' Hs Hv Hi Hrun IH];
    intros Hall Hle.
  - rewrite (Hall a (or_introl eq_refl)) in Hv. discriminate.
  - cbn [List.length]. split; [lia|reflexivity].
  - destruct IH as [Hlen ->]; [intros; apply Hall; now right|lia|].
    cbn [List.length]. split; [lia|reflexivity].
Qed.

Lemma run_length codes u d isRetry r attempts result r' s' :
  Run codes u d isRetry r attempts result r' s' ->
  isRetry <= 3 -> 1 <= List.length attempts <= 4 - isRetry.
Proof.
  induction 1; intros Hle; cbn [List.length]; lia.
Qed.

Lemma retryCandidate_verdict codes o :
  codes = TimerRev.serverSideCodes \/ codes = ThrottleRev.serverSideCodes ->
  retryCandidate codes o -> verdictOf codes true o = CallRetry.
Proof.
  intros Hc Ho. destruct o as [response|error].
  - cbn [verdictOf]. unfold classify, ok, isRedirect, isCredentialsIssue, isServerSideIssue.
    cbn [retryCandidate] in Ho.
    destruct Hc; subst codes; cbn in Ho;
      repeat (destruct Ho as [<-|Ho]; [reflexivity|]); contradiction.
  - cbn [verdictOf]. destruct error as [code message|description]; cbn [catchError];
      [|reflexivity].
    repeat match goal with |- context [if ?b then _ else _] => destruct b end; reflexivity.
Qed.



(** ** Region rotation *)

Lemma regionalize_unqualified isRetry r u :
  regionQualified u = false ->
  fst (regionalize isRetry r u) = if (isRetry =? 0)%nat then r else advance r.
Proof.
  unfold regionQualified, regionalize. intros ->. reflexivity.
Qed.

Lemma run_regions codes u d isRetry r attempts result r' s' :
  Run codes u d isRetry r attempts result r' s' ->
  regionQualified u = false ->
  map attemptRegion attempts
  = rotation (if (isRetry =? 0)%nat then r else advance r) (List.length attempts).
Proof.
  induction 1 as [i r a res Hs Hv | i r a Hs Hv Hi | i r a rest res r' s' Hs Hv Hi Hrun IH];
    intros Hq;
    destruct Hs as [_ Hs]; apply (f_equal fst) in Hs; cbn [fst] in Hs;
    rewrite regionalize_unqualified in Hs by assumption.
  - cbn. now rewrite Hs.
  - cbn. now rewrite Hs.
  - cbn [map List.length rotation]. rewrite (IH Hq), Hs. reflexivity.
Qed.

Lemma run_last codes u d isRetry r attempts result r' s' :
  Run codes u d isRetry r attempts result r' s' ->
  exists earlier a,
    attempts = (earlier ++ [a])%list /\
    r' = attemptRegion a /\
    s' = statusOf (attemptOutcome a) /\
    (forall b, In b earlier -> verdictOf codes d (attemptOutcome b) = CallRetry) /\
    (verdictOf codes d (attemptOutcome a) = Return result \/
     verdictOf codes d (attemptOutcome a) = CallRetry /\ result = None).
Proof.
  induction 1 as [i r a res Hs Hv | i r a Hs Hv Hi | i r a rest res r' s' Hs Hv Hi Hrun IH].
  - exists [], a. repeat split; auto. intros b [].
  - exists [], a. repeat split; auto. intros b [].
  - destruct IH as (earlier & z & -> & Hr & Hst & Hall & Hz).
    exists (a :: earlier), z. repeat split; auto.
    intros b [<-|Hb]; auto.
Qed.

Lemma regionalize_region_bound isRetry r u :
  r < List.length myQRegions -> fst (regionalize isRetry r u) < List.length myQRegions.
Proof.
  intros Hr. unfold regionalize.
  destruct (regionRegex_test _); cbn [fst]; [assumption|].
  destruct (isRetry =? 0)%nat; [assumption|].
  unfold advance. apply Nat.mod_upper_bound. discriminate.
Qed.

Lemma run_region_bound codes u d isRetry r attempts result r' s' :
  Run codes u d isRetry r attempts result r' s' ->
  r < List.length myQRegions -> r' < List.length myQRegions.
Proof.
  induction 1 as [i r a res Hs Hv | i r a Hs Hv Hi | i r a rest res r' s' Hs Hv Hi Hrun IH];
    intros Hr; [| |apply IH];
    destruct Hs as [_ Hs]; apply (f_equal fst) in Hs; cbn [fst] in Hs; rewrite Hs;
    now apply regionalize_region_bound.
Qed.

(** The region index stays within the region list. *)
Lemma retrieve_region_bound codes net u d e :
  region e < List.length myQRegions ->
  region (snd (retrieve codes net u d 0 e)) < List.length myQRegions.
Proof.
  intros Hr. destruct (retrieve codes net u d 0 e) as [result e'] eqn:Hret.
  destruct (retrieve_run _ _ _ _ _ _ _ _ Hret) as (attempts & Hrun & _).
  exact (run_region_bound _ _ _ _ _ _ _ _ _ Hrun Hr).
Qed.

Lemma rotation_length first n : List.length (rotation first n) = n.
Proof. revert first. induction n; intros; simpl; auto. Qed.

Lemma rotation_step first n k r r' :
  nth_error (rotation first n) k = Some r ->
  nth_error (rotation first n) (S k) = Some r' ->
  r' = advance r.
Proof.
  revert first k. induction n as [|n IH]; intros first k; [destruct k; discriminate|].
  destruct k as [|k]; cbn [rotation nth_error].
  - intros H. inversion H; subst. destruct n; cbn; [discriminate|congruence].
  - apply IH.
Qed.

(** C2.  In a [retrieve] call on a hostname that is not region-qualified,
    the first attempt goes out under the region index the call found; every
    later attempt goes out under the cyclic successor of the index of the
    attempt before it; so any 3 consecutive attempts of the call visit each
    of the 3 regions exactly once; and when every attempt is a candidate for
    retry the four attempts go out under the regions r, r+1, r+2, r (mod 3)
    before null is returned. *)
Theorem region_rotation :
  forall (codes : list Z) (net : Network) (u : URL) (decodeResponse : bool)
         (e : Executor) (result : option Response) (e' : Executor),
    regionQualified u = false ->
    region e < List.length myQRegions ->
    retrieve codes net u decodeResponse 0 e = (result, e') ->
    let regions := map attemptRegion (issued e e') in
    nth_error regions 0 = Some (region e) /\
    (forall k r r', nth_error regions k = Some r ->
                    nth_error regions (S k) = Some r' -> r' = advance r) /\
    (forall k i, k + 3 <= List.length regions -> i < 3 ->
                 count_occ Nat.eq_dec (firstn 3 (skipn k regions)) i = 1) /\
    ((forall a, In a (issued e e') ->
                verdictOf codes decodeResponse (attemptOutcome a) = CallRetry) ->
     regions = [ region e; (region e + 1) mod 3; (region e + 2) mod 3; region e ] /\
     result = None /\ region e' = region e).
Proof.
  intros codes net u d e result e' Hq Hr Hret regions.
  destruct (retrieve_run _ _ _ _ _ _ _ _ Hret) as (attempts & Hrun & Hw).
  subst regions. rewrite (issued_app _ _ _ Hw).
  pose proof (run_regions _ _ _ _ _ _ _ _ _ Hrun Hq) as Hreg. cbn [Nat.eqb] in Hreg.
  pose proof (run_length _ _ _ _ _ _ _ _ _ Hrun (Nat.le_0_l 3)) as Hlen.
  destruct (run_last _ _ _ _ _ _ _ _ _ Hrun) as (earlier & z & Hsplit & Hfinal & _).
  rewrite Hreg. rewrite rotation_length.
  split; [|split; [|split]].
  - destruct (List.length attempts); [lia|reflexivity].
  - intros k r r'. apply rotation_step.
  - intros k i Hk Hi. simpl in Hr.
    assert (Hcases : List.length attempts = 3 \/ List.length attempts = 4) by lia.
    assert (Hk' : k = 0 \/ k = 1) by lia.
    assert (Hi' : i = 0 \/ i = 1 \/ i = 2) by lia.
    assert (Hr' : region e = 0 \/ region e = 1 \/ region e = 2) by lia.
    destruct Hcases as [Hl | Hl]; rewrite Hl in *;
      destruct Hk' as [-> | ->]; try lia;
      destruct Hi' as [-> | [-> | ->]];
      destruct Hr' as [-> | [-> | ->]]; reflexivity.
  - intros Hall.
    destruct (run_exhausts _ _ _ _ _ _ _ _ _ Hrun Hall (Nat.le_0_l 3)) as [Hl ->].
    assert (Hlast : region e' = last (map attemptRegion attempts) 0).
    { rewrite Hsplit, map_app. cbn [map]. rewrite last_last. exact Hfinal. }
    rewrite Hreg, Hl in Hlast. rewrite Hl. simpl in Hr.
    assert (Hr' : region e = 0 \/ region e = 1 \/ region e = 2) by lia.
    destruct Hr' as [Hz | [Hz | Hz]]; rewrite Hz in *; repeat split; assumption.
Qed.

(** C2 on the call of the C1 scenario, starting in the default region. *)
Lemma region_rotation_witness :
  let run := retrieve TimerRev.serverSideCodes Scenario.unreachable
               (devicesEndpoint "a1") true 0 Scenario.idle in
  regionQualified (devicesEndpoint "a1") = false /\
  region Scenario.idle < List.length myQRegions /\
  map attemptRegion (issued Scenario.idle (snd run)) = [ 0; 1; 2; 0 ] /\
  fst run = None /\ region (snd run) = 0.
Proof.
  intros run.
  assert (Hq : regionQualified (devicesEndpoint "a1") = false) by reflexivity.
  assert (Hr : region Scenario.idle < List.length myQRegions) by (cbn; lia).
  split; [exact Hq|]. split; [exact Hr|].
  apply (region_rotation TimerRev.serverSideCodes Scenario.unreachable
           (devicesEndpoint "a1") true Scenario.idle (fst run) (snd run)
           Hq Hr (surjective_pairing run)).
  intros a Ha. vm_compute in Ha.
  repeat (destruct Ha as [<-|Ha]; [reflexivity|]). contradiction.
Defined.

(** ** The 403 branch *)

Lemma classify_forbidden codes response :
  status response = 403%Z -> classify codes true response = Return None.
Proof.
  intros H. unfold classify, ok, isRedirect, isCredentialsIssue. now rewrite H.
Qed.

Lemma run_retries codes u d isRetry r attempts result r' s' :
  Run codes u d isRetry r attempts result r' s' ->
  map attemptRetry attempts = seq isRetry (List.length attempts).
Proof.
  induction 1 as [i r a res Hs Hv | i r a Hs Hv Hi | i r a rest res r' s' Hs Hv Hi Hrun IH];
    destruct Hs as [Hs _]; cbn; rewrite Hs; [reflexivity|reflexivity|now rewrite <- IH].
Qed.

Lemma regionalize_first r u : fst (regionalize 0 r u) = r.
Proof. unfold regionalize. now destruct (regionRegex_test _). Qed.

(** C3.  When an attempt of a [retrieve] call that decodes responses is
    answered with a 403, that attempt is the last request of the call, the
    call returns null, [apiReturnStatus] holds 403, and the region index is
    left where it was when that request went out; if the 403 answers the
    first attempt, it is the only request and the region index is the one
    the call found. *)
Theorem forbidden_is_terminal :
  forall (codes : list Z) (net : Network) (u : URL) (e : Executor)
         (result : option Response) (e' : Executor) (a : Attempt) (response : Response),
    retrieve codes net u true 0 e = (result, e') ->
    In a (issued e e') ->
    attemptOutcome a = Resolved response ->
    status response = 403%Z ->
    result = None /\
    (exists earlier, issued e e' = (earlier ++ [a])%list) /\
    region e' = attemptRegion a /\
    apiReturnStatus e' = 403%Z /\
    (attemptRetry a = 0 -> issued e e' = [a] /\ region e' = region e).
Proof.
  intros codes net u e result e' a response Hret Hin Ho H403.
  destruct (retrieve_run _ _ _ _ _ _ _ _ Hret) as (attempts & Hrun & Hw).
  rewrite (issued_app _ _ _ Hw) in *.
  assert (Hv : verdictOf codes true (attemptOutcome a) = Return None).
  { rewrite Ho. cbn [verdictOf]. now apply classify_forbidden. }
  destruct (run_last _ _ _ _ _ _ _ _ _ Hrun)
    as (earlier & z & Hsplit & Hregion & Hstatus & Hearlier & Hz).
  assert (a = z) as <-.
  { rewrite Hsplit in Hin. apply in_app_or in Hin as [Hin|[Hin|[]]]; [|now symmetry].
    rewrite (Hearlier _ Hin) in Hv. discriminate. }
  assert (Hres : result = None).
  { destruct Hz as [Hz|[Hz _]]; rewrite Hv in Hz; [now inversion Hz|discriminate]. }
  split; [exact Hres|]. split; [now exists earlier|]. split; [exact Hregion|].
  split; [rewrite Hstatus, Ho; exact H403|].
  intros H0. pose proof (run_retries _ _ _ _ _ _ _ _ _ Hrun) as Hseq.
  rewrite Hsplit in Hseq. rewrite map_app, length_app, seq_app in Hseq.
  cbn in Hseq. apply app_inj_tail in Hseq as [_ Hseq].
  destruct earlier as [|b earlier]; [|rewrite H0 in Hseq; discriminate].
  split; [exact Hsplit|].
  rewrite Hregion. rewrite Hsplit in Hrun.
  inversion Hrun as [? ? ? ? Hs ?| ? ? ? Hs ? ?|? ? ? ? ? ? ? ? ? ? Hrest]; subst;
    [| |inversion Hrest];
    destruct Hs as [_ Hs]; apply (f_equal fst) in Hs; cbn [fst] in Hs;
    now rewrite regionalize_first in Hs.
Qed.

(** C3 on a call whose first attempt meets a 503 and whose retry, sent to
    the east region, is answered 403: two requests, null, region still east. *)
Lemma forbidden_is_terminal_witness :
  let run := retrieve ThrottleRev.serverSideCodes Scenario.offlineDevice
               Scenario.doorCommand true 0 Scenario.idle in
  let a := mkAttempt (setHostname "account-devices-gdo-east.myq-cloud.com" Scenario.doorCommand)
             1 1 (Scenario.reply 403 OtherBody) in
  In a (issued Scenario.idle (snd run)) /\
  fst run = None /\
  List.length (issued Scenario.idle (snd run)) = 2 /\
  region (snd run) = 1 /\
  apiReturnStatus (snd run) = 403%Z.
Proof.
  intros run a.
  assert (Hin : In a (issued Scenario.idle (snd run))) by (vm_compute; auto).
  destruct (forbidden_is_terminal ThrottleRev.serverSideCodes Scenario.offlineDevice
              Scenario.doorCommand Scenario.idle (fst run) (snd run) a
              (mkResponse 403 (mkURL "https:" "myq-cloud.com" "/" []) None None OtherBody)
              (surjective_pairing run) Hin eq_refl eq_refl)
    as (Hres & _ & Hregion & Hstatus & _).
  split; [exact Hin|]. split; [exact Hres|]. split; [reflexivity|].
  split; [exact Hregion|exact Hstatus].
Defined.

(** ** Frames *)

Lemma keeps_ret {S A X : Type} (f : S -> X) (a : A) : keeps f (ret a).
Proof. intros s. reflexivity. Qed.

Lemma keeps_throw {S A X : Type} (f : S -> X) : keeps f (@throw S A).
Proof. intros s. reflexivity. Qed.

Lemma keeps_get {S X : Type} (f : S -> X) : keeps f get.
Proof. intros s. reflexivity. Qed.

Lemma keeps_modify {S X : Type} (f : S -> X) (g : S -> S) :
  (forall s, f (g s) = f s) -> keeps f (modify g).
Proof. intros H s. apply H. Qed.

Lemma keeps_bind {S A B X : Type} (f : S -> X) (m : M S A) (k : A -> M S B) :
  keeps f m -> (forall a, keeps f (k a)) -> keeps f (bind m k).
Proof.
  intros Hm Hk s. unfold bind. specialize (Hm s).
  destruct (m s) as [[a|] s']; cbn [snd] in *; [now rewrite Hk|assumption].
Qed.

Lemma bind_done {S A B : Type} (m : M S A) (k : A -> M S B) s a s' :
  m s = (Done a, s') -> bind m k s = k a s'.
Proof. unfold bind. now intros ->. Qed.

Lemma bind_throw {S A B : Type} (m : M S A) (k : A -> M S B) s s' :
  m s = (Throw, s') -> bind m k s = (Throw, s').
Proof. unfold bind. now intros ->. Qed.

Lemma bind_get {S B : Type} (k : S -> M S B) s : bind get k s = k s s.
Proof. reflexivity. Qed.

Lemma bind_modify {S B : Type} (g : S -> S) (k : unit -> M S B) s :
  bind (modify g) k s = k tt (g s).
Proof. reflexivity. Qed.

Create HintDb frame.

(** Frame conditions by following the structure of the method. *)
Ltac frame :=
  repeat first
    [ apply keeps_ret
    | apply keeps_throw
    | apply keeps_get
    | solve [ auto with frame ]
    | apply keeps_bind; [|intro]
    | apply keeps_modify; intro;
      repeat match goal with
             | |- context [if ?b then _ else _] => destruct b
             | |- context [match ?x with _ => _ end] => destruct x
             end; reflexivity
    | match goal with
      | |- keeps _ (if ?b then _ else _) => destruct b
      | |- keeps _ (match ?x with _ => _ end) => destruct x
      end ].

Module TimerFacts.

Import TimerRev.

Section WithPlatform.

Variable pf : Platform.

Lemma timer_retrieve_keeps {X : Type} (f : Client -> X) (u : URL) :
  (forall e c, f (withExec e c) = f c) -> keeps f (this_retrieve pf u).
Proof.
  intros H c. unfold this_retrieve.
  destruct (retrieve _ _ _ _ _ _) as [r e']. apply H.
Qed.

Lemma timer_retrieve_keeps_devices u : keeps devices (this_retrieve pf u).
Proof. now apply timer_retrieve_keeps. Qed.

Hint Resolve timer_retrieve_keeps_devices : frame.

Lemma timer_getAccounts_keeps_devices : keeps devices (getAccounts pf).
Proof. unfold getAccounts. frame. Qed.

Lemma timer_setTokenRefreshTimer_keeps_devices amount :
  keeps devices (setTokenRefreshTimer amount).
Proof. unfold setTokenRefreshTimer, clearRefreshTimer. frame. Qed.

Hint Resolve timer_getAccounts_keeps_devices timer_setTokenRefreshTimer_keeps_devices : frame.

Lemma timer_oauthGetAuthPage_keeps_devices challenge :
  keeps devices (oauthGetAuthPage pf challenge).
Proof. unfold oauthGetAuthPage. frame. Qed.

Lemma timer_oauthLogin_keeps_devices page : keeps devices (oauthLogin pf page).
Proof. unfold oauthLogin. frame. Qed.

Lemma timer_oauthRedirect_keeps_devices response : keeps devices (oauthRedirect pf response).
Proof. unfold oauthRedirect. frame. Qed.

Hint Resolve timer_oauthGetAuthPage_keeps_devices timer_oauthLogin_keeps_devices
  timer_oauthRedirect_keeps_devices : frame.

Lemma timer_getOAuthToken_keeps_devices : keeps devices (getOAuthToken pf).
Proof. unfold getOAuthToken, clearRefreshTimer. frame. Qed.

Lemma timer_refreshOAuthToken_keeps_devices : keeps devices (refreshOAuthToken pf).
Proof. unfold refreshOAuthToken. frame. Qed.

Hint Resolve timer_getOAuthToken_keeps_devices timer_refreshOAuthToken_keeps_devices : frame.

Lemma timer_acquireAccessToken_keeps_devices : keeps devices (acquireAccessToken pf).
Proof. unfold acquireAccessToken, invalidate. frame. Qed.

Hint Resolve timer_acquireAccessToken_keeps_devices : frame.

Lemma timer_refreshAccessToken_keeps_devices : keeps devices (refreshAccessToken pf).
Proof. unfold refreshAccessToken. frame. Qed.

Lemma timer_collectDevices_keeps_devices ids acc : keeps devices (collectDevices pf ids acc).
Proof.
  revert acc. induction ids as [|accountId rest IH]; intros acc; cbn [collectDevices];
    unfold invalidate; frame.
Qed.

Lemma timer_retrieve_done u c :
  exists response c', this_retrieve pf u c = (Done response, c').
Proof.
  unfold this_retrieve. destruct (retrieve _ _ _ _ _ _) as [r e']. eauto.
Qed.

(** The loop fails at the first account whose request fails. *)
Lemma timer_collectDevices_failure before accountId after :
  forall acc c collected cm cf,
    collectDevices pf before acc c = (Done (Some collected), cm) ->
    this_retrieve pf (devicesEndpoint accountId) cm = (Done None, cf) ->
    collectDevices pf (before ++ accountId :: after) acc c = (Done None, invalidate cf).
Proof.
  induction before as [|first before IH]; intros acc c collected cm cf Hloop Hfail.
  - cbn in Hloop. inversion Hloop; subst.
    cbn [app collectDevices]. rewrite (bind_done _ _ _ _ _ Hfail). reflexivity.
  - cbn [app collectDevices] in *.
    destruct (timer_retrieve_done (devicesEndpoint first) c) as (response & c1 & Hfirst).
    rewrite (bind_done _ _ _ _ _ Hfirst) in Hloop.
    rewrite (bind_done _ _ _ _ _ Hfirst).
    destruct response as [response|]; [|unfold bind, modify, ret in Hloop; discriminate].
    destruct (body response); try (unfold throw in Hloop; discriminate).
    now apply (IH _ _ _ _ _ Hloop).
Qed.

Lemma timer_refreshDevices_failure c ca cb before accountId after collected cm cf :
  notLoggedIn c = false ->
  refreshAccessToken pf c = (Done true, ca) ->
  getAccounts pf ca = (Done true, cb) ->
  accounts cb = (before ++ accountId :: after)%list ->
  collectDevices pf before [] cb = (Done (Some collected), cm) ->
  this_retrieve pf (devicesEndpoint accountId) cm = (Done None, cf) ->
  refreshDevices pf c = (Done false, invalidate cf) /\
  devices (invalidate cf) = devices c /\
  accessToken (invalidate cf) = None /\
  accounts (invalidate cf) = [].
Proof.
  intros Hlogged Hvalid Hfound Hsplit Hloop Hfail.
  split; [|split; [|split; reflexivity]].
  - unfold refreshDevices.
    rewrite bind_get. rewrite Hlogged.
    rewrite (bind_done _ _ _ _ _ Hvalid). cbn [negb].
    rewrite (bind_done _ _ _ _ _ Hfound). cbn [negb].
    rewrite bind_get. rewrite Hsplit.
    rewrite (bind_done _ _ _ _ _ (timer_collectDevices_failure _ _ _ _ _ _ _ _ Hloop Hfail)).
    reflexivity.
  - cbn [invalidate withAccounts withAccessToken devices].
    pose proof (timer_retrieve_keeps_devices (devicesEndpoint accountId) cm) as H1.
    pose proof (timer_collectDevices_keeps_devices before [] cb) as H2.
    pose proof (timer_getAccounts_keeps_devices ca) as H3.
    pose proof (timer_refreshAccessToken_keeps_devices c) as H4.
    rewrite Hfail in H1. rewrite Hloop in H2. rewrite Hfound in H3. rewrite Hvalid in H4.
    cbn [snd] in *. congruence.
Qed.

(** Only a refresh that returns true replaces the snapshot. *)
Lemma timer_refreshDevices_no_partial c :
  fst (refreshDevices pf c) = Done true \/
  devices (snd (refreshDevices pf c)) = devices c.
Proof.
  unfold refreshDevices.
  rewrite bind_get.
  destruct (notLoggedIn c); [now right|].
  pose proof (timer_refreshAccessToken_keeps_devices c) as H1.
  destruct (refreshAccessToken pf c) as [[valid|] ca] eqn:Hvalid; cbn [snd] in H1;
    [rewrite (bind_done _ _ _ _ _ Hvalid)|rewrite (bind_throw _ _ _ _ Hvalid); right; cbn [snd]; congruence].
  destruct valid; cbn [negb]; [|now right].
  pose proof (timer_getAccounts_keeps_devices ca) as H2.
  destruct (getAccounts pf ca) as [[found|] cb] eqn:Hfound; cbn [snd] in H2;
    [rewrite (bind_done _ _ _ _ _ Hfound)|rewrite (bind_throw _ _ _ _ Hfound); right; cbn [snd]; congruence].
  destruct found; cbn [negb]; [|right; cbn; congruence].
  rewrite bind_get.
  pose proof (timer_collectDevices_keeps_devices (accounts cb) [] cb) as H3.
  destruct (collectDevices pf (accounts cb) [] cb) as [[collected|] cc] eqn:Hloop;
    cbn [snd] in H3;
    [rewrite (bind_done _ _ _ _ _ Hloop)|rewrite (bind_throw _ _ _ _ Hloop); right; cbn [snd]; congruence].
  destruct collected; [now left|right; cbn; congruence].
Qed.

End WithPlatform.

End TimerFacts.

Module ThrottleFacts.

Import ThrottleRev.

Section WithPlatform.

Variable pf : Platform.

Lemma throttle_retrieve_keeps {X : Type} (f : Client -> X) (u : URL) :
  (forall e c, f (withExec e c) = f c) -> keeps f (this_retrieve pf u).
Proof.
  intros H c. unfold this_retrieve.
  destruct (retrieve _ _ _ _ _ _) as [r e']. apply H.
Qed.

Lemma throttle_retrieve_keeps_devices u : keeps devices (this_retrieve pf u).
Proof. now apply throttle_retrieve_keeps. Qed.

Lemma throttle_trimSetCookie_keeps_devices cookies : keeps devices (trimSetCookie cookies).
Proof. unfold trimSetCookie. frame. Qed.

Hint Resolve throttle_retrieve_keeps_devices throttle_trimSetCookie_keeps_devices : frame.

Lemma throttle_getAccounts_keeps_devices : keeps devices (getAccounts pf).
Proof. unfold getAccounts. frame. Qed.

Hint Resolve throttle_getAccounts_keeps_devices : frame.

Lemma throttle_oauthGetAuthPage_keeps_devices challenge :
  keeps devices (oauthGetAuthPage pf challenge).
Proof. unfold oauthGetAuthPage. frame. Qed.

Lemma throttle_oauthLogin_keeps_devices page : keeps devices (oauthLogin pf page).
Proof. unfold oauthLogin. frame. Qed.

Lemma throttle_oauthRedirect_keeps_devices response :
  keeps devices (oauthRedirect pf response).
Proof. unfold oauthRedirect. frame. Qed.

Hint Resolve throttle_oauthGetAuthPage_keeps_devices throttle_oauthLogin_keeps_devices
  throttle_oauthRedirect_keeps_devices : frame.

Lemma throttle_getOAuthToken_keeps_devices : keeps devices (getOAuthToken pf).
Proof. unfold getOAuthToken. frame. Qed.

Lemma throttle_refreshOAuthToken_keeps_devices : keeps devices (refreshOAuthToken pf).
Proof. unfold refreshOAuthToken. frame. Qed.

Hint Resolve throttle_getOAuthToken_keeps_devices throttle_refreshOAuthToken_keeps_devices
  : frame.

Lemma throttle_acquireAccessToken_keeps_devices : keeps devices (acquireAccessToken pf).
Proof. unfold acquireAccessToken, invalidate. frame. Qed.

Hint Resolve throttle_acquireAccessToken_keeps_devices : frame.

Lemma throttle_refreshAccessToken_keeps_devices : keeps devices (refreshAccessToken pf).
Proof. unfold refreshAccessToken. frame. Qed.

Lemma throttle_collectDevices_keeps_devices ids acc :
  keeps devices (collectDevices pf ids acc).
Proof.
  revert acc. induction ids as [|accountId rest IH]; intros acc; cbn [collectDevices];
    unfold invalidate; frame.
Qed.

Lemma throttle_retrieve_done u c :
  exists response c', this_retrieve pf u c = (Done response, c').
Proof.
  unfold this_retrieve. destruct (retrieve _ _ _ _ _ _) as [r e']. eauto.
Qed.

(** The loop fails at the first account whose request fails. *)
Lemma throttle_collectDevices_failure before accountId after :
  forall acc c collected cm cf,
    collectDevices pf before acc c = (Done (Some collected), cm) ->
    this_retrieve pf (devicesEndpoint accountId) cm = (Done None, cf) ->
    collectDevices pf (before ++ accountId :: after) acc c = (Done None, invalidate cf).
Proof.
  induction before as [|first before IH]; intros acc c collected cm cf Hloop Hfail.
  - cbn in Hloop. inversion Hloop; subst.
    cbn [app collectDevices]. rewrite (bind_done _ _ _ _ _ Hfail). reflexivity.
  - cbn [app collectDevices] in *.
    destruct (throttle_retrieve_done (devicesEndpoint first) c) as (response & c1 & Hfirst).
    rewrite (bind_done _ _ _ _ _ Hfirst) in Hloop.
    rewrite (bind_done _ _ _ _ _ Hfirst).
    destruct response as [response|]; [|unfold bind, modify, ret in Hloop; discriminate].
    destruct (body response); try (unfold throw in Hloop; discriminate).
    now apply (IH _ _ _ _ _ Hloop).
Qed.

Lemma throttle_refreshDevices_failure c ca cb before accountId after collected cm cf :
  notLoggedIn c = false ->
  refreshThrottled c = false ->
  refreshAccessToken pf (withLastRefreshDevicesCall (Some (now c)) c) = (Done true, ca) ->
  getAccounts pf ca = (Done true, cb) ->
  accounts cb = (before ++ accountId :: after)%list ->
  collectDevices pf before [] cb = (Done (Some collected), cm) ->
  this_retrieve pf (devicesEndpoint accountId) cm = (Done None, cf) ->
  refreshDevices pf c = (Done false, invalidate cf) /\
  devices (invalidate cf) = devices c /\
  accessToken (invalidate cf) = None /\
  accounts (invalidate cf) = [].
Proof.
  intros Hlogged Hopen Hvalid Hfound Hsplit Hloop Hfail.
  split; [|split; [|split; reflexivity]].
  - unfold refreshDevices.
    rewrite bind_get. rewrite Hlogged. cbv zeta. rewrite Hopen.
    rewrite bind_modify.
    rewrite (bind_done _ _ _ _ _ Hvalid). cbn [negb].
    rewrite (bind_done _ _ _ _ _ Hfound). cbn [negb].
    rewrite bind_get. rewrite Hsplit.
    rewrite (bind_done _ _ _ _ _ (throttle_collectDevices_failure _ _ _ _ _ _ _ _ Hloop Hfail)).
    reflexivity.
  - cbn [invalidate withAccounts withAccessToken devices].
    pose proof (throttle_retrieve_keeps_devices (devicesEndpoint accountId) cm) as H1.
    pose proof (throttle_collectDevices_keeps_devices before [] cb) as H2.
    pose proof (throttle_getAccounts_keeps_devices ca) as H3.
    pose proof (throttle_refreshAccessToken_keeps_devices
                  (withLastRefreshDevicesCall (Some (now c)) c)) as H4.
    rewrite Hfail in H1. rewrite Hloop in H2. rewrite Hfound in H3. rewrite Hvalid in H4.
    cbn [snd] in *. cbn [withLastRefreshDevicesCall devices] in H4. congruence.
Qed.

(** Only a refresh that returns true replaces the snapshot. *)
Lemma throttle_refreshDevices_no_partial c :
  fst (refreshDevices pf c) = Done true \/
  devices (snd (refreshDevices pf c)) = devices c.
Proof.
  unfold refreshDevices.
  rewrite bind_get.
  destruct (notLoggedIn c); [now right|]. cbv zeta.
  destruct (refreshThrottled c); [now right|].
  rewrite bind_modify.
  pose proof (throttle_refreshAccessToken_keeps_devices
                (withLastRefreshDevicesCall (Some (now c)) c)) as H1.
  cbn [withLastRefreshDevicesCall devices] in H1.
  destruct (refreshAccessToken pf _) as [[valid|] ca] eqn:Hvalid; cbn [snd] in H1;
    [rewrite (bind_done _ _ _ _ _ Hvalid)
    |rewrite (bind_throw _ _ _ _ Hvalid); right; cbn [snd]; congruence].
  destruct valid; cbn [negb]; [|now right].
  pose proof (throttle_getAccounts_keeps_devices ca) as H2.
  destruct (getAccounts pf ca) as [[found|] cb] eqn:Hfound; cbn [snd] in H2;
    [rewrite (bind_done _ _ _ _ _ Hfound)
    |rewrite (bind_throw _ _ _ _ Hfound); right; cbn [snd]; congruence].
  destruct found; cbn [negb]; [|right; cbn; congruence].
  rewrite bind_get.
  pose proof (throttle_collectDevices_keeps_devices (accounts cb) [] cb) as H3.
  destruct (collectDevices pf (accounts cb) [] cb) as [[collected|] cc] eqn:Hloop;
    cbn [snd] in H3;
    [rewrite (bind_done _ _ _ _ _ Hloop)
    |rewrite (bind_throw _ _ _ _ Hloop); right; cbn [snd]; congruence].
  destruct collected; [now left|right; cbn; congruence].
Qed.

End WithPlatform.

End ThrottleFacts.

(** ** Device refresh *)



(** ** Commands and the last observed status *)

Lemma retrieve_status codes net u d e result e' :
  retrieve codes net u d 0 e = (result, e') ->
  exists earlier a,
    issued e e' = (earlier ++ [a])%list /\
    apiReturnStatus e' = statusOf (attemptOutcome a).
Proof.
  intros Hret.
  destruct (retrieve_run _ _ _ _ _ _ _ _ Hret) as (attempts & Hrun & Hw).
  rewrite (issued_app _ _ _ Hw).
  destruct (run_last _ _ _ _ _ _ _ _ _ Hrun) as (earlier & z & Hsplit & _ & Hstatus & _).
  now exists earlier, z.
Qed.

Lemma timer_execute_failure pf device command c c1 c2 :
  TimerRev.notLoggedIn c = false ->
  TimerRev.refreshAccessToken pf c = (Done true, c1) ->
  TimerRev.this_retrieve pf (TimerRev.commandEndpoint device command) c1 = (Done None, c2) ->
  TimerRev.execute pf device command c
  = (Done false,
     if (apiReturnStatus (TimerRev.exec c2) =? 403)%Z then c2 else TimerRev.invalidate c2) /\
  TimerRev.accessToken c2 = TimerRev.accessToken c1 /\
  TimerRev.accounts c2 = TimerRev.accounts c1.
Proof.
  intros Hlogged Hvalid Hfail. split.
  - unfold TimerRev.execute. rewrite bind_get, Hlogged.
    rewrite (bind_done _ _ _ _ _ Hvalid). cbn [negb].
    rewrite (bind_done _ _ _ _ _ Hfail). rewrite bind_get.
    now destruct (apiReturnStatus (TimerRev.exec c2) =? 403)%Z.
  - pose proof (TimerFacts.timer_retrieve_keeps pf TimerRev.accessToken
                  (TimerRev.commandEndpoint device command) (fun _ _ => eq_refl) c1) as H1.
    pose proof (TimerFacts.timer_retrieve_keeps pf TimerRev.accounts
                  (TimerRev.commandEndpoint device command) (fun _ _ => eq_refl) c1) as H2.
    rewrite Hfail in H1, H2. now split.
Qed.

Lemma throttle_execute_failure pf device command c c1 c2 :
  ThrottleRev.notLoggedIn c = false ->
  ThrottleRev.refreshAccessToken pf c = (Done true, c1) ->
  ThrottleRev.this_retrieve pf (ThrottleRev.commandEndpoint device command) c1
  = (Done None, c2) ->
  ThrottleRev.execute pf device command c
  = (Done false,
     if (apiReturnStatus (ThrottleRev.exec c2) =? 403)%Z then c2
     else ThrottleRev.invalidate c2) /\
  ThrottleRev.accessToken c2 = ThrottleRev.accessToken c1 /\
  ThrottleRev.accounts c2 = ThrottleRev.accounts c1.
Proof.
  intros Hlogged Hvalid Hfail. split.
  - unfold ThrottleRev.execute. rewrite bind_get, Hlogged.
    rewrite (bind_done _ _ _ _ _ Hvalid). cbn [negb].
    rewrite (bind_done _ _ _ _ _ Hfail). rewrite bind_get.
    now destruct (apiReturnStatus (ThrottleRev.exec c2) =? 403)%Z.
  - pose proof (ThrottleFacts.throttle_retrieve_keeps pf ThrottleRev.accessToken
                  (ThrottleRev.commandEndpoint device command) (fun _ _ => eq_refl) c1) as H1.
    pose proof (ThrottleFacts.throttle_retrieve_keeps pf ThrottleRev.accounts
                  (ThrottleRev.commandEndpoint device command) (fun _ _ => eq_refl) c1) as H2.
    rewrite Hfail in H1, H2. now split.
Qed.



(** ** Network traffic *)

Lemma extends_ret {S A : Type} (w : S -> list Attempt) (a : A) : extends w (ret a).
Proof. intros s. exists []. cbn. now rewrite app_nil_r. Qed.

Lemma extends_throw {S A : Type} (w : S -> list Attempt) : extends w (@throw S A).
Proof. intros s. exists []. cbn. now rewrite app_nil_r. Qed.

Lemma extends_get {S : Type} (w : S -> list Attempt) : extends w get.
Proof. intros s. exists []. cbn. now rewrite app_nil_r. Qed.

Lemma extends_modify {S : Type} (w : S -> list Attempt) (g : S -> S) :
  (forall s, w (g s) = w s) -> extends w (modify g).
Proof. intros H s. exists []. cbn. now rewrite H, app_nil_r. Qed.

Lemma extends_bind {S A B : Type} (w : S -> list Attempt) (m : M S A) (k : A -> M S B) :
  extends w m -> (forall a, extends w (k a)) -> extends w (bind m k).
Proof.
  intros Hm Hk s. unfold bind. destruct (Hm s) as (more & Hmore).
  destruct (m s) as [[a|] s']; cbn [snd] in *; [|now exists more].
  destruct (Hk a s') as (more' & Hmore').
  exists (more ++ more')%list. now rewrite Hmore', Hmore, app_assoc.
Qed.

Lemma sends_extends {S A : Type} (w : S -> list Attempt) (m : M S A) :
  sends w m -> extends w m.
Proof. intros H s. destruct (H s) as (a & more & Hs). now exists (a :: more). Qed.

Lemma sends_first {S A B : Type} (w : S -> list Attempt) (m : M S A) (k : A -> M S B) :
  sends w m -> (forall a, extends w (k a)) -> sends w (bind m k).
Proof.
  intros Hm Hk s. unfold bind. destruct (Hm s) as (x & more & Hmore).
  destruct (m s) as [[a|] s']; cbn [snd] in *; [|now exists x, more].
  destruct (Hk a s') as (more' & Hmore').
  exists x, (more ++ more')%list. now rewrite Hmore', Hmore, <- app_assoc.
Qed.

Lemma sends_later {S A B : Type} (w : S -> list Attempt) (m : M S A) (k : A -> M S B) :
  (forall s, exists a s', m s = (Done a, s') /\ w s' = w s) ->
  (forall a, sends w (k a)) -> sends w (bind m k).
Proof.
  intros Hm Hk s. destruct (Hm s) as (a & s' & Ha & Hw).
  rewrite (bind_done _ _ _ _ _ Ha), <- Hw. apply Hk.
Qed.

(** [get] and a [modify] that leaves the log alone settle without traffic. *)
Ltac quiet :=
  intros ?s; do 2 eexists; split; [reflexivity|];
  cbn; repeat match goal with
              | |- context [match ?x with _ => _ end] => destruct x
              end; reflexivity.

Lemma retrieve_sends codes net u d e :
  exists a more, wire (snd (retrieve codes net u d 0 e)) = (wire e ++ a :: more)%list.
Proof.
  destruct (retrieve codes net u d 0 e) as [result e'] eqn:Hret.
  destruct (retrieve_run _ _ _ _ _ _ _ _ Hret) as (attempts & Hrun & Hw).
  pose proof (run_length _ _ _ _ _ _ _ _ _ Hrun (Nat.le_0_l 3)) as Hlen.
  destruct attempts as [|a more]; [cbn in Hlen; lia|]. now exists a, more.
Qed.

Create HintDb traffic.

(** Growth of the request log by following the structure of the method. *)
Ltac grow :=
  repeat first
    [ apply extends_ret
    | apply extends_throw
    | apply extends_get
    | solve [ auto with traffic ]
    | apply extends_bind; [|intro]
    | apply extends_modify; intro;
      repeat match goal with
             | |- context [if ?b then _ else _] => destruct b
             | |- context [match ?x with _ => _ end] => destruct x
             end; reflexivity
    | match goal with
      | |- extends _ (if ?b then _ else _) => destruct b
      | |- extends _ (match ?x with _ => _ end) => destruct x
      end ].

Module TimerTraffic.

Import TimerRev.

Section WithPlatform.

Variable pf : Platform.

Lemma timer_retrieve_sends u : sends log (this_retrieve pf u).
Proof.
  intros c. unfold this_retrieve, log.
  destruct (retrieve_sends serverSideCodes (network pf) u true (exec c)) as (a & more & H).
  destruct (retrieve _ _ _ _ _ _) as [r e']. now exists a, more.
Qed.

Lemma timer_retrieve_extends u : extends log (this_retrieve pf u).
Proof. apply sends_extends, timer_retrieve_sends. Qed.

Hint Resolve timer_retrieve_extends : traffic.

Lemma timer_getAccounts_extends : extends log (getAccounts pf).
Proof. unfold getAccounts. grow. Qed.

Lemma timer_setTokenRefreshTimer_extends amount : extends log (setTokenRefreshTimer amount).
Proof. unfold setTokenRefreshTimer, clearRefreshTimer. grow. Qed.

Lemma timer_oauthLogin_extends page : extends log (oauthLogin pf page).
Proof. unfold oauthLogin. grow. Qed.

Lemma timer_oauthRedirect_extends response : extends log (oauthRedirect pf response).
Proof. unfold oauthRedirect. grow. Qed.

Hint Resolve timer_getAccounts_extends timer_setTokenRefreshTimer_extends
  timer_oauthLogin_extends timer_oauthRedirect_extends : traffic.

Lemma timer_oauthGetAuthPage_sends challenge : sends log (oauthGetAuthPage pf challenge).
Proof.
  unfold oauthGetAuthPage. apply sends_first; [apply timer_retrieve_sends|]. intro. grow.
Qed.

Lemma timer_getOAuthToken_sends : sends log (getOAuthToken pf).
Proof.
  unfold getOAuthToken.
  apply sends_later; [unfold clearRefreshTimer, invalidate; quiet|intros _].
  apply sends_later; [quiet|intros c].
  apply sends_first; [apply timer_oauthGetAuthPage_sends|]. intro. grow.
Qed.

Lemma timer_refreshOAuthToken_sends : sends log (refreshOAuthToken pf).
Proof.
  unfold refreshOAuthToken. apply sends_first; [apply timer_retrieve_sends|]. intro. grow.
Qed.

Lemma timer_acquireAccessToken_sends : sends log (acquireAccessToken pf).
Proof.
  unfold acquireAccessToken.
  apply sends_later; [unfold clearRefreshTimer, invalidate; quiet|intros _].
  apply sends_first; [apply timer_getOAuthToken_sends|]. intro. unfold invalidate. grow.
Qed.

Lemma timer_acquireAccessToken_extends : extends log (acquireAccessToken pf).
Proof. apply sends_extends, timer_acquireAccessToken_sends. Qed.

Hint Resolve timer_acquireAccessToken_extends : traffic.

Lemma timer_refreshAccessToken_sends : sends log (refreshAccessToken pf).
Proof.
  unfold refreshAccessToken.
  apply sends_later; [quiet|intros c].
  destruct (_ || _); [apply timer_acquireAccessToken_sends|].
  apply sends_first; [apply timer_refreshOAuthToken_sends|]. intro. grow.
Qed.

Lemma timer_collectDevices_extends ids acc : extends log (collectDevices pf ids acc).
Proof.
  revert acc. induction ids as [|accountId rest IH]; intros acc; cbn [collectDevices];
    unfold invalidate; grow.
Qed.

Hint Resolve timer_collectDevices_extends : traffic.

Lemma timer_refreshDevices_sends c :
  notLoggedIn c = false ->
  exists a more, log (snd (refreshDevices pf c)) = (log c ++ a :: more)%list.
Proof.
  intros Hlogged. unfold refreshDevices. rewrite bind_get, Hlogged.
  apply sends_first; [apply timer_refreshAccessToken_sends|]. intro. unfold invalidate. grow.
Qed.

End WithPlatform.

End TimerTraffic.

(** ** Cooldowns and staleness *)

(** C4 fails in the revision with [refreshTimer]: there a
    [refreshAccessToken] call made 90 ms after a login that
    succeeded goes to the network (8 requests here, the cloud being down by
    then) and returns false, although the token was present and the account
    list non-empty. *)
Lemma refreshAccessToken_cooldown_counterexample :
  let pf := Scenario.timerCloud in
  let c := Scenario.timerLoggedIn pf in
  let run := TimerRev.refreshAccessToken pf c in
  (clock (TimerRev.exec c) - Scenario.start < 2 * 60 * 1000)%Z /\
  TimerRev.accessToken c = Some "Bearer AT" /\
  TimerRev.accounts c = [ "a1"; "a2" ] /\
  List.length (issued (TimerRev.exec c) (TimerRev.exec (snd run))) = 8 /\
  fst run = Done false.
Proof. vm_compute. repeat split; reflexivity. Qed.

(** C4, amended.  In the revision that records [lastAuthenticateCall], a
    [refreshAccessToken] call made less than two minutes after the time
    recorded there changes nothing, sends nothing, and returns true exactly
    when the account list is non-empty and the access token is truthy, that
    is (no stored token being the empty string) present.  The same call
    made less than two minutes after a token refresh, with a usable session
    and the interval at its floor or above, also changes nothing and returns
    true.  In the revision with [refreshTimer] every [refreshAccessToken]
    call sends a request. *)
Theorem refreshAccessToken_cooldown :
  (forall (pf : Platform) (c : ThrottleRev.Client) (t : Z),
     ThrottleRev.lastAuthenticateCall c = Some t ->
     (ThrottleRev.now c - t < 2 * 60 * 1000)%Z ->
     ThrottleRev.refreshAccessToken pf c = (Done (ThrottleRev.sessionUsable c), c) /\
     issued (ThrottleRev.exec c)
       (ThrottleRev.exec (snd (ThrottleRev.refreshAccessToken pf c))) = [] /\
     (ThrottleRev.accessToken c <> Some "" ->
      (ThrottleRev.sessionUsable c = true <->
       ThrottleRev.accessToken c <> None /\ ThrottleRev.accounts c <> []))) /\
  (forall (pf : Platform) (c : ThrottleRev.Client) (t : Z),
     ThrottleRev.sessionUsable c = true ->
     ThrottleRev.accessTokenTimestamp c = Some t ->
     (ThrottleRev.now c - t < 2 * 60 * 1000)%Z ->
     (300 <= ThrottleRev.refreshInterval c)%Z ->
     ThrottleRev.refreshAccessToken pf c = (Done true, c)) /\
  (forall (pf : Platform) (c : TimerRev.Client),
     issued (TimerRev.exec c) (TimerRev.exec (snd (TimerRev.refreshAccessToken pf c))) <> []).
Proof.
  split; [|split].
  - intros pf c t Hlast Hnow.
    assert (Hrun : ThrottleRev.refreshAccessToken pf c
                   = (Done (ThrottleRev.sessionUsable c), c)).
    { unfold ThrottleRev.refreshAccessToken. rewrite bind_get. cbv zeta.
      rewrite Hlast. cbn [ThrottleRev.elapsedUnder].
      apply Z.ltb_lt in Hnow. now rewrite Hnow. }
    split; [exact Hrun|]. split.
    + rewrite Hrun. cbn [snd]. unfold issued. apply skipn_all.
    + intros Hne. unfold ThrottleRev.sessionUsable.
      destruct (ThrottleRev.accounts c) as [|a l], (ThrottleRev.accessToken c) as [tok|];
        cbn; try (split; [discriminate|intros [? ?]; congruence]).
      destruct (String.eqb_spec tok ""); [subst; congruence|].
      cbn. split; [intros _; split; discriminate|reflexivity].
  - intros pf c t Husable Hstamp Hnow Hfloor.
    unfold ThrottleRev.refreshAccessToken. rewrite bind_get. cbv zeta.
    destruct (ThrottleRev.elapsedUnder _ _ _); [now rewrite Husable|].
    unfold ThrottleRev.sessionUsable in Husable.
    apply andb_true_iff in Husable as [Hacc Htok]. apply negb_true_iff in Hacc.
    rewrite Hacc, Htok, Hstamp. cbn [orb negb].
    assert (Hfresh : (ThrottleRev.now c - t <? ThrottleRev.refreshInterval c * 1000)%Z = true)
      by (apply Z.ltb_lt; lia).
    now rewrite Hfresh.
  - intros pf c.
    destruct (TimerTraffic.timer_refreshAccessToken_sends pf c) as (a & more & H).
    unfold TimerRev.log in H. rewrite (issued_app _ _ _ H). discriminate.
Qed.

(** C4 amended, on a call made 30 s after a login. *)
Lemma refreshAccessToken_cooldown_witness :
  let pf := Scenario.throttleCloud in
  let c := Scenario.throttleLater 30000 (Scenario.throttleLoggedIn pf) in
  ThrottleRev.lastAuthenticateCall c = Some Scenario.start /\
  (ThrottleRev.now c - Scenario.start < 2 * 60 * 1000)%Z /\
  ThrottleRev.refreshAccessToken pf c = (Done true, c).
Proof.
  intros pf c.
  assert (H1 : ThrottleRev.lastAuthenticateCall c = Some Scenario.start) by reflexivity.
  assert (H2 : (ThrottleRev.now c - Scenario.start < 2 * 60 * 1000)%Z) by reflexivity.
  split; [exact H1|]. split; [exact H2|].
  exact (proj1 (proj1 refreshAccessToken_cooldown pf c Scenario.start H1 H2)).
Defined.

(** C7 fails in the revision with [refreshTimer]: there a [refreshDevices]
    call made 90 ms after the one of a login that succeeded goes to the
    network (8 requests here, the cloud being down by then) and returns
    false although a device list exists. *)
Lemma refreshDevices_cooldown_counterexample :
  let pf := Scenario.timerCloud in
  let c := Scenario.timerLoggedIn pf in
  let run := TimerRev.refreshDevices pf c in
  (clock (TimerRev.exec c) - Scenario.start < 2 * 1000)%Z /\
  TimerRev.devices c = Some [ Scenario.door; Scenario.lamp ] /\
  List.length (issued (TimerRev.exec c) (TimerRev.exec (snd run))) = 8 /\
  fst run = Done false.
Proof. vm_compute. repeat split; reflexivity. Qed.

(** C7, amended.  In the revision that records [lastRefreshDevicesCall], a
    [refreshDevices] call on a logged-in client made less than two seconds
    after the (non-zero) time recorded there, which is the time of the last
    call that was not itself throttled, changes nothing, sends nothing, and
    returns true exactly when a device list exists.  In the revision with
    [refreshTimer] every [refreshDevices] call on a logged-in client sends a
    request. *)
Theorem refreshDevices_cooldown :
  (forall (pf : Platform) (c : ThrottleRev.Client) (t : Z),
     ThrottleRev.notLoggedIn c = false ->
     ThrottleRev.lastRefreshDevicesCall c = Some t ->
     t <> 0%Z ->
     (ThrottleRev.now c - t < 2 * 1000)%Z ->
     ThrottleRev.refreshDevices pf c = (Done (ThrottleRev.hasDevices c), c) /\
     issued (ThrottleRev.exec c)
       (ThrottleRev.exec (snd (ThrottleRev.refreshDevices pf c))) = [] /\
     ThrottleRev.devices (snd (ThrottleRev.refreshDevices pf c)) = ThrottleRev.devices c /\
     (ThrottleRev.hasDevices c = true <-> ThrottleRev.devices c <> None)) /\
  (forall (pf : Platform) (c : TimerRev.Client),
     TimerRev.notLoggedIn c = false ->
     issued (TimerRev.exec c) (TimerRev.exec (snd (TimerRev.refreshDevices pf c))) <> []).
Proof.
  split.
  - intros pf c t Hlogged Hlast Hnz Hnow.
    assert (Hrun : ThrottleRev.refreshDevices pf c = (Done (ThrottleRev.hasDevices c), c)).
    { unfold ThrottleRev.refreshDevices. rewrite bind_get, Hlogged. cbv zeta.
      unfold ThrottleRev.refreshThrottled. rewrite Hlast.
      cbn [Js.truthyNum ThrottleRev.elapsedUnder].
      apply Z.ltb_lt in Hnow. apply Z.eqb_neq in Hnz. now rewrite Hnow, Hnz. }
    split; [exact Hrun|]. rewrite Hrun. cbn [snd].
    split; [unfold issued; apply skipn_all|]. split; [reflexivity|].
    unfold ThrottleRev.hasDevices. destruct (ThrottleRev.devices c);
      split; congruence || discriminate.
  - intros pf c Hlogged.
    destruct (TimerTraffic.timer_refreshDevices_sends pf c Hlogged) as (a & more & H).
    unfold TimerRev.log in H. rewrite (issued_app _ _ _ H). discriminate.
Qed.

(** C7 amended, on a call made 1.5 s after the refresh of a login. *)
Lemma refreshDevices_cooldown_witness :
  let pf := Scenario.throttleCloud in
  let c := Scenario.throttleLater 1420 (Scenario.throttleLoggedIn pf) in
  ThrottleRev.notLoggedIn c = false /\
  ThrottleRev.lastRefreshDevicesCall c = Some Scenario.start /\
  Scenario.start <> 0%Z /\
  (ThrottleRev.now c - Scenario.start < 2 * 1000)%Z /\
  ThrottleRev.refreshDevices pf c = (Done true, c).
Proof.
  intros pf c.
  assert (H1 : ThrottleRev.notLoggedIn c = false) by reflexivity.
  assert (H2 : ThrottleRev.lastRefreshDevicesCall c = Some Scenario.start) by reflexivity.
  assert (H3 : Scenario.start <> 0%Z) by discriminate.
  assert (H4 : (ThrottleRev.now c - Scenario.start < 2 * 1000)%Z) by reflexivity.
  repeat (split; [assumption|]).
  exact (proj1 (proj1 refreshDevices_cooldown pf c Scenario.start H1 H2 H3 H4)).
Defined.

(** C8 fails in the revision with [refreshTimer]: there [getDevice] hands
    out a device from a snapshot taken an hour earlier. *)
Lemma getDevice_stale_counterexample :
  let c := Scenario.timerLoggedIn Scenario.timerCloud in
  let c' := Scenario.timerLater (60 * 60 * 1000) c in
  (clock (TimerRev.exec c') - Scenario.start > 60 * 1000)%Z /\
  List.length (wire (TimerRev.exec c')) = List.length (wire (TimerRev.exec c)) /\
  TimerRev.getDevice "cg0800000001" c' = Some Scenario.door.
Proof. vm_compute. repeat split; reflexivity. Qed.

(** C8, amended.  In the revision that records [lastRefreshDevicesCall],
    [getDevice] returns null when there is no device list, or when the time
    recorded there (that of the last [refreshDevices] call that was not
    throttled) is more than 60 seconds back.  In the revision with
    [refreshTimer], which keeps no such time, it returns null when there is
    no device list, and its answer does not depend on the clock. *)
Theorem getDevice_stale :
  (forall (serial : string) (c : ThrottleRev.Client),
     ThrottleRev.devices c = None \/
     (exists t, ThrottleRev.lastRefreshDevicesCall c = Some t /\
                (ThrottleRev.now c - t > 60 * 1000)%Z) ->
     ThrottleRev.getDevice serial c = None) /\
  (forall (serial : string) (c : TimerRev.Client),
     TimerRev.devices c = None -> TimerRev.getDevice serial c = None) /\
  (forall (serial : string) (c : TimerRev.Client) (e : Executor),
     TimerRev.getDevice serial (TimerRev.withExec e c) = TimerRev.getDevice serial c).
Proof.
  split; [|split].
  - intros serial c H. unfold ThrottleRev.getDevice.
    destruct (ThrottleRev.notLoggedIn c); [reflexivity|].
    assert (Hstale : ThrottleRev.snapshotStale c = true); [|now rewrite Hstale].
    unfold ThrottleRev.snapshotStale, ThrottleRev.hasDevices.
    destruct H as [-> | (t & -> & Ht)]; [reflexivity|].
    cbn [ThrottleRev.elapsedOver]. apply Z.gtb_gt in Ht. rewrite Ht.
    now rewrite !orb_true_r.
  - intros serial c H. unfold TimerRev.getDevice. rewrite H.
    now destruct (TimerRev.notLoggedIn c).
  - reflexivity.
Qed.

(** C8 amended, on a lookup made an hour after the refresh of a login. *)
Lemma getDevice_stale_witness :
  let c := Scenario.throttleLater (60 * 60 * 1000)
             (Scenario.throttleLoggedIn Scenario.throttleCloud) in
  ThrottleRev.devices c = Some [ Scenario.door; Scenario.lamp ] /\
  ThrottleRev.lastRefreshDevicesCall c = Some Scenario.start /\
  (ThrottleRev.now c - Scenario.start > 60 * 1000)%Z /\
  ThrottleRev.getDevice "cg0800000001" c = None.
Proof.
  intros c.
  assert (H1 : ThrottleRev.lastRefreshDevicesCall c = Some Scenario.start) by reflexivity.
  assert (H2 : (ThrottleRev.now c - Scenario.start > 60 * 1000)%Z) by reflexivity.
  split; [reflexivity|]. split; [exact H1|]. split; [exact H2|].
  apply (proj1 getDevice_stale "cg0800000001" c).
  right. exists Scenario.start. now split.
Defined.

(** ** Token refresh interval *)

Lemma verdict_return_some codes d o response :
  verdictOf codes d o = Return (Some response) -> o = Resolved response.
Proof.
  destruct o as [r|error]; cbn [verdictOf].
  - unfold classify.
    repeat match goal with |- context [if ?b then _ else _] => destruct b end;
      intros H; inversion H; reflexivity.
  - destruct error; cbn [catchError];
      repeat match goal with |- context [if ?b then _ else _] => destruct b end;
      discriminate.
Qed.

Lemma retrieve_delivers codes net u d e response e' :
  retrieve codes net u d 0 e = (Some response, e') ->
  exists a earlier, rev (wire e') = a :: earlier /\ attemptOutcome a = Resolved response.
Proof.
  intros Hret.
  destruct (retrieve_run _ _ _ _ _ _ _ _ Hret) as (attempts & Hrun & Hw).
  destruct (run_last _ _ _ _ _ _ _ _ _ Hrun) as (earlier & z & Hsplit & _ & _ & _ & Hz).
  exists z, (rev (wire e ++ earlier)). split.
  - rewrite Hw, Hsplit, app_assoc, rev_app_distr. reflexivity.
  - destruct Hz as [Hz|[_ Hz]]; [|discriminate].
    now apply verdict_return_some in Hz.
Qed.

(** Follow a method that is known to have settled to a value. *)
Ltac step H :=
  cbv beta in H;
  match type of H with
  | bind get _ _ = _ => rewrite bind_get in H
  | bind (modify _) _ _ = _ => rewrite bind_modify in H
  | bind ?m _ ?s = _ =>
      let E := fresh "E" in
      destruct (m s) as [[?|] ?] eqn:E;
      [ rewrite (bind_done _ _ _ _ _ E) in H
      | rewrite (bind_throw _ _ _ _ E) in H; discriminate ]
  | (match ?x with _ => _ end) _ = _ => destruct x eqn:?; try discriminate
  | (if ?b then _ else _) _ = _ => destruct b eqn:?; try discriminate
  | throw _ = _ => discriminate
  | ret _ _ = (Done (Some _), _) => unfold ret in H
  | ret _ _ = (Done true, _) => unfold ret in H
  | ret None _ = (Done (Some _), _) => discriminate
  | ret false _ = (Done true, _) => discriminate
  end.

Lemma throttle_retrieve_token pf u c response c' token :
  ThrottleRev.this_retrieve pf u c = (Done (Some response), c') ->
  body response = TokenJson token ->
  tokenReceived (ThrottleRev.exec c') = Some token.
Proof.
  unfold ThrottleRev.this_retrieve. intros H Hbody.
  destruct (retrieve _ _ _ _ _ _) as [r e'] eqn:Hret. inversion H; subst.
  destruct (retrieve_delivers _ _ _ _ _ _ _ Hret) as (a & earlier & Hrev & Ha).
  unfold tokenReceived. cbn [ThrottleRev.withExec ThrottleRev.exec].
  now rewrite Hrev, Ha, Hbody.
Qed.

Lemma timer_retrieve_token pf u c response c' token :
  TimerRev.this_retrieve pf u c = (Done (Some response), c') ->
  body response = TokenJson token ->
  tokenReceived (TimerRev.exec c') = Some token.
Proof.
  unfold TimerRev.this_retrieve. intros H Hbody.
  destruct (retrieve _ _ _ _ _ _) as [r e'] eqn:Hret. inversion H; subst.
  destruct (retrieve_delivers _ _ _ _ _ _ _ Hret) as (a & earlier & Hrev & Ha).
  unfold tokenReceived. cbn [TimerRev.withExec TimerRev.exec].
  now rewrite Hrev, Ha, Hbody.
Qed.

Lemma floor_interval (expiresIn : Z) :
  (if (expiresIn - 420 <? 300)%Z then 300%Z else (expiresIn - 420)%Z)
  = Z.max (expiresIn - 420) 300.
Proof. destruct (Z.ltb_spec (expiresIn - 420) 300); lia. Qed.

(** Close a goal about the state a token request left behind. *)
Ltac token_received lemma :=
  match goal with
  | E : _ _ tokenEndpoint _ = (Done (Some ?r), _), B : body ?r = TokenJson _ |- _ =>
      pose proof (lemma _ _ _ _ _ _ E B) as Hreceived
  end.

Lemma throttle_getOAuthToken_interval pf c tok c' :
  ThrottleRev.getOAuthToken pf c = (Done (Some tok), c') ->
  exists token,
    tokenReceived (ThrottleRev.exec c') = Some token /\
    ThrottleRev.refreshInterval c' = Z.max (expires_in token - 420) 300.
Proof.
  intros H. unfold ThrottleRev.getOAuthToken in H.
  repeat step H. token_received throttle_retrieve_token.
  inversion H; subst; clear H.
  eexists. split.
  - rewrite <- Hreceived.
    match goal with |- context [if ?b then _ else _] => destruct b end; reflexivity.
  - rewrite <- floor_interval. cbn.
    match goal with |- context [if ?b then _ else _] => destruct b end; reflexivity.
Qed.

Lemma throttle_refreshOAuthToken_interval pf c c' :
  ThrottleRev.refreshOAuthToken pf c = (Done true, c') ->
  exists token,
    tokenReceived (ThrottleRev.exec c') = Some token /\
    ThrottleRev.refreshInterval c' = Z.max (expires_in token - 420) 300.
Proof.
  intros H. unfold ThrottleRev.refreshOAuthToken in H.
  repeat step H. token_received throttle_retrieve_token.
  inversion H; subst; clear H.
  eexists. split.
  - rewrite <- Hreceived.
    match goal with |- context [if ?b then _ else _] => destruct b end; reflexivity.
  - rewrite <- floor_interval. cbn.
    match goal with |- context [if ?b then _ else _] => destruct b end; reflexivity.
Qed.

Lemma timer_getOAuthToken_delay pf c tok c' :
  TimerRev.getOAuthToken pf c = (Done (Some tok), c') ->
  exists token,
    tokenReceived (TimerRev.exec c') = Some token /\
    TimerRev.refreshTimer c' = Some ((expires_in token - 180) * 1000)%Z.
Proof.
  intros H. unfold TimerRev.getOAuthToken, TimerRev.setTokenRefreshTimer in H.
  repeat step H. token_received timer_retrieve_token.
  match goal with
  | E : bind (modify _) _ _ = _ |- _ =>
      rewrite bind_modify in E; unfold modify in E; inversion E; subst; clear E
  end.
  inversion H; subst; clear H.
  eexists. split; [rewrite <- Hreceived|reflexivity].
  cbn [TimerRev.withRefreshTimer TimerRev.exec]. unfold TimerRev.clearRefreshTimer.
  match goal with |- context [match ?x with _ => _ end] => destruct x end; reflexivity.
Qed.

Lemma timer_refreshOAuthToken_delay pf c c' :
  TimerRev.refreshOAuthToken pf c = (Done true, c') ->
  exists token,
    tokenReceived (TimerRev.exec c') = Some token /\
    TimerRev.refreshTimer c' = Some ((expires_in token - 180) * 1000)%Z.
Proof.
  intros H. unfold TimerRev.refreshOAuthToken, TimerRev.setTokenRefreshTimer in H.
  repeat step H. token_received timer_retrieve_token.
  match goal with
  | E : bind (modify _) _ _ = _ |- _ =>
      rewrite bind_modify in E; unfold modify in E; inversion E; subst; clear E
  end.
  inversion H; subst; clear H.
  eexists. split; [rewrite <- Hreceived|reflexivity].
  cbn [TimerRev.withRefreshTimer TimerRev.exec]. unfold TimerRev.clearRefreshTimer.
  match goal with |- context [match ?x with _ => _ end] => destruct x end; reflexivity.
Qed.

(** C6 fails in the revision with [refreshTimer]: after a login that was
    granted a token for 3600 s the refresh is scheduled 3420 s ahead, 180 s
    before expiry and not 420; and after a refresh that was granted a token
    for 100 s it is scheduled 80 s in the past, under no floor. *)
Lemma refresh_interval_counterexample :
  let pf := Scenario.timerCloudShortLived in
  let c := Scenario.timerLoggedIn pf in
  let run := TimerRev.refreshOAuthToken pf (Scenario.timerLater 3420000 c) in
  TimerRev.refreshTimer c = Some 3420000%Z /\
  fst run = Done true /\
  option_map expires_in (tokenReceived (TimerRev.exec (snd run))) = Some 100%Z /\
  TimerRev.refreshTimer (snd run) = Some (-80000)%Z /\
  (-80000 < 300 * 1000)%Z.
Proof. vm_compute. repeat split; reflexivity. Qed.

(** C6, amended.  In the revision that keeps [refreshInterval], after
    [getOAuthToken] has returned a token and after [refreshOAuthToken] has
    returned true, [refreshInterval] is the [expires_in] of the token just
    received minus 420, or 300 if that is smaller, hence at least 300.  In
    the revision with [refreshTimer] the timer is armed with
    [(expires_in - 180) * 1000] milliseconds, whatever its sign. *)
Theorem refresh_interval_floor :
  (forall pf c tok c',
     ThrottleRev.getOAuthToken pf c = (Done (Some tok), c') ->
     exists token,
       tokenReceived (ThrottleRev.exec c') = Some token /\
       ThrottleRev.refreshInterval c' = Z.max (expires_in token - 420) 300 /\
       (300 <= ThrottleRev.refreshInterval c')%Z) /\
  (forall pf c c',
     ThrottleRev.refreshOAuthToken pf c = (Done true, c') ->
     exists token,
       tokenReceived (ThrottleRev.exec c') = Some token /\
       ThrottleRev.refreshInterval c' = Z.max (expires_in token - 420) 300 /\
       (300 <= ThrottleRev.refreshInterval c')%Z) /\
  (forall pf c tok c',
     TimerRev.getOAuthToken pf c = (Done (Some tok), c') ->
     exists token,
       tokenReceived (TimerRev.exec c') = Some token /\
       TimerRev.refreshTimer c' = Some ((expires_in token - 180) * 1000)%Z) /\
  (forall pf c c',
     TimerRev.refreshOAuthToken pf c = (Done true, c') ->
     exists token,
       tokenReceived (TimerRev.exec c') = Some token /\
       TimerRev.refreshTimer c' = Some ((expires_in token - 180) * 1000)%Z).
Proof.
  split; [|split; [|split]].
  - intros pf c tok c' H.
    destruct (throttle_getOAuthToken_interval _ _ _ _ H) as (token & Hr & Hi).
    exists token. repeat split; auto. rewrite Hi. lia.
  - intros pf c c' H.
    destruct (throttle_refreshOAuthToken_interval _ _ _ H) as (token & Hr & Hi).
    exists token. repeat split; auto. rewrite Hi. lia.
  - intros pf c tok c' H. now apply timer_getOAuthToken_delay in H.
  - intros pf c c' H. now apply timer_refreshOAuthToken_delay in H.
Qed.

(** C6 amended, on the token acquisition of a login granted 3600 s, and on
    a refresh granted 100 s. *)
Lemma refresh_interval_floor_witness :
  let pf := Scenario.platform
              (Scenario.scripted (firstn 4 Scenario.throttleLoginScript ++ [ Scenario.granted 100 ])) in
  let c := ThrottleRev.withCredentials (Some "me@example.com") (Some "hunter2")
             (ThrottleRev.new Scenario.start) in
  let acquired := ThrottleRev.getOAuthToken pf c in
  let refreshed := ThrottleRev.refreshOAuthToken pf (snd acquired) in
  acquired = (Done (Some "Bearer AT"), snd acquired) /\
  refreshed = (Done true, snd refreshed) /\
  ThrottleRev.refreshInterval (snd acquired) = 3180%Z /\
  ThrottleRev.refreshInterval (snd refreshed) = 300%Z.
Proof.
  intros pf c acquired refreshed.
  assert (H1 : acquired = (Done (Some "Bearer AT"), snd acquired)) by (vm_compute; reflexivity).
  assert (H2 : refreshed = (Done true, snd refreshed)) by (vm_compute; reflexivity).
  split; [exact H1|]. split; [exact H2|].
  destruct (proj1 refresh_interval_floor pf c _ _ H1) as (t1 & Hr1 & Hi1 & _).
  destruct (proj1 (proj2 refresh_interval_floor) pf _ _ H2) as (t2 & Hr2 & Hi2 & _).
  split.
  - rewrite Hi1. vm_compute in Hr1. inversion Hr1; subst. reflexivity.
  - rewrite Hi2. vm_compute in Hr2. inversion Hr2; subst. reflexivity.
Defined.

(** * Further properties of the request executor *)

(** X1.  Every [retrieve] call puts at least one and at most four requests
    on the wire. *)
Theorem retrieve_request_bounds :
  forall (codes : list Z) (net : Network) (u : URL) (decodeResponse : bool) (e : Executor),
    1 <= List.length (issued e (snd (retrieve codes net u decodeResponse 0 e))) <= 4.
Proof.
  intros codes net u d e.
  destruct (retrieve codes net u d 0 e) as [result e'] eqn:Hret.
  destruct (retrieve_run _ _ _ _ _ _ _ _ Hret) as (attempts & Hrun & Hw).
  cbn [snd]. rewrite (issued_app _ _ _ Hw).
  pose proof (run_length _ _ _ _ _ _ _ _ _ Hrun (Nat.le_0_l 3)). lia.
Qed.

Lemma classify_delivers codes response :
  classify codes true response = Return (Some response) ->
  ok response || isRedirect (status response) = true.
Proof.
  unfold classify. cbn [negb orb].
  destruct (ok response || isRedirect (status response)); [reflexivity|].
  repeat match goal with |- context [if ?b then _ else _] => destruct b end; discriminate.
Qed.

(** X2.  A response that a decoding [retrieve] call returns is the reply to
    the last request of the call, has a status in the 200-299 range or a
    redirect status, and that status is what [apiReturnStatus] holds. *)
Theorem retrieve_returns_success_only :
  forall (codes : list Z) (net : Network) (u : URL) (e : Executor)
         (response : Response) (e' : Executor),
    retrieve codes net u true 0 e = (Some response, e') ->
    ok response || isRedirect (status response) = true /\
    apiReturnStatus e' = status response /\
    exists earlier a,
      issued e e' = (earlier ++ [a])%list /\ attemptOutcome a = Resolved response.
Proof.
  intros codes net u e response e' Hret.
  destruct (retrieve_run _ _ _ _ _ _ _ _ Hret) as (attempts & Hrun & Hw).
  rewrite (issued_app _ _ _ Hw).
  destruct (run_last _ _ _ _ _ _ _ _ _ Hrun)
    as (earlier & z & Hsplit & _ & Hstatus & _ & [Hz|[_ Hz]]); [|discriminate].
  pose proof (verdict_return_some _ _ _ _ Hz) as Ho.
  rewrite Ho in Hz, Hstatus. cbn [verdictOf statusOf] in *.
  split; [now apply (classify_delivers codes)|]. split; [assumption|].
  now exists earlier, z.
Qed.

(** X2 on a call that is refused in the default region and answered in the
    east region. *)
Lemma retrieve_returns_success_only_witness :
  let run := retrieve ThrottleRev.serverSideCodes Cases.eastOnly accountsEndpoint true 0
               Scenario.idle in
  let response := mkResponse 200 (mkURL "https:" "myq-cloud.com" "/" []) None None
                    (AccountJson (Some [ "a1" ])) in
  run = (Some response, snd run) /\
  apiReturnStatus (snd run) = 200%Z /\
  List.length (issued Scenario.idle (snd run)) = 2.
Proof.
  intros run response.
  assert (H : run = (Some response, snd run)) by (vm_compute; reflexivity).
  split; [exact H|].
  destruct (retrieve_returns_success_only _ _ _ _ _ _ H) as (_ & Hstatus & _).
  split; [exact Hstatus|reflexivity].
Defined.

Lemma retrieve_returns_at_once codes net u d isRetry e result e1 :
  attempt codes net u d isRetry e = (Return result, e1) ->
  retrieve codes net u d isRetry e = (result, e1).
Proof.
  intros H. funelim (retrieve codes net u d isRetry e); congruence.
Qed.

(** X3.  When the first request of a [retrieve] call is answered, and the
    call does not decode responses or the status is in the 200-299 range or
    a redirect status, the call returns that response after this single
    request, with the region index as it found it, the status recorded and
    the clock moved by the time the request took. *)
Theorem retrieve_first_attempt_delivers :
  forall (codes : list Z) (net : Network) (u : URL) (decodeResponse : bool)
         (e : Executor) (response : Response),
    outcome (net (List.length (wire e)) (rewriteHostname (region e) u)) = Resolved response ->
    decodeResponse = false \/ ok response = true \/ isRedirect (status response) = true ->
    retrieve codes net u decodeResponse 0 e
    = (Some response,
       mkExecutor (region e) (status response)
         (clock e + elapsed (net (List.length (wire e)) (rewriteHostname (region e) u)))
         (wire e ++ [ mkAttempt (rewriteHostname (region e) u) (region e) 0
                        (Resolved response) ])%list).
Proof.
  intros codes net u d e response Hreply Hok.
  apply retrieve_returns_at_once.
  unfold attempt, myqRetrieve, rewriteHostname in *.
  pose proof (regionalize_first (region e) u) as Hfirst.
  destruct (regionalize 0 (region e) u) as [r' retrieveUrl]. cbn [fst snd] in *. subst r'.
  cbn [withStatus withRegion region apiReturnStatus clock wire].
  rewrite Hreply. unfold classify.
  destruct Hok as [-> | [-> | ->]]; cbn [negb orb]; rewrite ?orb_true_r; reflexivity.
Qed.

(** X3 on an accounts request answered at once. *)
Lemma retrieve_first_attempt_delivers_witness :
  let net := Scenario.scripted [ Scenario.reply 200 (AccountJson (Some [ "a1" ])) ] in
  let run := retrieve TimerRev.serverSideCodes net accountsEndpoint true 0 Scenario.idle in
  List.length (issued Scenario.idle (snd run)) = 1 /\
  region (snd run) = 0 /\
  apiReturnStatus (snd run) = 200%Z /\
  clock (snd run) = (clock Scenario.idle + 10)%Z.
Proof.
  intros net run. subst run.
  rewrite (retrieve_first_attempt_delivers TimerRev.serverSideCodes net accountsEndpoint true
             Scenario.idle
             (mkResponse 200 (mkURL "https:" "myq-cloud.com" "/" []) None None
                (AccountJson (Some [ "a1" ])))
             eq_refl (or_intror (or_introl eq_refl))).
  repeat split; reflexivity.
Defined.

Lemma classify_unrecognized codes response :
  recognized codes response = false -> classify codes true response = Return None.
Proof.
  unfold recognized, classify. intros H.
  repeat (apply orb_false_iff in H; destruct H as [H ?]).
  cbn [negb orb].
  repeat match goal with Hb : _ = false |- _ => rewrite Hb; clear Hb end.
  reflexivity.
Qed.

(** X4.  A response whose status [retrieve] has no branch for (not 2xx, not
    a redirect, not 400, 401 or 403, not a server-side code) ends a decoding
    call at once: it answers the last request of the call, and the call
    returns null. *)
Theorem unrecognized_status_is_terminal :
  forall (codes : list Z) (net : Network) (u : URL) (e : Executor)
         (result : option Response) (e' : Executor) (a : Attempt) (response : Response),
    retrieve codes net u true 0 e = (result, e') ->
    In a (issued e e') ->
    attemptOutcome a = Resolved response ->
    recognized codes response = false ->
    result = None /\
    (exists earlier, issued e e' = (earlier ++ [a])%list) /\
    apiReturnStatus e' = status response.
Proof.
  intros codes net u e result e' a response Hret Hin Ho Hun.
  destruct (retrieve_run _ _ _ _ _ _ _ _ Hret) as (attempts & Hrun & Hw).
  rewrite (issued_app _ _ _ Hw) in *.
  assert (Hv : verdictOf codes true (attemptOutcome a) = Return None).
  { rewrite Ho. cbn [verdictOf]. now apply classify_unrecognized. }
  destruct (run_last _ _ _ _ _ _ _ _ _ Hrun)
    as (earlier & z & Hsplit & _ & Hstatus & Hearlier & Hz).
  assert (a = z) as <-.
  { rewrite Hsplit in Hin. apply in_app_or in Hin as [Hin|[Hin|[]]]; [|now symmetry].
    rewrite (Hearlier _ Hin) in Hv. discriminate. }
  split; [|split].
  - destruct Hz as [Hz|[Hz _]]; rewrite Hv in Hz; [now inversion Hz|discriminate].
  - now exists earlier.
  - now rewrite Hstatus, Ho.
Qed.

(** X4 on a request answered 404: one request, null. *)
Lemma unrecognized_status_is_terminal_witness :
  let run := retrieve TimerRev.serverSideCodes Cases.missing (devicesEndpoint "a1") true 0
               Scenario.idle in
  let a := mkAttempt (devicesEndpoint "a1") 0 0 (Scenario.reply 404 OtherBody) in
  issued Scenario.idle (snd run) = [ a ] /\
  fst run = None /\
  apiReturnStatus (snd run) = 404%Z.
Proof.
  intros run a.
  assert (Hissued : issued Scenario.idle (snd run) = [ a ]) by (vm_compute; reflexivity).
  destruct (unrecognized_status_is_terminal TimerRev.serverSideCodes Cases.missing
              (devicesEndpoint "a1") Scenario.idle (fst run) (snd run) a
              (mkResponse 404 (mkURL "https:" "myq-cloud.com" "/" []) None None OtherBody)
              (surjective_pairing run))
    as (Hres & _ & Hstatus).
  - rewrite Hissued. now left.
  - reflexivity.
  - reflexivity.
  - split; [exact Hissued|]. split; [exact Hres|exact Hstatus].
Defined.

Lemma advance_bound r : advance r < 3.
Proof. unfold advance. apply Nat.mod_upper_bound. discriminate. Qed.

Lemma rotation_last first k :
  first < 3 -> last (rotation first (S k)) 0 = (first + k) mod 3.
Proof.
  revert first. induction k as [|k IH]; intros first Hf.
  - cbn [rotation last]. rewrite Nat.add_0_r. symmetry. now apply Nat.mod_small.
  - change (rotation first (S (S k))) with (first :: rotation (advance first) (S k)).
    change (last (first :: rotation (advance first) (S k)) 0)
      with (last (rotation (advance first) (S k)) 0).
    rewrite (IH _ (advance_bound first)). unfold advance. cbn [List.length myQRegions].
    rewrite Nat.Div0.add_mod_idemp_l. f_equal. lia.
Qed.

(** X5.  After a [retrieve] call on a hostname that is not region-qualified
    the region index has moved on by the number of retries of the call,
    modulo 3, whether the call returned a response or null: a region that
    answered after a failover stays the active one. *)
Theorem retrieve_region_after :
  forall (codes : list Z) (net : Network) (u : URL) (decodeResponse : bool)
         (e : Executor) (result : option Response) (e' : Executor),
    regionQualified u = false ->
    region e < List.length myQRegions ->
    retrieve codes net u decodeResponse 0 e = (result, e') ->
    region e' = (region e + (List.length (issued e e') - 1)) mod 3.
Proof.
  intros codes net u d e result e' Hq Hr Hret.
  destruct (retrieve_run _ _ _ _ _ _ _ _ Hret) as (attempts & Hrun & Hw).
  rewrite (issued_app _ _ _ Hw).
  pose proof (run_regions _ _ _ _ _ _ _ _ _ Hrun Hq) as Hreg. cbn [Nat.eqb] in Hreg.
  pose proof (run_length _ _ _ _ _ _ _ _ _ Hrun (Nat.le_0_l 3)) as Hlen.
  destruct (run_last _ _ _ _ _ _ _ _ _ Hrun) as (earlier & z & Hsplit & Hfinal & _).
  assert (Hlast : region e' = last (map attemptRegion attempts) 0).
  { rewrite Hsplit, map_app. cbn [map]. rewrite last_last. exact Hfinal. }
  rewrite Hreg in Hlast.
  destruct (List.length attempts) as [|k]; [lia|].
  rewrite Hlast, rotation_last by exact Hr.
  f_equal. lia.
Qed.

(** X5 on the call that is refused in the default region and answered in
    the east one: the client stays on east. *)
Lemma retrieve_region_after_witness :
  let run := retrieve ThrottleRev.serverSideCodes Cases.eastOnly accountsEndpoint true 0
               Scenario.idle in
  regionQualified accountsEndpoint = false /\
  region Scenario.idle < List.length myQRegions /\
  List.length (issued Scenario.idle (snd run)) = 2 /\
  region (snd run) = 1.
Proof.
  intros run.
  assert (Hq : regionQualified accountsEndpoint = false) by reflexivity.
  assert (Hr : region Scenario.idle < List.length myQRegions) by (cbn; lia).
  split; [exact Hq|]. split; [exact Hr|]. split; [reflexivity|].
  exact (retrieve_region_after ThrottleRev.serverSideCodes Cases.eastOnly accountsEndpoint
           true Scenario.idle (fst run) (snd run) Hq Hr (surjective_pairing run)).
Defined.

Lemma run_qualified codes u d isRetry r attempts result r' s' :
  Run codes u d isRetry r attempts result r' s' ->
  regionQualified u = true ->
  r' = r /\ forall a, In a attempts -> attemptUrl a = u /\ attemptRegion a = r.
Proof.
  induction 1 as [i r a res Hs Hv | i r a Hs Hv Hi | i r a rest res r' s' Hs Hv Hi Hrun IH];
    intros Hq; destruct Hs as [_ Hs]; rewrite (regionalize_qualified _ _ _ Hq) in Hs;
    injection Hs as Hregion Hurl.
  - split; [assumption|]. intros b [Hb|[]]. subst b. now split.
  - split; [assumption|]. intros b [Hb|[]]. subst b. now split.
  - destruct (IH Hq) as [Hfinal Hall]. rewrite Hregion in Hfinal, Hall.
    split; [assumption|]. intros b [Hb|Hb]; [subst b; now split|]. now apply Hall.
Qed.

(** X6.  A [retrieve] call on a hostname that is already region-qualified
    sends every attempt, retries included, to that same URL and leaves the
    region index as it found it. *)
Theorem retrieve_qualified_is_pinned :
  forall (codes : list Z) (net : Network) (u : URL) (decodeResponse : bool)
         (e : Executor) (result : option Response) (e' : Executor),
    regionQualified u = true ->
    retrieve codes net u decodeResponse 0 e = (result, e') ->
    region e' = region e /\
    forall a, In a (issued e e') -> attemptUrl a = u /\ attemptRegion a = region e.
Proof.
  intros codes net u d e result e' Hq Hret.
  destruct (retrieve_run _ _ _ _ _ _ _ _ Hret) as (attempts & Hrun & Hw).
  rewrite (issued_app _ _ _ Hw).
  exact (run_qualified _ _ _ _ _ _ _ _ _ Hrun Hq).
Qed.

(** X6 on a login page reached through the east region while the cloud is
    down: four requests to the east host, region index still 0. *)
Lemma retrieve_qualified_is_pinned_witness :
  let run := retrieve TimerRev.serverSideCodes (Scenario.scripted []) Cases.eastLoginPage
               true 0 Scenario.idle in
  regionQualified Cases.eastLoginPage = true /\
  map (fun a => hostname (attemptUrl a)) (issued Scenario.idle (snd run))
  = repeat "partner-identity-east.myq-cloud.com" 4 /\
  region (snd run) = 0.
Proof.
  intros run.
  assert (Hq : regionQualified Cases.eastLoginPage = true) by reflexivity.
  split; [exact Hq|]. split; [reflexivity|].
  exact (proj1 (retrieve_qualified_is_pinned TimerRev.serverSideCodes (Scenario.scripted [])
                  Cases.eastLoginPage true Scenario.idle (fst run) (snd run) Hq
                  (surjective_pairing run))).
Defined.

(** * Further properties of the hostname rewrite *)

Lemma noLineTerminator_front front back :
  noLineTerminator (front ++ back) = true -> noLineTerminator front = true.
Proof.
  induction front as [|c front IH]; cbn; [reflexivity|].
  intros H. apply andb_true_iff in H as [Hc H]. now rewrite Hc, IH.
Qed.

Lemma regionRegex_endsWith label :
  regionRegex_test label = true ->
  endsWith "-" label \/ endsWith "-east" label \/ endsWith "-west" label.
Proof.
  induction label as [|c label IH]; cbn [regionRegex_test].
  - cbn. discriminate.
  - intros H. apply orb_true_iff in H as [H|H].
    + cbn [existsb myQRegions] in H.
      repeat (apply orb_true_iff in H as [H|H]); try discriminate;
        apply String.eqb_eq in H; rewrite H;
        [left|right; left|right; right]; now exists "".
    + apply andb_true_iff in H as [_ H].
      destruct (IH H) as [(f & ->)|[(f & ->)|(f & ->)]];
        [left|right; left|right; right]; now exists (String c f).
Qed.

(** X7.  The pattern that decides whether a hostname label is already
    region-qualified accepts exactly the labels that end in "-east", in
    "-west", or in a bare "-" (the default region's empty name is one of the
    alternatives). *)
Theorem regionRegex_test_spec :
  forall label : string,
    noLineTerminator label = true ->
    (regionRegex_test label = true <->
     endsWith "-" label \/ endsWith "-east" label \/ endsWith "-west" label).
Proof.
  intros label Hlt. split; [apply regionRegex_endsWith|].
  intros [(f & ->)|[(f & ->)|(f & ->)]];
    pose proof (noLineTerminator_front _ _ Hlt) as Hf.
  - apply (regionRegex_suffix f ""); [assumption|cbn; auto].
  - apply (regionRegex_suffix f "east"); [assumption|cbn; auto].
  - apply (regionRegex_suffix f "west"); [assumption|cbn; auto].
Qed.

(** X7 on a label with a trailing dash. *)
Lemma regionRegex_test_spec_witness :
  noLineTerminator "myq-" = true /\ regionRegex_test "myq-" = true.
Proof.
  assert (H : noLineTerminator "myq-" = true) by reflexivity.
  split; [exact H|].
  apply (proj2 (regionRegex_test_spec "myq-" H)). left. now exists "myq".
Defined.

Lemma split_at_separator sep first rest :
  lacks sep first = true ->
  Js.split sep (first ++ String sep rest) = first :: Js.split sep rest.
Proof.
  intros Hf. induction first as [|c first IH]; cbn.
  - now rewrite Ascii.eqb_refl.
  - cbn in Hf. apply andb_true_iff in Hf as [Hc Hf].
    apply negb_true_iff in Hc. now rewrite Hc, (IH Hf).
Qed.

Lemma join_onto sep first parts :
  parts <> [] ->
  Js.join (String sep "") (first :: parts)
  = first ++ String sep (Js.join (String sep "") parts).
Proof. destruct parts; [congruence|reflexivity]. Qed.

Lemma append_assoc (a b c : string) : (a ++ b) ++ c = a ++ b ++ c.
Proof. induction a as [|x a IH]; cbn; [reflexivity|now rewrite IH]. Qed.



(** X9.  No account id, device or command makes an endpoint the client
    builds look region-qualified: the accounts, token, device-list,
    authorization and command endpoints of both revisions all get the active
    region's suffix. *)
Theorem client_endpoints_unqualified :
  forall (accountId challenge command : string) (device : myQDevice),
    regionQualified accountsEndpoint = false /\
    regionQualified tokenEndpoint = false /\
    regionQualified (devicesEndpoint accountId) = false /\
    regionQualified (TimerRev.authEndpoint challenge) = false /\
    regionQualified (ThrottleRev.authEndpoint challenge) = false /\
    regionQualified (TimerRev.commandEndpoint device command) = false /\
    regionQualified (ThrottleRev.commandEndpoint device command) = false.
Proof.
  intros accountId challenge command device.
  repeat split; try reflexivity.
  - unfold TimerRev.commandEndpoint, TimerRev.deviceMap.
    repeat match goal with |- context [if ?b then _ else _] => destruct b end; reflexivity.
  - unfold ThrottleRev.commandEndpoint.
    destruct (device_family device =? "lamp"); reflexivity.
Qed.

(** * Hardware table, device names, lookups and cookies *)

Lemma hwLookup_In key table info :
  hwLookup key table = Some info -> In (key, info) table.
Proof.
  induction table as [|[k v] rest IH]; cbn; [discriminate|].
  destruct (String.eqb_spec k key) as [->|_].
  - intros [= ->]. now left.
  - intros H. right. now apply IH.
Qed.

(** X10.  [getHwInfo] decodes exactly the table: a serial number shorter
    than four characters gives null; a serial number whose third and fourth
    characters are a key of the table gives that key's entry, whatever its
    first two characters and whatever follows (no key of the table hides
    another); and every answer that is not null is the entry of the key at
    that place. *)
Theorem getHwInfo_decodes_table :
  (forall serial : string, String.length serial < 4 -> getHwInfo serial = None) /\
  (forall (key : string) (info : myQHwInfo) (a b : ascii) (rest : string),
     In (key, info) HwInfo ->
     getHwInfo (String a (String b (key ++ rest))) = Some info) /\
  (forall (serial : string) (info : myQHwInfo),
     getHwInfo serial = Some info ->
     exists (a b : ascii) (key rest : string),
       serial = String a (String b (key ++ rest)) /\
       String.length key = 2 /\
       In (key, info) HwInfo).
Proof.
  split; [|split].
  - intros serial H. unfold getHwInfo. apply Nat.ltb_lt in H. now rewrite H.
  - intros key info a b rest Hin. unfold HwInfo in Hin. cbn [In] in Hin.
    repeat (destruct Hin as [[= <- <-]|Hin]; [reflexivity|]). contradiction.
  - intros serial info H.
    destruct serial as [|a [|b [|c2 [|c3 rest]]]]; try discriminate.
    exists a, b, (String c2 (String c3 "")), rest.
    split; [reflexivity|]. split; [reflexivity|].
    apply hwLookup_In. exact H.
Qed.

(** X10 on a two-character serial number, on the serial number of a
    Liftmaster gateway, and on the answer for it. *)
Lemma getHwInfo_decodes_table_witness :
  String.length "AB" < 4 /\
  getHwInfo "AB" = None /\
  In ("01", mkHwInfo "Liftmaster" "Ethernet Gateway") HwInfo /\
  getHwInfo "GW0123456789" = Some (mkHwInfo "Liftmaster" "Ethernet Gateway") /\
  exists (a b : ascii) (key rest : string),
    "GW0123456789" = String a (String b (key ++ rest)) /\
    String.length key = 2 /\
    In (key, mkHwInfo "Liftmaster" "Ethernet Gateway") HwInfo.
Proof.
  assert (H : String.length "AB" < 4) by (cbn; lia).
  assert (Hin : In ("01", mkHwInfo "Liftmaster" "Ethernet Gateway") HwInfo)
    by (right; left; reflexivity).
  pose proof (proj1 (proj2 getHwInfo_decodes_table) "01" _ "G"%char "W"%char "23456789" Hin)
    as Hfound.
  split; [exact H|].
  split; [exact (proj1 getHwInfo_decodes_table "AB" H)|].
  split; [exact Hin|].
  split; [exact Hfound|].
  exact (proj2 (proj2 getHwInfo_decodes_table) "GW0123456789" _ Hfound).
Defined.

(** X11.  The three shapes of a device name.  Without a serial number
    [getDeviceName] is the bare name.  For a device of the gateway family
    the hardware table is never consulted: the name is followed by the
    serial number and, if there is one, the parent gateway.  For any other
    family whose serial number the table decodes, brand and product come in
    square brackets between the name and the serial number. *)
Theorem getDeviceName_shapes :
  (forall d : myQDevice, serial_number d = "" -> getDeviceName d = name d) /\
  (forall d : myQDevice,
     device_family d = "gateway" ->
     serial_number d <> "" ->
     getDeviceName d
     = (name d ++ " (serial number: " ++ serial_number d)
       ++ (if parent_device_id d =? "" then "" else ", gateway: " ++ parent_device_id d)
       ++ ")") /\
  (forall (d : myQDevice) (info : myQHwInfo),
     device_family d <> "gateway" ->
     getHwInfo (serial_number d) = Some info ->
     getDeviceName d
     = (name d ++ " [" ++ brand info ++ " " ++ product info ++ "]")
       ++ (" (serial number: " ++ serial_number d)
       ++ (if parent_device_id d =? "" then "" else ", gateway: " ++ parent_device_id d)
       ++ ")").
Proof.
  split; [|split].
  - intros d H. unfold getDeviceName. rewrite H. cbn [String.eqb negb].
    now destruct (negb (device_family d =? "gateway")).
  - intros d Hfamily Hserial. unfold getDeviceName. rewrite Hfamily.
    cbn [negb]. rewrite String.eqb_refl. cbn [negb].
    apply String.eqb_neq in Hserial. rewrite Hserial. cbn [negb].
    destruct (parent_device_id d =? ""); cbn [negb]; now rewrite !append_assoc.
  - intros d info Hfamily Hinfo. unfold getDeviceName.
    apply String.eqb_neq in Hfamily. rewrite Hfamily. cbn [negb]. rewrite Hinfo.
    assert (Hserial : (serial_number d =? "") = false).
    { destruct (serial_number d); [discriminate|reflexivity]. }
    rewrite Hserial. cbn [negb].
    destruct (parent_device_id d =? ""); cbn [negb]; now rewrite !append_assoc.
Qed.

(** X11 on a gateway whose serial number the hardware table would decode,
    and on a garage door opener with the same serial number. *)
Lemma getDeviceName_shapes_witness :
  let hub := mkDevice "a1" "gateway" "Hub" "" "GW0100000001" in
  let opener := mkDevice "a1" "garagedoor" "Door" "GW0100000001" "GW0100000001" in
  device_family hub = "gateway" /\
  serial_number hub <> "" /\
  device_family opener <> "gateway" /\
  getHwInfo (serial_number opener) = Some (mkHwInfo "Liftmaster" "Ethernet Gateway") /\
  getDeviceName hub = "Hub (serial number: GW0100000001)" /\
  getDeviceName opener
  = "Door [Liftmaster Ethernet Gateway] (serial number: GW0100000001, gateway: GW0100000001)".
Proof.
  intros hub opener.
  assert (H1 : device_family hub = "gateway") by reflexivity.
  assert (H2 : serial_number hub <> "") by discriminate.
  assert (H3 : device_family opener <> "gateway") by discriminate.
  assert (H4 : getHwInfo (serial_number opener)
               = Some (mkHwInfo "Liftmaster" "Ethernet Gateway")) by reflexivity.
  split; [exact H1|]. split; [exact H2|]. split; [exact H3|]. split; [exact H4|]. split.
  - exact (proj1 (proj2 getDeviceName_shapes) hub H1 H2).
  - exact (proj2 (proj2 getDeviceName_shapes) opener _ H3 H4).
Defined.

Lemma upperChar_idempotent c : Js.upperChar (Js.upperChar c) = Js.upperChar c.
Proof.
  unfold Js.upperChar.
  destruct ((97 <=? nat_of_ascii c)%nat && (nat_of_ascii c <=? 122)%nat) eqn:E.
  - apply andb_true_iff in E as [Hlo Hhi].
    apply Nat.leb_le in Hlo. apply Nat.leb_le in Hhi.
    rewrite nat_ascii_embedding by lia.
    assert (H : (97 <=? nat_of_ascii c - 32)%nat = false) by (apply Nat.leb_gt; lia).
    now rewrite H.
  - now rewrite E.
Qed.

Lemma toUpperCase_idempotent s : Js.toUpperCase (Js.toUpperCase s) = Js.toUpperCase s.
Proof.
  induction s as [|c s IH]; cbn; [reflexivity|].
  now rewrite upperChar_idempotent, IH.
Qed.

Lemma toUpperCase_length s : String.length (Js.toUpperCase s) = String.length s.
Proof. induction s as [|c s IH]; cbn; [reflexivity|now rewrite IH]. Qed.

Lemma find_first {A : Type} (f : A -> bool) (l : list A) (d : A) :
  find f l = Some d ->
  f d = true /\
  exists before after,
    l = (before ++ d :: after)%list /\ forall x, In x before -> f x = false.
Proof.
  induction l as [|x l IH]; cbn; [discriminate|].
  destruct (f x) eqn:Hx.
  - intros H. inversion H; subst. split; [assumption|].
    exists [], l. split; [reflexivity|]. intros y [].
  - intros H. destruct (IH H) as (Hd & before & after & -> & Hbefore).
    split; [assumption|]. exists (x :: before), after. split; [reflexivity|].
    intros y [<-|Hy]; auto.
Qed.

Lemma findDevice_first serial l d :
  findDevice (Js.toUpperCase serial) l = Some d ->
  Js.toUpperCase (serial_number d) = Js.toUpperCase serial /\
  exists before after,
    l = (before ++ d :: after)%list /\
    forall x, In x before -> Js.toUpperCase (serial_number x) <> Js.toUpperCase serial.
Proof.
  unfold findDevice. intros H.
  destruct (find_first _ _ _ H) as (Hd & before & after & Hl & Hbefore).
  apply String.eqb_eq in Hd. split; [assumption|].
  exists before, after. split; [assumption|].
  intros x Hx. apply String.eqb_neq. now apply Hbefore.
Qed.

(** X12.  In both revisions a device that [getDevice] returns is the first
    entry of the stored device list whose serial number equals the one asked
    for up to letter case. *)
Theorem getDevice_returns_first_match :
  (forall (serial : string) (c : TimerRev.Client) (d : myQDevice),
     TimerRev.getDevice serial c = Some d ->
     Js.toUpperCase (serial_number d) = Js.toUpperCase serial /\
     exists before after,
       TimerRev.devices c = Some (before ++ d :: after)%list /\
       forall x, In x before -> Js.toUpperCase (serial_number x) <> Js.toUpperCase serial) /\
  (forall (serial : string) (c : ThrottleRev.Client) (d : myQDevice),
     ThrottleRev.getDevice serial c = Some d ->
     Js.toUpperCase (serial_number d) = Js.toUpperCase serial /\
     exists before after,
       ThrottleRev.devices c = Some (before ++ d :: after)%list /\
       forall x, In x before -> Js.toUpperCase (serial_number x) <> Js.toUpperCase serial).
Proof.
  split.
  - intros serial c d. unfold TimerRev.getDevice.
    destruct (TimerRev.notLoggedIn c); [discriminate|].
    destruct (TimerRev.devices c) as [l|]; [|discriminate].
    destruct (String.length serial <=? 0)%nat; [discriminate|].
    intros H. destruct (findDevice_first _ _ _ H) as (Hd & before & after & -> & Hb).
    split; [assumption|]. now exists before, after.
  - intros serial c d. unfold ThrottleRev.getDevice.
    destruct (ThrottleRev.notLoggedIn c); [discriminate|].
    destruct (ThrottleRev.snapshotStale c); [discriminate|].
    destruct (String.length serial <=? 0)%nat; [discriminate|].
    destruct (ThrottleRev.devices c) as [l|]; [|discriminate].
    intros H. destruct (findDevice_first _ _ _ H) as (Hd & before & after & -> & Hb).
    split; [assumption|]. now exists before, after.
Qed.

(** X12 on a lower-case query, an hour after the login of the revision
    with [refreshTimer]. *)
Lemma getDevice_returns_first_match_witness :
  let c := Scenario.timerLater 3600000 (Scenario.timerLoggedIn Scenario.timerCloud) in
  TimerRev.getDevice "lp0100000002" c = Some Scenario.lamp /\
  Js.toUpperCase (serial_number Scenario.lamp) = Js.toUpperCase "lp0100000002".
Proof.
  intros c.
  assert (H : TimerRev.getDevice "lp0100000002" c = Some Scenario.lamp)
    by (vm_compute; reflexivity).
  split; [exact H|].
  exact (proj1 (proj1 getDevice_returns_first_match "lp0100000002" c Scenario.lamp H)).
Defined.

(** X13.  In both revisions [getDevice] ignores the letter case of the
    serial number it is asked for. *)
Theorem getDevice_ignores_case :
  (forall (serial : string) (c : TimerRev.Client),
     TimerRev.getDevice (Js.toUpperCase serial) c = TimerRev.getDevice serial c) /\
  (forall (serial : string) (c : ThrottleRev.Client),
     ThrottleRev.getDevice (Js.toUpperCase serial) c = ThrottleRev.getDevice serial c).
Proof.
  split; intros serial c.
  - unfold TimerRev.getDevice.
    now rewrite toUpperCase_length, toUpperCase_idempotent.
  - unfold ThrottleRev.getDevice.
    now rewrite toUpperCase_length, toUpperCase_idempotent.
Qed.

Lemma cookiePair_plain pair : lacks ";" pair = true -> cookiePair pair = pair.
Proof. intros H. unfold cookiePair. now rewrite split_lacking. Qed.

Lemma cookiePair_strips pair attributes :
  lacks ";" pair = true -> cookiePair (pair ++ ";" ++ attributes) = pair.
Proof.
  intros H. unfold cookiePair.
  change (pair ++ ";" ++ attributes) with (pair ++ String ";"%char attributes).
  now rewrite split_at_separator.
Qed.

Lemma map_cookiePair (l : list (string * string)) :
  Forall (fun p => lacks ";" (fst p) = true) l ->
  map cookiePair (map (fun p => fst p ++ ";" ++ snd p) l) = map fst l.
Proof.
  induction 1 as [|p l Hp Hl IH]; cbn [map]; [reflexivity|].
  now rewrite cookiePair_strips, IH.
Qed.

(** X14.  The cookie header built during login keeps, of every cookie, the
    part before its first semicolon, in order (request cookies before set
    cookies), joined by "; ".  With no cookie header at all,
    [generateLoginCookies] yields the empty string, whereas [trimSetCookie]
    of the other revision throws. *)
Theorem login_cookies_strip_attributes :
  (forall sent received : list (string * string),
     Forall (fun p => lacks ";" (fst p) = true) (sent ++ received) ->
     generateLoginCookies
       (Some (Several (map (fun p => fst p ++ ";" ++ snd p) sent)))
       (Some (Several (map (fun p => fst p ++ ";" ++ snd p) received)))
     = Js.join "; " (map fst (sent ++ received))) /\
  (forall (received : list (string * string)) (c : ThrottleRev.Client),
     Forall (fun p => lacks ";" (fst p) = true) received ->
     ThrottleRev.trimSetCookie (Some (map (fun p => fst p ++ ";" ++ snd p) received)) c
     = (Done (Js.join "; " (map fst received)), c)) /\
  generateLoginCookies None None = "" /\
  (forall c : ThrottleRev.Client, ThrottleRev.trimSetCookie None c = (Throw, c)).
Proof.
  split; [|split; [|split]].
  - intros sent received H. unfold generateLoginCookies. cbn [asArray].
    rewrite <- map_app. now rewrite map_cookiePair.
  - intros received c H. unfold ThrottleRev.trimSetCookie, ret.
    fold cookiePair. change (fun x => hd "" (Js.split ";" x)) with cookiePair.
    now rewrite map_cookiePair.
  - reflexivity.
  - reflexivity.
Qed.

(** X14 on two cookies with attributes. *)
Lemma login_cookies_strip_attributes_witness :
  let received := [ ("a=1", " path=/; secure"); ("b=2", " HttpOnly") ] in
  Forall (fun p => lacks ";" (fst p) = true) ([] ++ received) /\
  generateLoginCookies (Some (Several []))
    (Some (Several [ "a=1; path=/; secure"; "b=2; HttpOnly" ])) = "a=1; b=2".
Proof.
  intros received.
  assert (H : Forall (fun p => lacks ";" (fst p) = true) ([] ++ received))
    by (repeat constructor).
  split; [exact H|].
  exact (proj1 login_cookies_strip_attributes [] received H).
Defined.

(** * Further properties of the session manager and the directory *)

Lemma keeps_image {S A X Y : Type} (f : S -> X) (g : X -> Y) (m : M S A) :
  keeps f m -> keeps (fun s => g (f s)) m.
Proof. intros H s. now rewrite H. Qed.

Module TimerSession.

Import TimerRev.

Section WithPlatform.

Variable pf : Platform.

Lemma timer_retrieve_bystanders u : keeps timerBystanders (this_retrieve pf u).
Proof. now apply TimerFacts.timer_retrieve_keeps. Qed.

Hint Resolve timer_retrieve_bystanders : frame.

Lemma timer_getAccounts_bystanders : keeps timerBystanders (getAccounts pf).
Proof. unfold getAccounts. frame. Qed.

Lemma timer_setTokenRefreshTimer_bystanders amount :
  keeps timerBystanders (setTokenRefreshTimer amount).
Proof. unfold setTokenRefreshTimer, clearRefreshTimer. frame. Qed.

Hint Resolve timer_getAccounts_bystanders timer_setTokenRefreshTimer_bystanders : frame.

Lemma timer_oauthGetAuthPage_bystanders challenge :
  keeps timerBystanders (oauthGetAuthPage pf challenge).
Proof. unfold oauthGetAuthPage. frame. Qed.

Lemma timer_oauthLogin_bystanders page : keeps timerBystanders (oauthLogin pf page).
Proof. unfold oauthLogin. frame. Qed.

Lemma timer_oauthRedirect_bystanders response :
  keeps timerBystanders (oauthRedirect pf response).
Proof. unfold oauthRedirect. frame. Qed.

Hint Resolve timer_oauthGetAuthPage_bystanders timer_oauthLogin_bystanders
  timer_oauthRedirect_bystanders : frame.

Lemma timer_getOAuthToken_bystanders : keeps timerBystanders (getOAuthToken pf).
Proof. unfold getOAuthToken, clearRefreshTimer. frame. Qed.

Lemma timer_refreshOAuthToken_bystanders : keeps timerBystanders (refreshOAuthToken pf).
Proof. unfold refreshOAuthToken. frame. Qed.

Hint Resolve timer_getOAuthToken_bystanders timer_refreshOAuthToken_bystanders : frame.

Lemma timer_acquireAccessToken_bystanders : keeps timerBystanders (acquireAccessToken pf).
Proof. unfold acquireAccessToken, invalidate. frame. Qed.

Hint Resolve timer_acquireAccessToken_bystanders : frame.

Lemma timer_refreshAccessToken_bystanders : keeps timerBystanders (refreshAccessToken pf).
Proof. unfold refreshAccessToken. frame. Qed.

Hint Resolve timer_refreshAccessToken_bystanders : frame.

Lemma timer_collectDevices_bystanders ids acc :
  keeps timerBystanders (collectDevices pf ids acc).
Proof.
  revert acc. induction ids as [|accountId rest IH]; intros acc; cbn [collectDevices];
    unfold invalidate; frame.
Qed.

Lemma timer_execute_bystanders device command :
  keeps timerBystanders (execute pf device command).
Proof. unfold execute, invalidate. frame. Qed.

Lemma timer_getAccounts_keeps_token : keeps accessToken (getAccounts pf).
Proof.
  unfold getAccounts.
  apply keeps_bind; [now apply TimerFacts.timer_retrieve_keeps|intro]. frame.
Qed.

End WithPlatform.

End TimerSession.

Module ThrottleSession.

Import ThrottleRev.

Section WithPlatform.

Variable pf : Platform.

Lemma throttle_retrieve_inner u : keeps throttleInner (this_retrieve pf u).
Proof. now apply ThrottleFacts.throttle_retrieve_keeps. Qed.

Lemma throttle_trimSetCookie_inner cookies : keeps throttleInner (trimSetCookie cookies).
Proof. unfold trimSetCookie. frame. Qed.

Hint Resolve throttle_retrieve_inner throttle_trimSetCookie_inner : frame.

Lemma throttle_getAccounts_inner : keeps throttleInner (getAccounts pf).
Proof. unfold getAccounts. frame. Qed.

Hint Resolve throttle_getAccounts_inner : frame.

Lemma throttle_oauthGetAuthPage_inner challenge : keeps throttleInner (oauthGetAuthPage pf challenge).
Proof. unfold oauthGetAuthPage. frame. Qed.

Lemma throttle_oauthLogin_inner page : keeps throttleInner (oauthLogin pf page).
Proof. unfold oauthLogin. frame. Qed.

Lemma throttle_oauthRedirect_inner response : keeps throttleInner (oauthRedirect pf response).
Proof. unfold oauthRedirect. frame. Qed.

Hint Resolve throttle_oauthGetAuthPage_inner throttle_oauthLogin_inner
  throttle_oauthRedirect_inner : frame.

Lemma throttle_getOAuthToken_inner : keeps throttleInner (getOAuthToken pf).
Proof. unfold getOAuthToken. frame. Qed.

Lemma throttle_refreshOAuthToken_inner : keeps throttleInner (refreshOAuthToken pf).
Proof. unfold refreshOAuthToken. frame. Qed.

Lemma throttle_getAccounts_bystanders : keeps throttleBystanders (getAccounts pf).
Proof. exact (keeps_image throttleInner fst _ throttle_getAccounts_inner). Qed.

Lemma throttle_retrieve_bystanders u : keeps throttleBystanders (this_retrieve pf u).
Proof. now apply ThrottleFacts.throttle_retrieve_keeps. Qed.

Lemma throttle_getOAuthToken_bystanders : keeps throttleBystanders (getOAuthToken pf).
Proof. exact (keeps_image throttleInner fst _ throttle_getOAuthToken_inner). Qed.

Lemma throttle_refreshOAuthToken_bystanders : keeps throttleBystanders (refreshOAuthToken pf).
Proof. exact (keeps_image throttleInner fst _ throttle_refreshOAuthToken_inner). Qed.

Lemma throttle_oauthGetAuthPage_bystanders challenge :
  keeps throttleBystanders (oauthGetAuthPage pf challenge).
Proof. exact (keeps_image throttleInner fst _ (throttle_oauthGetAuthPage_inner challenge)). Qed.

Lemma throttle_getOAuthToken_keeps_stamp : keeps lastAuthenticateCall (getOAuthToken pf).
Proof. exact (keeps_image throttleInner snd _ throttle_getOAuthToken_inner). Qed.

Lemma throttle_getAccounts_keeps_stamp : keeps lastAuthenticateCall (getAccounts pf).
Proof. exact (keeps_image throttleInner snd _ throttle_getAccounts_inner). Qed.

Hint Resolve throttle_getAccounts_bystanders throttle_retrieve_bystanders
  throttle_getOAuthToken_bystanders throttle_refreshOAuthToken_bystanders : frame.

Lemma throttle_acquireAccessToken_bystanders :
  keeps throttleBystanders (acquireAccessToken pf).
Proof. unfold acquireAccessToken, invalidate. frame. Qed.

Hint Resolve throttle_acquireAccessToken_bystanders : frame.

Lemma throttle_refreshAccessToken_bystanders :
  keeps throttleBystanders (refreshAccessToken pf).
Proof. unfold refreshAccessToken. frame. Qed.

Hint Resolve throttle_refreshAccessToken_bystanders : frame.

Lemma throttle_collectDevices_bystanders ids acc :
  keeps throttleBystanders (collectDevices pf ids acc).
Proof.
  revert acc. induction ids as [|accountId rest IH]; intros acc; cbn [collectDevices];
    unfold invalidate; frame.
Qed.

Lemma throttle_execute_bystanders device command :
  keeps throttleBystanders (execute pf device command).
Proof. unfold execute, invalidate. frame. Qed.

Lemma throttle_getAccounts_keeps_token : keeps accessToken (getAccounts pf).
Proof.
  unfold getAccounts.
  apply keeps_bind; [now apply ThrottleFacts.throttle_retrieve_keeps|intro]. frame.
Qed.

End WithPlatform.

End ThrottleSession.

(** X15.  In both revisions a client whose password is null or empty
    refuses to work: [refreshDevices] and [execute] return false and
    [getDevice] returns null, without a request and without a change of
    state; in particular [login] with an empty password returns false
    without contacting the cloud. *)
Theorem unauthenticated_calls_refused :
  (forall pf (c : TimerRev.Client) device command serial,
     Js.truthy (TimerRev.password c) = false ->
     TimerRev.refreshDevices pf c = (Done false, c) /\
     TimerRev.execute pf device command c = (Done false, c) /\
     TimerRev.getDevice serial c = None) /\
  (forall pf (c : ThrottleRev.Client) device command serial,
     Js.truthy (ThrottleRev.password c) = false ->
     ThrottleRev.refreshDevices pf c = (Done false, c) /\
     ThrottleRev.execute pf device command c = (Done false, c) /\
     ThrottleRev.getDevice serial c = None) /\
  (forall pf (c : TimerRev.Client) email,
     fst (TimerRev.login pf email "" c) = Done false /\
     TimerRev.exec (snd (TimerRev.login pf email "" c)) = TimerRev.exec c) /\
  (forall pf (c : ThrottleRev.Client) email,
     fst (ThrottleRev.login pf email "" c) = Done false /\
     ThrottleRev.exec (snd (ThrottleRev.login pf email "" c)) = ThrottleRev.exec c).
Proof.
  split; [|split; [|split]].
  - intros pf c device command serial H.
    unfold TimerRev.refreshDevices, TimerRev.execute, TimerRev.getDevice, TimerRev.notLoggedIn.
    rewrite !bind_get, H. now cbn.
  - intros pf c device command serial H.
    unfold ThrottleRev.refreshDevices, ThrottleRev.execute, ThrottleRev.getDevice,
      ThrottleRev.notLoggedIn.
    rewrite !bind_get, H. now cbn.
  - intros pf c email. unfold TimerRev.login. rewrite bind_modify.
    unfold TimerRev.refreshDevices. rewrite bind_get. now cbn.
  - intros pf c email. unfold ThrottleRev.login. rewrite bind_modify.
    unfold ThrottleRev.refreshDevices. rewrite bind_get. now cbn.
Qed.

(** X15 on a client fresh from the constructor. *)
Lemma unauthenticated_calls_refused_witness :
  let c := ThrottleRev.new Scenario.start in
  Js.truthy (ThrottleRev.password c) = false /\
  ThrottleRev.refreshDevices Scenario.throttleCloud c = (Done false, c) /\
  ThrottleRev.execute Scenario.throttleCloud Scenario.door "open" c = (Done false, c).
Proof.
  intros c.
  assert (H : Js.truthy (ThrottleRev.password c) = false) by reflexivity.
  split; [exact H|].
  destruct (proj1 (proj2 unauthenticated_calls_refused) Scenario.throttleCloud c
              Scenario.door "open" "" H) as (H1 & H2 & _).
  now split.
Defined.

Lemma timer_oauthLogin_needs_email pf page c :
  Js.truthy (TimerRev.email c) = false ->
  TimerRev.oauthLogin pf page c = (Done None, c).
Proof.
  intros He. unfold TimerRev.oauthLogin. rewrite bind_get, He. reflexivity.
Qed.

Lemma timer_getOAuthToken_needs_email pf c tok c' :
  Js.truthy (TimerRev.email c) = false ->
  TimerRev.getOAuthToken pf c = (Done (Some tok), c') -> False.
Proof.
  intros He H. unfold TimerRev.getOAuthToken in H.
  do 4 step H. subst.
  match goal with
  | E : TimerRev.oauthGetAuthPage pf ?ch ?s = (Done (Some ?page), ?s') |- _ =>
      pose proof (TimerSession.timer_oauthGetAuthPage_bystanders pf ch s) as Hkept;
      rewrite E in Hkept; cbn [snd] in Hkept;
      assert (He' : Js.truthy (TimerRev.email s') = false)
  end.
  { unfold timerBystanders in Hkept. injection Hkept as _ Hemail _.
    rewrite Hemail. unfold TimerRev.clearRefreshTimer.
    now destruct (TimerRev.refreshTimer c). }
  rewrite (bind_done _ _ _ _ _ (timer_oauthLogin_needs_email pf _ _ He')) in H.
  discriminate.
Qed.

Lemma timer_acquireAccessToken_needs_email pf c c' :
  Js.truthy (TimerRev.email c) = false ->
  TimerRev.acquireAccessToken pf c = (Done true, c') -> False.
Proof.
  intros He H. unfold TimerRev.acquireAccessToken in H.
  do 2 step H.
  match goal with
  | E : TimerRev.getOAuthToken pf ?s = (Done ?token, _) |- _ =>
      destruct token as [tok|];
      [ apply (timer_getOAuthToken_needs_email _ _ _ _) in E; [contradiction|]
      | cbn in H; discriminate ]
  end.
  now destruct (Js.truthy (TimerRev.accessToken c)).
Qed.

Lemma timer_refreshDevices_needs_email pf c c' :
  Js.truthy (TimerRev.email c) = false ->
  Js.truthy (TimerRev.accessToken c) = false ->
  TimerRev.refreshDevices pf c = (Done true, c') -> False.
Proof.
  intros He Ht H. unfold TimerRev.refreshDevices in H.
  do 3 step H.
  match goal with
  | E : TimerRev.refreshAccessToken pf c = (Done ?valid, _) |- _ =>
      destruct valid; [|cbn in H; discriminate];
      unfold TimerRev.refreshAccessToken in E; rewrite bind_get, Ht in E;
      rewrite orb_true_r in E;
      exact (timer_acquireAccessToken_needs_email _ _ _ He E)
  end.
Qed.

Lemma throttle_oauthLogin_needs_email pf page c :
  Js.truthy (ThrottleRev.email c) = false ->
  ThrottleRev.oauthLogin pf page c = (Done None, c).
Proof.
  intros He. unfold ThrottleRev.oauthLogin. rewrite bind_get, He. reflexivity.
Qed.

Lemma throttle_getOAuthToken_needs_email pf c tok c' :
  Js.truthy (ThrottleRev.email c) = false ->
  ThrottleRev.getOAuthToken pf c = (Done (Some tok), c') -> False.
Proof.
  intros He H. unfold ThrottleRev.getOAuthToken in H.
  do 3 step H. subst.
  match goal with
  | E : ThrottleRev.oauthGetAuthPage pf ?ch ?s = (Done (Some ?page), ?s') |- _ =>
      pose proof (ThrottleSession.throttle_oauthGetAuthPage_bystanders pf ch s) as Hkept;
      rewrite E in Hkept; cbn [snd] in Hkept;
      assert (He' : Js.truthy (ThrottleRev.email s') = false)
  end.
  { unfold throttleBystanders in Hkept. injection Hkept as _ Hemail _ _.
    now rewrite Hemail. }
  rewrite (bind_done _ _ _ _ _ (throttle_oauthLogin_needs_email pf _ _ He')) in H.
  discriminate.
Qed.

Lemma throttle_acquireAccessToken_needs_email pf c c' :
  Js.truthy (ThrottleRev.email c) = false ->
  ThrottleRev.acquireAccessToken pf c = (Done true, c') -> False.
Proof.
  intros He H. unfold ThrottleRev.acquireAccessToken in H.
  step H. cbv zeta in H. do 3 step H.
  match goal with
  | E : ThrottleRev.getOAuthToken pf ?s = (Done ?token, _) |- _ =>
      destruct token as [tok|];
      [ apply (throttle_getOAuthToken_needs_email _ _ _ _) in E; [contradiction|]
      | cbn in H; discriminate ]
  end.
  now destruct (Js.truthy (ThrottleRev.accessToken _)).
Qed.

Lemma throttle_refreshDevices_needs_email pf c c' :
  Js.truthy (ThrottleRev.email c) = false ->
  Js.truthy (ThrottleRev.accessToken c) = false ->
  ThrottleRev.devices c = None \/ ThrottleRev.refreshThrottled c = false ->
  ThrottleRev.refreshDevices pf c = (Done true, c') -> False.
Proof.
  intros He Ht Hopen H. unfold ThrottleRev.refreshDevices in H.
  do 2 step H. cbv zeta in H.
  destruct (ThrottleRev.refreshThrottled c) eqn:Hthrottled.
  - destruct Hopen as [Hnone|?]; [|discriminate].
    unfold ThrottleRev.hasDevices, ret in H. rewrite Hnone in H. discriminate.
  - do 2 step H.
    match goal with
    | E : ThrottleRev.refreshAccessToken pf ?s = (Done ?valid, _) |- _ =>
        destruct valid; [|cbn in H; discriminate];
        assert (Hts : Js.truthy (ThrottleRev.accessToken s) = false) by exact Ht;
        assert (Hes : Js.truthy (ThrottleRev.email s) = false) by exact He;
        unfold ThrottleRev.refreshAccessToken in E; rewrite bind_get in E;
        cbv zeta in E;
        destruct (ThrottleRev.elapsedUnder _ _ _) in E;
        [ unfold ThrottleRev.sessionUsable, ret in E;
          rewrite Hts, andb_false_r in E; discriminate
        | rewrite Hts in E; cbn [negb] in E; rewrite orb_true_r in E;
          exact (throttle_acquireAccessToken_needs_email _ _ _ Hes E) ]
    end.
Qed.

(** X16.  In both revisions [login] with an empty e-mail address never
    returns true; the stored e-mail is only looked at after the
    authorization page has been fetched, so in the revision with
    [refreshTimer] such a login, given a password, still sends a request. *)
Theorem login_needs_email :
  (forall pf (password : string) (c : TimerRev.Client),
     fst (TimerRev.login pf "" password c) <> Done true) /\
  (forall pf (password : string) (c : ThrottleRev.Client),
     fst (ThrottleRev.login pf "" password c) <> Done true) /\
  (forall pf (password : string) (c : TimerRev.Client),
     password <> "" ->
     issued (TimerRev.exec c) (TimerRev.exec (snd (TimerRev.login pf "" password c))) <> []).
Proof.
  split; [|split].
  - intros pf password c. unfold TimerRev.login. rewrite bind_modify.
    destruct (TimerRev.refreshDevices pf _) as [[[|]|] c'] eqn:H; cbn; try discriminate.
    exfalso. now apply (timer_refreshDevices_needs_email _ _ _) in H.
  - intros pf password c. unfold ThrottleRev.login. rewrite bind_modify.
    destruct (ThrottleRev.refreshDevices pf _) as [[[|]|] c'] eqn:H; cbn; try discriminate.
    exfalso. apply (throttle_refreshDevices_needs_email _ _ _) in H; auto.
  - intros pf password c Hpw. unfold TimerRev.login. rewrite bind_modify.
    match goal with |- context [TimerRev.refreshDevices pf ?s] =>
      destruct (TimerTraffic.timer_refreshDevices_sends pf s) as (a & more & H)
    end.
    + unfold TimerRev.notLoggedIn. cbn. apply String.eqb_neq in Hpw. now rewrite Hpw.
    + unfold TimerRev.log in H. cbn [TimerRev.withAccessToken TimerRev.withCredentials
                                      TimerRev.exec] in H.
      rewrite (issued_app _ _ _ H). discriminate.
Qed.

(** X16 on a login with an empty e-mail address against a cloud that
    answers: not true, and requests were sent. *)
Lemma login_needs_email_witness :
  let run := TimerRev.login Scenario.timerCloud "" "hunter2" (TimerRev.new Scenario.start) in
  "hunter2" <> "" /\
  fst run <> Done true /\
  issued (TimerRev.exec (TimerRev.new Scenario.start)) (TimerRev.exec (snd run)) <> [].
Proof.
  intros run.
  assert (H : "hunter2" <> "") by discriminate.
  split; [exact H|]. split.
  - exact (proj1 login_needs_email Scenario.timerCloud "hunter2"
             (TimerRev.new Scenario.start)).
  - exact (proj2 (proj2 login_needs_email) Scenario.timerCloud "hunter2"
             (TimerRev.new Scenario.start) H).
Defined.

(** ** Authentication in the revision with [lastAuthenticateCall] *)

Module ThrottleToken.

Import ThrottleRev.

Section WithPlatform.

Variable pf : Platform.

Lemma throttle_retrieve_keeps_token u : keeps accessToken (this_retrieve pf u).
Proof. now apply ThrottleFacts.throttle_retrieve_keeps. Qed.

Lemma throttle_trimSetCookie_keeps_token cookies : keeps accessToken (trimSetCookie cookies).
Proof. unfold trimSetCookie. frame. Qed.

Hint Resolve throttle_retrieve_keeps_token throttle_trimSetCookie_keeps_token : frame.

Lemma throttle_getOAuthToken_keeps_token : keeps accessToken (getOAuthToken pf).
Proof. unfold getOAuthToken, oauthGetAuthPage, oauthLogin, oauthRedirect. frame. Qed.

Hint Resolve ThrottleSession.throttle_getOAuthToken_keeps_stamp
  ThrottleSession.throttle_getAccounts_keeps_stamp : frame.

(** Whatever comes of it, [acquireAccessToken] leaves the time it started at
    in [lastAuthenticateCall]. *)
Lemma throttle_acquireAccessToken_stamps c :
  lastAuthenticateCall (snd (acquireAccessToken pf c)) = Some (now c).
Proof.
  unfold acquireAccessToken. rewrite bind_get. cbv zeta. rewrite !bind_modify.
  match goal with
  | |- lastAuthenticateCall (snd (?m ?s)) = _ =>
      assert (K : keeps lastAuthenticateCall m) by (unfold invalidate; frame);
      rewrite K
  end.
  now destruct (Js.truthy (accessToken _)).
Qed.

(** A failed [acquireAccessToken] leaves no usable access token behind. *)
Lemma throttle_acquireAccessToken_false c c' :
  acquireAccessToken pf c = (Done false, c') -> Js.truthy (accessToken c') = false.
Proof.
  intros H. unfold acquireAccessToken in H.
  step H. cbv zeta in H. do 3 step H.
  match goal with
  | E : getOAuthToken pf ?s = (Done ?token, ?s') |- _ =>
      pose proof (throttle_getOAuthToken_keeps_token s) as Hkept;
      rewrite E in Hkept; cbn [snd] in Hkept
  end.
  destruct (negb (Js.truthy _)) eqn:Htoken in H.
  - unfold ret in H. inversion H; subst; clear H. rewrite Hkept.
    change (accessToken (withLastAuthenticateCall (Some (now c)) c)) with (accessToken c).
    destruct (Js.truthy (accessToken c)) eqn:Hold; [reflexivity|exact Hold].
  - do 3 step H. destruct (negb _) in H.
    + step H. unfold ret in H. inversion H; subst. reflexivity.
    + discriminate.
Qed.

End WithPlatform.

End ThrottleToken.

(** X17.  In the revision with [lastAuthenticateCall] a failed
    [acquireAccessToken] still starts the two-minute cooldown: the time the
    attempt began is recorded, and every [refreshAccessToken] made less than
    two minutes after it returns false without a request and without a
    change of state. *)
Theorem failed_authentication_starts_cooldown :
  forall (pf : Platform) (c c' : ThrottleRev.Client),
    ThrottleRev.acquireAccessToken pf c = (Done false, c') ->
    ThrottleRev.lastAuthenticateCall c' = Some (ThrottleRev.now c) /\
    forall dt : Z,
      (ThrottleRev.now c' + dt - ThrottleRev.now c < 2 * 60 * 1000)%Z ->
      ThrottleRev.refreshAccessToken pf (Scenario.throttleLater dt c')
      = (Done false, Scenario.throttleLater dt c').
Proof.
  intros pf c c' H.
  pose proof (ThrottleToken.throttle_acquireAccessToken_stamps pf c) as Hstamp.
  rewrite H in Hstamp. cbn [snd] in Hstamp.
  split; [exact Hstamp|]. intros dt Hdt.
  unfold ThrottleRev.refreshAccessToken. rewrite bind_get. cbv zeta.
  change (ThrottleRev.lastAuthenticateCall (Scenario.throttleLater dt c'))
    with (ThrottleRev.lastAuthenticateCall c').
  change (ThrottleRev.now (Scenario.throttleLater dt c')) with (ThrottleRev.now c' + dt)%Z.
  rewrite Hstamp. cbn [ThrottleRev.elapsedUnder].
  apply Z.ltb_lt in Hdt. rewrite Hdt.
  unfold ThrottleRev.sessionUsable.
  change (ThrottleRev.accessToken (Scenario.throttleLater dt c'))
    with (ThrottleRev.accessToken c').
  now rewrite (ThrottleToken.throttle_acquireAccessToken_false pf _ _ H), andb_false_r.
Qed.

(** X17 on a client that tries to authenticate while the cloud is down and
    asks again a minute later. *)
Lemma failed_authentication_starts_cooldown_witness :
  let run := ThrottleRev.acquireAccessToken Cases.down (ThrottleRev.new Scenario.start) in
  fst run = Done false /\
  (ThrottleRev.now (snd run) + 60000 - ThrottleRev.now (ThrottleRev.new Scenario.start)
   < 2 * 60 * 1000)%Z /\
  ThrottleRev.refreshAccessToken Cases.down (Scenario.throttleLater 60000 (snd run))
  = (Done false, Scenario.throttleLater 60000 (snd run)).
Proof.
  intros run.
  assert (H1 : fst run = Done false) by (vm_compute; reflexivity).
  assert (H2 : (ThrottleRev.now (snd run) + 60000
                - ThrottleRev.now (ThrottleRev.new Scenario.start) < 2 * 60 * 1000)%Z)
    by (vm_compute; reflexivity).
  split; [exact H1|]. split; [exact H2|].
  assert (Hrun : ThrottleRev.acquireAccessToken Cases.down (ThrottleRev.new Scenario.start)
                 = (Done false, snd run)).
  { rewrite <- H1. apply surjective_pairing. }
  exact (proj2 (failed_authentication_starts_cooldown _ _ _ Hrun) 60000%Z H2).
Defined.

(** ** What a successful call leaves behind *)

Lemma bearer_truthy (kind token : string) : Js.truthy (Some (kind ++ " " ++ token)) = true.
Proof. now destruct kind. Qed.

Module TimerToken.

Import TimerRev.

Section WithPlatform.

Variable pf : Platform.

Lemma timer_refreshOAuthToken_true c c' :
  refreshOAuthToken pf c = (Done true, c') -> Js.truthy (accessToken c') = true.
Proof.
  intros H. unfold refreshOAuthToken, setTokenRefreshTimer in H.
  do 3 step H. repeat step H. inversion H; subst; clear H.
  match goal with
  | E : bind _ _ _ = (Done _, _) |- _ =>
      unfold bind, modify, clearRefreshTimer in E; inversion E; subst; clear E
  end.
  destruct (refreshTimer _); cbn; apply bearer_truthy.
Qed.

Lemma timer_acquireAccessToken_true c c' :
  acquireAccessToken pf c = (Done true, c') -> Js.truthy (accessToken c') = true.
Proof.
  intros H. unfold acquireAccessToken in H.
  do 2 step H. destruct (Js.truthy value) eqn:Htoken; [|discriminate].
  cbn [negb] in H. do 2 step H.
  match goal with
  | E : getAccounts pf ?s = (Done ?found, ?s') |- _ =>
      pose proof (TimerSession.timer_getAccounts_keeps_token pf s) as Hkept;
      rewrite E in Hkept; cbn [snd] in Hkept;
      destruct found; [|cbn in H; discriminate]
  end.
  cbn in H. inversion H; subst. now rewrite Hkept.
Qed.

Lemma timer_refreshAccessToken_true c c' :
  refreshAccessToken pf c = (Done true, c') -> Js.truthy (accessToken c') = true.
Proof.
  intros H. unfold refreshAccessToken in H. step H.
  destruct (_ || _) in H; [now apply timer_acquireAccessToken_true in H|].
  step H.
  match goal with
  | E : refreshOAuthToken pf _ = (Done ?refreshed, _) |- _ => destruct refreshed
  end.
  - unfold ret in H. inversion H; subst. eauto using timer_refreshOAuthToken_true.
  - step H.
    match goal with
    | E : acquireAccessToken pf _ = (Done ?acquired, _) |- _ =>
        destruct acquired; [|discriminate]
    end.
    unfold ret in H. cbn in H. inversion H; subst. eauto using timer_acquireAccessToken_true.
Qed.

Lemma timer_collectDevices_some ids : forall acc c l c',
  collectDevices pf ids acc c = (Done (Some l), c') -> accessToken c' = accessToken c.
Proof.
  induction ids as [|accountId rest IH]; intros acc c l c' H; cbn [collectDevices] in H.
  - unfold ret in H. now inversion H.
  - step H.
    match goal with
    | E : this_retrieve pf ?u ?s = (Done ?response, ?s') |- _ =>
        pose proof (TimerFacts.timer_retrieve_keeps pf accessToken u
                      (fun _ _ => eq_refl) s) as Hkept;
        rewrite E in Hkept; cbn [snd] in Hkept;
        destruct response as [response|]
    end.
    + destruct (body _) in H; try discriminate.
      apply IH in H. congruence.
    + step H. discriminate.
Qed.

Lemma timer_refreshDevices_true c c' :
  refreshDevices pf c = (Done true, c') ->
  Js.truthy (accessToken c') = true /\ exists l, devices c' = Some l.
Proof.
  intros H. unfold refreshDevices in H. do 3 step H.
  match goal with
  | E : refreshAccessToken pf _ = (Done ?valid, _) |- _ =>
      destruct valid; [apply timer_refreshAccessToken_true in E|discriminate]
  end.
  cbn [negb] in H. step H.
  match goal with
  | E : getAccounts pf ?s = (Done ?found, ?s') |- _ =>
      pose proof (TimerSession.timer_getAccounts_keeps_token pf s) as Hkept;
      rewrite E in Hkept; cbn [snd] in Hkept;
      destruct found; [|cbn in H; discriminate]
  end.
  cbn [negb] in H. do 2 step H.
  match goal with
  | E : collectDevices pf _ _ _ = (Done ?collected, _) |- _ =>
      destruct collected as [l|]; [apply timer_collectDevices_some in E|discriminate]
  end.
  step H. unfold ret in H. inversion H; subst. cbn. split; [congruence|eauto].
Qed.

End WithPlatform.

End TimerToken.

Module ThrottleSuccess.

Import ThrottleRev.

Section WithPlatform.

Variable pf : Platform.

Lemma throttle_refreshOAuthToken_true c c' :
  refreshOAuthToken pf c = (Done true, c') -> Js.truthy (accessToken c') = true.
Proof.
  intros H. unfold refreshOAuthToken in H.
  do 3 step H. repeat step H. inversion H; subst; clear H.
  destruct (_ <? _)%Z; cbn; apply bearer_truthy.
Qed.

Lemma throttle_acquireAccessToken_true c c' :
  acquireAccessToken pf c = (Done true, c') -> Js.truthy (accessToken c') = true.
Proof.
  intros H. unfold acquireAccessToken in H.
  step H. cbv zeta in H. do 3 step H.
  destruct (Js.truthy value) eqn:Htoken; [|discriminate].
  cbn [negb] in H. do 3 step H.
  match goal with
  | E : getAccounts pf ?s = (Done ?found, ?s') |- _ =>
      pose proof (ThrottleSession.throttle_getAccounts_keeps_token pf s) as Hkept;
      rewrite E in Hkept; cbn [snd] in Hkept;
      destruct found; [|cbn in H; discriminate]
  end.
  cbn in H. inversion H; subst. now rewrite Hkept.
Qed.

Lemma throttle_refreshAccessToken_true c c' :
  refreshAccessToken pf c = (Done true, c') -> Js.truthy (accessToken c') = true.
Proof.
  intros H. unfold refreshAccessToken in H. step H. cbv zeta in H.
  destruct (elapsedUnder _ _ _) in H.
  { unfold ret in H. injection H as Husable Hsame. subst c'.
    unfold sessionUsable in Husable. now apply andb_true_iff in Husable. }
  destruct (_ || _) eqn:Hsession in H; [now apply throttle_acquireAccessToken_true in H|].
  apply orb_false_iff in Hsession as [_ Htoken]. apply negb_false_iff in Htoken.
  destruct (match accessTokenTimestamp c with Some _ => _ | None => _ end) in H.
  { unfold ret in H. now inversion H; subst. }
  step H.
  match goal with
  | E : refreshOAuthToken pf _ = (Done ?refreshed, _) |- _ => destruct refreshed
  end.
  - unfold ret in H. inversion H; subst. eauto using throttle_refreshOAuthToken_true.
  - step H.
    match goal with
    | E : acquireAccessToken pf _ = (Done ?acquired, _) |- _ =>
        destruct acquired; [|discriminate]
    end.
    unfold ret in H. cbn in H. inversion H; subst.
    eauto using throttle_acquireAccessToken_true.
Qed.

Lemma throttle_collectDevices_some ids : forall acc c l c',
  collectDevices pf ids acc c = (Done (Some l), c') -> accessToken c' = accessToken c.
Proof.
  induction ids as [|accountId rest IH]; intros acc c l c' H; cbn [collectDevices] in H.
  - unfold ret in H. now inversion H.
  - step H.
    match goal with
    | E : this_retrieve pf ?u ?s = (Done ?response, ?s') |- _ =>
        pose proof (ThrottleFacts.throttle_retrieve_keeps pf accessToken u
                      (fun _ _ => eq_refl) s) as Hkept;
        rewrite E in Hkept; cbn [snd] in Hkept;
        destruct response as [response|]
    end.
    + destruct (body _) in H; try discriminate.
      apply IH in H. congruence.
    + step H. discriminate.
Qed.

Lemma throttle_refreshDevices_true c c' :
  refreshDevices pf c = (Done true, c') ->
  (exists l, devices c' = Some l) /\
  (refreshThrottled c = false ->
   Js.truthy (accessToken c') = true /\ lastRefreshDevicesCall c' = Some (now c)).
Proof.
  intros H. unfold refreshDevices in H. do 2 step H. cbv zeta in H.
  destruct (refreshThrottled c) eqn:Hthrottled.
  { unfold ret, hasDevices in H. injection H as Hhas Hsame. subst c'.
    destruct (devices c) as [l|]; [|discriminate]. split; [eauto|discriminate]. }
  do 2 step H.
  match goal with
  | E : refreshAccessToken pf ?s = (Done ?valid, _) |- _ =>
      pose proof (ThrottleSession.throttle_refreshAccessToken_bystanders pf s) as Hb1;
      rewrite E in Hb1; cbn [snd] in Hb1;
      destruct valid; [apply throttle_refreshAccessToken_true in E|discriminate]
  end.
  cbn [negb] in H. step H.
  match goal with
  | E : getAccounts pf ?s = (Done ?found, ?s') |- _ =>
      pose proof (ThrottleSession.throttle_getAccounts_keeps_token pf s) as Hkept;
      pose proof (ThrottleSession.throttle_getAccounts_bystanders pf s) as Hb2;
      rewrite E in Hkept, Hb2; cbn [snd] in Hkept, Hb2;
      destruct found; [|cbn in H; discriminate]
  end.
  cbn [negb] in H. do 2 step H.
  match goal with
  | E : collectDevices pf ?ids ?acc ?s = (Done ?collected, _) |- _ =>
      pose proof (ThrottleSession.throttle_collectDevices_bystanders pf ids acc s) as Hb3;
      rewrite E in Hb3; cbn [snd] in Hb3;
      destruct collected as [l|]; [apply throttle_collectDevices_some in E|discriminate]
  end.
  step H. unfold ret in H. inversion H; subst. cbn.
  split; [eauto|]. intros _. split; [congruence|].
  unfold throttleBystanders in Hb1, Hb2, Hb3.
  injection Hb1 as _ _ _ Hb1. injection Hb2 as _ _ _ Hb2. injection Hb3 as _ _ _ Hb3.
  rewrite Hb3, Hb2, Hb1. reflexivity.
Qed.

End WithPlatform.

End ThrottleSuccess.

(** X18.  What a successful [refreshDevices] leaves behind.  In both
    revisions the device list is there.  In the revision with [refreshTimer]
    the client then holds a non-empty access token; in the other revision it
    does so whenever the call was not answered from the two-second cooldown,
    and [lastRefreshDevicesCall] is then the time the call began.  A
    successful [login] is such a call in both revisions. *)
Theorem refreshDevices_success_postcondition :
  (forall pf (c c' : TimerRev.Client),
     TimerRev.refreshDevices pf c = (Done true, c') ->
     Js.truthy (TimerRev.accessToken c') = true /\ exists l, TimerRev.devices c' = Some l) /\
  (forall pf (c c' : ThrottleRev.Client),
     ThrottleRev.refreshDevices pf c = (Done true, c') ->
     (exists l, ThrottleRev.devices c' = Some l) /\
     (ThrottleRev.refreshThrottled c = false ->
      Js.truthy (ThrottleRev.accessToken c') = true /\
      ThrottleRev.lastRefreshDevicesCall c' = Some (ThrottleRev.now c))) /\
  (forall pf email password (c c' : TimerRev.Client),
     TimerRev.login pf email password c = (Done true, c') ->
     Js.truthy (TimerRev.accessToken c') = true /\ exists l, TimerRev.devices c' = Some l) /\
  (forall pf email password (c c' : ThrottleRev.Client),
     ThrottleRev.login pf email password c = (Done true, c') ->
     Js.truthy (ThrottleRev.accessToken c') = true /\
     ThrottleRev.lastRefreshDevicesCall c' = Some (ThrottleRev.now c) /\
     exists l, ThrottleRev.devices c' = Some l).
Proof.
  split; [|split; [|split]].
  - intros pf c c'. apply TimerToken.timer_refreshDevices_true.
  - intros pf c c'. apply ThrottleSuccess.throttle_refreshDevices_true.
  - intros pf email password c c' H. unfold TimerRev.login in H. rewrite bind_modify in H.
    now apply TimerToken.timer_refreshDevices_true in H.
  - intros pf email password c c' H. unfold ThrottleRev.login in H. rewrite bind_modify in H.
    apply ThrottleSuccess.throttle_refreshDevices_true in H as [Hdevices Hrest].
    destruct (Hrest eq_refl) as [Htoken Hstamp]. auto.
Qed.

(** X18 on a login to a cloud that answers, in each revision. *)
Lemma refreshDevices_success_postcondition_witness :
  let timer := TimerRev.login Scenario.timerCloud "me@example.com" "hunter2"
                 (TimerRev.new Scenario.start) in
  let throttle := ThrottleRev.login Scenario.throttleCloud "me@example.com" "hunter2"
                    (ThrottleRev.new Scenario.start) in
  fst timer = Done true /\
  fst throttle = Done true /\
  (Js.truthy (TimerRev.accessToken (snd timer)) = true /\
   exists l, TimerRev.devices (snd timer) = Some l) /\
  (Js.truthy (ThrottleRev.accessToken (snd throttle)) = true /\
   ThrottleRev.lastRefreshDevicesCall (snd throttle)
   = Some (ThrottleRev.now (ThrottleRev.new Scenario.start)) /\
   exists l, ThrottleRev.devices (snd throttle) = Some l).
Proof.
  intros timer throttle.
  assert (H1 : fst timer = Done true) by (vm_compute; reflexivity).
  assert (H2 : fst throttle = Done true) by (vm_compute; reflexivity).
  split; [exact H1|]. split; [exact H2|]. split.
  - apply (proj1 (proj2 (proj2 refreshDevices_success_postcondition))
             Scenario.timerCloud "me@example.com" "hunter2" (TimerRev.new Scenario.start)).
    rewrite <- H1. apply surjective_pairing.
  - apply (proj2 (proj2 (proj2 refreshDevices_success_postcondition))
             Scenario.throttleCloud "me@example.com" "hunter2"
             (ThrottleRev.new Scenario.start)).
    rewrite <- H2. apply surjective_pairing.
Defined.

(** ** The stored credentials *)

Lemma timer_credentials_image {A : Type} (m : M TimerRev.Client A) :
  keeps timerBystanders m -> keeps timerCredentials m.
Proof. exact (keeps_image timerBystanders (fun b => (snd (fst b), snd b)) m). Qed.

Lemma throttle_credentials_image {A : Type} (m : M ThrottleRev.Client A) :
  keeps throttleBystanders m -> keeps throttleCredentials m.
Proof.
  exact (keeps_image throttleBystanders (fun b => (snd (fst (fst b)), snd (fst b))) m).
Qed.

Module TimerCredentials.

Import TimerRev.

Section WithPlatform.

Variable pf : Platform.

Lemma timer_refreshAccessToken_credentials : keeps timerCredentials (refreshAccessToken pf).
Proof.
  apply timer_credentials_image, TimerSession.timer_refreshAccessToken_bystanders.
Qed.

Lemma timer_getAccounts_credentials : keeps timerCredentials (getAccounts pf).
Proof. apply timer_credentials_image, TimerSession.timer_getAccounts_bystanders. Qed.

Lemma timer_collectDevices_credentials ids acc :
  keeps timerCredentials (collectDevices pf ids acc).
Proof. apply timer_credentials_image, TimerSession.timer_collectDevices_bystanders. Qed.

Hint Resolve timer_refreshAccessToken_credentials timer_getAccounts_credentials
  timer_collectDevices_credentials : frame.

Lemma timer_refreshDevices_credentials : keeps timerCredentials (refreshDevices pf).
Proof. unfold refreshDevices, invalidate. frame. Qed.

Lemma timer_execute_credentials device command :
  keeps timerCredentials (execute pf device command).
Proof. apply timer_credentials_image, TimerSession.timer_execute_bystanders. Qed.

End WithPlatform.

End TimerCredentials.

Module ThrottleCredentials.

Import ThrottleRev.

Section WithPlatform.

Variable pf : Platform.

Lemma throttle_refreshAccessToken_credentials :
  keeps throttleCredentials (refreshAccessToken pf).
Proof.
  apply throttle_credentials_image, ThrottleSession.throttle_refreshAccessToken_bystanders.
Qed.

Lemma throttle_getAccounts_credentials : keeps throttleCredentials (getAccounts pf).
Proof. apply throttle_credentials_image, ThrottleSession.throttle_getAccounts_bystanders. Qed.

Lemma throttle_collectDevices_credentials ids acc :
  keeps throttleCredentials (collectDevices pf ids acc).
Proof.
  apply throttle_credentials_image, ThrottleSession.throttle_collectDevices_bystanders.
Qed.

Hint Resolve throttle_refreshAccessToken_credentials throttle_getAccounts_credentials
  throttle_collectDevices_credentials : frame.

Lemma throttle_refreshDevices_credentials : keeps throttleCredentials (refreshDevices pf).
Proof. unfold refreshDevices, invalidate. frame. Qed.

Lemma throttle_execute_credentials device command :
  keeps throttleCredentials (execute pf device command).
Proof. apply throttle_credentials_image, ThrottleSession.throttle_execute_bystanders. Qed.

End WithPlatform.

End ThrottleCredentials.

(** X19.  Only [login] touches the stored credentials.  In both revisions
    [refreshDevices] and [execute] leave [email] and [password] as they
    found them whatever the cloud answers, also when they fail and wipe the
    access token and the accounts; and [login] stores the e-mail address and
    password it is given whether or not it succeeds. *)
Theorem credentials_only_set_by_login :
  (forall pf (c : TimerRev.Client) device command,
     timerCredentials (snd (TimerRev.refreshDevices pf c)) = timerCredentials c /\
     timerCredentials (snd (TimerRev.execute pf device command c)) = timerCredentials c) /\
  (forall pf (c : ThrottleRev.Client) device command,
     throttleCredentials (snd (ThrottleRev.refreshDevices pf c)) = throttleCredentials c /\
     throttleCredentials (snd (ThrottleRev.execute pf device command c))
     = throttleCredentials c) /\
  (forall pf email password (c : TimerRev.Client),
     timerCredentials (snd (TimerRev.login pf email password c))
     = (Some email, Some password)) /\
  (forall pf email password (c : ThrottleRev.Client),
     throttleCredentials (snd (ThrottleRev.login pf email password c))
     = (Some email, Some password)).
Proof.
  split; [|split; [|split]].
  - intros pf c device command. split.
    + apply TimerCredentials.timer_refreshDevices_credentials.
    + apply TimerCredentials.timer_execute_credentials.
  - intros pf c device command. split.
    + apply ThrottleCredentials.throttle_refreshDevices_credentials.
    + apply ThrottleCredentials.throttle_execute_credentials.
  - intros pf email password c. unfold TimerRev.login. rewrite bind_modify.
    now rewrite TimerCredentials.timer_refreshDevices_credentials.
  - intros pf email password c. unfold ThrottleRev.login. rewrite bind_modify.
    now rewrite ThrottleCredentials.throttle_refreshDevices_credentials.
Qed.

(** ** The refresh timer *)

(** Record what a finished step left unchanged. *)
Ltac unchanged lemma :=
  match goal with
  | E : ?m ?s = (Done _, ?s') |- _ =>
      let K := fresh "K" in
      pose proof (lemma s) as K; rewrite E in K; cbn [snd] in K; clear E
  end.

Module TimerArming.

Import TimerRev.

Section WithPlatform.

Variable pf : Platform.

Lemma timer_retrieve_keeps_timer u : keeps refreshTimer (this_retrieve pf u).
Proof. now apply TimerFacts.timer_retrieve_keeps. Qed.

Hint Resolve timer_retrieve_keeps_timer : frame.

Lemma timer_oauthGetAuthPage_keeps_timer challenge :
  keeps refreshTimer (oauthGetAuthPage pf challenge).
Proof. unfold oauthGetAuthPage. frame. Qed.

Lemma timer_oauthLogin_keeps_timer page : keeps refreshTimer (oauthLogin pf page).
Proof. unfold oauthLogin. frame. Qed.

Lemma timer_oauthRedirect_keeps_timer response :
  keeps refreshTimer (oauthRedirect pf response).
Proof. unfold oauthRedirect. frame. Qed.

Lemma clearRefreshTimer_clears c : refreshTimer (clearRefreshTimer c) = None.
Proof. unfold clearRefreshTimer. now destruct (refreshTimer c) eqn:E. Qed.

End WithPlatform.

End TimerArming.

(** X20.  In the revision with [refreshTimer], a [getOAuthToken] call that
    returns null leaves no refresh timer armed: the timer it cancelled on
    entry is not set again unless a token is received. *)
Theorem failed_token_request_disarms_timer :
  forall (pf : Platform) (c c' : TimerRev.Client),
    TimerRev.getOAuthToken pf c = (Done None, c') ->
    TimerRev.refreshTimer c' = None.
Proof.
  intros pf c c' H. unfold TimerRev.getOAuthToken in H. do 2 step H.
  pose proof (TimerArming.clearRefreshTimer_clears c) as K0.
  step H.
  match goal with
  | E : TimerRev.oauthGetAuthPage pf ?ch ?s = _ |- _ =>
      unchanged (TimerArming.timer_oauthGetAuthPage_keeps_timer pf ch)
  end.
  destruct value as [page|]; [|unfold ret in H; inversion H; subst; congruence].
  step H.
  match goal with
  | E : TimerRev.oauthLogin pf ?p ?s = _ |- _ =>
      unchanged (TimerArming.timer_oauthLogin_keeps_timer pf p)
  end.
  destruct value as [loginResponse|]; [|unfold ret in H; inversion H; subst; congruence].
  step H.
  match goal with
  | E : TimerRev.oauthRedirect pf ?p ?s = _ |- _ =>
      unchanged (TimerArming.timer_oauthRedirect_keeps_timer pf p)
  end.
  destruct value as [redirect|]; [|unfold ret in H; inversion H; subst; congruence].
  destruct (parseURL pf _) as [redirectUrl|] in H; [|discriminate].
  step H. unchanged (TimerArming.timer_retrieve_keeps_timer pf tokenEndpoint).
  destruct value as [response|]; [|unfold ret in H; inversion H; subst; congruence].
  destruct (body response) in H; discriminate.
Qed.

(** X20 on a logged-in client, its timer armed, that asks for a new token
    when the cloud has gone down. *)
Lemma failed_token_request_disarms_timer_witness :
  let c := Scenario.timerLoggedIn Scenario.timerCloud in
  let run := TimerRev.getOAuthToken Cases.down c in
  TimerRev.refreshTimer c = Some 3420000%Z /\
  fst run = Done None /\
  TimerRev.refreshTimer (snd run) = None.
Proof.
  intros c run.
  assert (H0 : TimerRev.refreshTimer c = Some 3420000%Z) by (vm_compute; reflexivity).
  assert (H1 : fst run = Done None) by (vm_compute; reflexivity).
  split; [exact H0|]. split; [exact H1|].
  apply (failed_token_request_disarms_timer Cases.down c).
  rewrite <- H1. apply surjective_pairing.
Defined.

(** X21.  The two revisions send a command to the same endpoint for every
    device family that is not the name of a property all objects inherit:
    lamps to the lamp host, every other family to the garage door opener
    host.  For a family named like an inherited property the revision that
    looks the family up in an object literal builds a host and path out of
    [undefined]. *)
Theorem commandEndpoint_revisions_agree :
  (forall (device : myQDevice) (command : string),
     existsb (String.eqb (device_family device)) TimerRev.objectPrototypeKeys = false ->
     TimerRev.commandEndpoint device command = ThrottleRev.commandEndpoint device command) /\
  (forall (device : myQDevice) (command : string),
     existsb (String.eqb (device_family device)) TimerRev.objectPrototypeKeys = true ->
     hostname (TimerRev.commandEndpoint device command)
     = "account-devices-undefined.myq-cloud.com" /\
     hostname (ThrottleRev.commandEndpoint device command)
     = "account-devices-gdo.myq-cloud.com").
Proof.
  split.
  - intros device command Hown.
    unfold TimerRev.commandEndpoint, ThrottleRev.commandEndpoint, TimerRev.deviceMap.
    rewrite Hown.
    destruct (device_family device =? "default") eqn:Hdefault.
    { apply String.eqb_eq in Hdefault. now rewrite Hdefault. }
    destruct (device_family device =? "garagedoor") eqn:Hdoor.
    { apply String.eqb_eq in Hdoor. now rewrite Hdoor. }
    now destruct (device_family device =? "lamp").
  - intros device command Hinherited.
    unfold TimerRev.commandEndpoint, ThrottleRev.commandEndpoint, TimerRev.deviceMap.
    rewrite Hinherited.
    assert (Hnot : forall key,
               existsb (String.eqb key) TimerRev.objectPrototypeKeys = true ->
               (key =? "default") = false /\ (key =? "garagedoor") = false /\
               (key =? "lamp") = false).
    { intros key Hkey. apply existsb_exists in Hkey as (k & Hin & Hk).
      apply String.eqb_eq in Hk. subst k.
      cbn in Hin. repeat (destruct Hin as [<-|Hin]; [repeat split; reflexivity|]).
      contradiction. }
    destruct (Hnot _ Hinherited) as (-> & -> & ->). split; reflexivity.
Qed.

(** X21 on a lamp and on a device whose family is "constructor". *)
Lemma commandEndpoint_revisions_agree_witness :
  let odd := mkDevice "a1" "constructor" "Odd" "" "GW0100000002" in
  existsb (String.eqb (device_family Scenario.lamp)) TimerRev.objectPrototypeKeys = false /\
  existsb (String.eqb (device_family odd)) TimerRev.objectPrototypeKeys = true /\
  TimerRev.commandEndpoint Scenario.lamp "on" = ThrottleRev.commandEndpoint Scenario.lamp "on" /\
  hostname (TimerRev.commandEndpoint odd "open") = "account-devices-undefined.myq-cloud.com".
Proof.
  intros odd.
  assert (H1 : existsb (String.eqb (device_family Scenario.lamp))
                 TimerRev.objectPrototypeKeys = false) by reflexivity.
  assert (H2 : existsb (String.eqb (device_family odd)) TimerRev.objectPrototypeKeys = true)
    by reflexivity.
  split; [exact H1|]. split; [exact H2|]. split.
  - exact (proj1 commandEndpoint_revisions_agree Scenario.lamp "on" H1).
  - exact (proj1 (proj2 commandEndpoint_revisions_agree odd "open" H2)).
Defined.

(** ** Looking a device up after a login *)

Lemma timer_refreshDevices_logged_in pf c c' :
  TimerRev.refreshDevices pf c = (Done true, c') -> Js.truthy (TimerRev.password c) = true.
Proof.
  intros H. unfold TimerRev.refreshDevices in H. rewrite bind_get in H.
  unfold TimerRev.notLoggedIn in H.
  destruct (Js.truthy (TimerRev.password c)); [reflexivity|discriminate].
Qed.

Lemma throttle_refreshDevices_logged_in pf c c' :
  ThrottleRev.refreshDevices pf c = (Done true, c') ->
  Js.truthy (ThrottleRev.password c) = true.
Proof.
  intros H. unfold ThrottleRev.refreshDevices in H. rewrite bind_get in H.
  unfold ThrottleRev.notLoggedIn in H.
  destruct (Js.truthy (ThrottleRev.password c)); [reflexivity|discriminate].
Qed.

(** X22.  A device lookup after a successful [login] answers from the list
    the login fetched: for a non-empty serial number [getDevice] is the
    first entry of that list with this serial number up to letter case.  In
    the revision with [refreshTimer] this holds at any later time; in the
    other revision it holds while no more than 60 seconds have passed since
    the login began (not since it ended), the clock not reading zero
    then. *)
Theorem getDevice_after_login :
  (forall pf email password (c c' : TimerRev.Client) (serial : string) (dt : Z),
     TimerRev.login pf email password c = (Done true, c') ->
     serial <> "" ->
     exists l,
       TimerRev.devices c' = Some l /\
       TimerRev.getDevice serial (Scenario.timerLater dt c')
       = findDevice (Js.toUpperCase serial) l) /\
  (forall pf email password (c c' : ThrottleRev.Client) (serial : string) (dt : Z),
     ThrottleRev.login pf email password c = (Done true, c') ->
     serial <> "" ->
     ThrottleRev.now c <> 0%Z ->
     (ThrottleRev.now c' + dt - ThrottleRev.now c <= 60 * 1000)%Z ->
     exists l,
       ThrottleRev.devices c' = Some l /\
       ThrottleRev.getDevice serial (Scenario.throttleLater dt c')
       = findDevice (Js.toUpperCase serial) l).
Proof.
  split.
  - intros pf email password c c' serial dt H Hserial.
    unfold TimerRev.login in H. rewrite bind_modify in H.
    pose proof (timer_refreshDevices_logged_in _ _ _ H) as Hpassword.
    match type of H with
    | TimerRev.refreshDevices pf ?s = _ =>
        pose proof (TimerCredentials.timer_refreshDevices_credentials pf s) as Hkept
    end.
    rewrite H in Hkept. cbn [snd] in Hkept. injection Hkept as _ Hpw.
    destruct (TimerToken.timer_refreshDevices_true _ _ _ H) as [_ [l Hl]].
    exists l. split; [exact Hl|].
    unfold TimerRev.getDevice, TimerRev.notLoggedIn.
    cbn [Scenario.timerLater TimerRev.withExec TimerRev.password TimerRev.devices].
    rewrite Hpw, Hl. cbn [TimerRev.withAccessToken TimerRev.withCredentials TimerRev.password]
      in Hpassword |- *.
    rewrite Hpassword. cbn [negb orb].
    destruct serial; [contradiction|reflexivity].
  - intros pf email password c c' serial dt H Hserial Hclock Hdt.
    unfold ThrottleRev.login in H. rewrite bind_modify in H.
    pose proof (throttle_refreshDevices_logged_in _ _ _ H) as Hpassword.
    match type of H with
    | ThrottleRev.refreshDevices pf ?s = _ =>
        pose proof (ThrottleCredentials.throttle_refreshDevices_credentials pf s) as Hkept
    end.
    rewrite H in Hkept. cbn [snd] in Hkept. injection Hkept as _ Hpw.
    destruct (ThrottleSuccess.throttle_refreshDevices_true _ _ _ H) as [[l Hl] Hrest].
    destruct (Hrest eq_refl) as [_ Hstamp].
    exists l. split; [exact Hl|].
    unfold ThrottleRev.getDevice, ThrottleRev.notLoggedIn, ThrottleRev.snapshotStale,
      ThrottleRev.hasDevices.
    change (ThrottleRev.password (Scenario.throttleLater dt c')) with (ThrottleRev.password c').
    change (ThrottleRev.devices (Scenario.throttleLater dt c')) with (ThrottleRev.devices c').
    change (ThrottleRev.lastRefreshDevicesCall (Scenario.throttleLater dt c'))
      with (ThrottleRev.lastRefreshDevicesCall c').
    change (ThrottleRev.now (Scenario.throttleLater dt c')) with (ThrottleRev.now c' + dt)%Z.
    match type of Hstamp with
    | _ = Some (ThrottleRev.now ?s) =>
        change (ThrottleRev.now s) with (ThrottleRev.now c) in Hstamp;
        change (ThrottleRev.password s) with (Some password) in Hpassword
    end.
    rewrite Hpw, Hl, Hstamp, Hpassword.
    cbn [negb orb Js.truthyNum ThrottleRev.elapsedOver].
    apply Z.eqb_neq in Hclock. rewrite Hclock. cbn [negb orb].
    assert (Hfresh : (ThrottleRev.now c' + dt - ThrottleRev.now c >? 60 * 1000)%Z = false).
    { rewrite Z.gtb_ltb. apply Z.ltb_ge. exact Hdt. }
    rewrite Hfresh.
    destruct serial; [contradiction|reflexivity].
Qed.

(** X22 on a lookup half a minute after a login to a cloud that answers, in
    each revision. *)
Lemma getDevice_after_login_witness :
  let timer := TimerRev.login Scenario.timerCloud "me@example.com" "hunter2"
                 (TimerRev.new Scenario.start) in
  let throttle := ThrottleRev.login Scenario.throttleCloud "me@example.com" "hunter2"
                    (ThrottleRev.new Scenario.start) in
  fst timer = Done true /\
  fst throttle = Done true /\
  "cg0800000001" <> "" /\
  ThrottleRev.now (ThrottleRev.new Scenario.start) <> 0%Z /\
  (ThrottleRev.now (snd throttle) + 30000 - ThrottleRev.now (ThrottleRev.new Scenario.start)
   <= 60 * 1000)%Z /\
  (exists l,
     TimerRev.devices (snd timer) = Some l /\
     TimerRev.getDevice "cg0800000001" (Scenario.timerLater 30000 (snd timer))
     = findDevice (Js.toUpperCase "cg0800000001") l) /\
  (exists l,
     ThrottleRev.devices (snd throttle) = Some l /\
     ThrottleRev.getDevice "cg0800000001" (Scenario.throttleLater 30000 (snd throttle))
     = findDevice (Js.toUpperCase "cg0800000001") l).
Proof.
  intros timer throttle.
  assert (H1 : fst timer = Done true) by (vm_compute; reflexivity).
  assert (H2 : fst throttle = Done true) by (vm_compute; reflexivity).
  assert (H3 : "cg0800000001" <> "") by discriminate.
  assert (H4 : ThrottleRev.now (ThrottleRev.new Scenario.start) <> 0%Z)
    by (vm_compute; discriminate).
  assert (H5 : (ThrottleRev.now (snd throttle) + 30000
                - ThrottleRev.now (ThrottleRev.new Scenario.start) <= 60 * 1000)%Z)
    by (vm_compute; discriminate).
  repeat (split; [assumption|]). split.
  - apply (proj1 getDevice_after_login Scenario.timerCloud "me@example.com" "hunter2"
             (TimerRev.new Scenario.start) (snd timer) "cg0800000001" 30000%Z);
      [|exact H3].
    rewrite <- H1. apply surjective_pairing.
  - apply (proj2 getDevice_after_login Scenario.throttleCloud "me@example.com" "hunter2"
             (ThrottleRev.new Scenario.start) (snd throttle) "cg0800000001" 30000%Z);
      [|exact H3|exact H4|exact H5].
    rewrite <- H2. apply surjective_pairing.
Defined.
